(** * Alt-text service (packages/python-alt-text/app.py)

    A shallow embedding of the request pipeline of [app.py]: the two lazily
    loaded models, the captioning stage, the refinement stage with its word
    budget, the orchestrator and the [POST /alt] handler.

    Conventions.
    - A Python [str] is a list of Unicode code points ([pystr]); the methods
      of [str] that the program calls ([split], [strip], [join], [replace],
      [in], [startswith]) are written out as list functions.
    - Calls into the model runtime (transformers, torch, PIL) are answered by
      a [world]: a record of oracles that may depend on the whole history of
      earlier calls, so that sampling and transient failures are covered.
      Every call is recorded in the [events] of the program state.
    - Python code runs in the monad [M]: a state transformer whose result is
      a value or a raised exception.  A raised exception keeps the state
      reached so far, as in Python.
    - Only exceptions derived from [Exception] are modelled; this is what the
      [except Exception] clauses of the program catch.  Logging is left out.
    - [async] functions are modelled by their bodies: [await f(x)] and
      [await asyncio.to_thread(f, x)] are the call [f(x)], and the bytes read
      from an upload are a field of the upload. *)

From Stdlib Require Import List NArith ZArith Arith Bool String Ascii Lia.
From Stdlib Require Import DecimalString.
Import ListNotations.

(** ** Python strings *)

Module PyStr.

Definition pystr := list N.

Definition of_string (s : string) : pystr :=
  map N_of_ascii (list_ascii_of_string s).

(** Truth value of a string: [bool(s)] is [len(s) > 0]. *)
Definition truthy (s : pystr) : bool :=
  match s with [] => false | _ :: _ => true end.

(** [a or b] on strings. *)
Definition or_else (a b : pystr) : pystr := if truthy a then a else b.

(** [str.isspace] of one code point (CPython's [_PyUnicode_IsWhitespace]). *)
Definition isspace (c : N) : bool :=
  (((9 <=? c) && (c <=? 13)) || ((28 <=? c) && (c <=? 32))
   || (c =? 133) || (c =? 160) || (c =? 5760)
   || ((8192 <=? c) && (c <=? 8202))
   || (c =? 8232) || (c =? 8233) || (c =? 8239) || (c =? 8287)
   || (c =? 12288))%N.

Definition space : N := 32%N.
Definition dquote : N := 34%N.
Definition squote : N := 39%N.
Definition newline : N := 10%N.

Fixpoint dropwhile (p : N -> bool) (s : pystr) : pystr :=
  match s with
  | [] => []
  | c :: s' => if p c then dropwhile p s' else s
  end.

Definition lstrip_by (p : N -> bool) (s : pystr) : pystr := dropwhile p s.
Definition rstrip_by (p : N -> bool) (s : pystr) : pystr :=
  rev (dropwhile p (rev s)).

(** [s.strip(chars)] for a one-character [chars], and [s.strip()]. *)
Definition strip_by (p : N -> bool) (s : pystr) : pystr :=
  rstrip_by p (lstrip_by p s).
Definition strip_char (c : N) (s : pystr) : pystr := strip_by (N.eqb c) s.
Definition strip (s : pystr) : pystr := strip_by isspace s.

Definition starts_nonspace (s : pystr) : bool :=
  match s with
  | [] => false
  | c :: _ => negb (isspace c)
  end.

(** [s.split()]: the maximal runs of non-whitespace characters. *)
Fixpoint split (s : pystr) : list pystr :=
  match s with
  | [] => []
  | c :: s' =>
      if isspace c then split s'
      else if starts_nonspace s' then
        match split s' with
        | w :: ws => (c :: w) :: ws
        | [] => [[c]]
        end
      else [c] :: split s'
  end.

(** The number of words of [s]: [len(s.split())]. *)
Definition wc (s : pystr) : nat := List.length (split s).

Definition nonspace (c : N) : bool := negb (isspace c).

(** A word: not empty and free of whitespace. *)
Definition word (x : pystr) : Prop := x <> [] /\ forallb nonspace x = true.

(** [sep.join(ws)]. *)
Fixpoint join (sep : pystr) (ws : list pystr) : pystr :=
  match ws with
  | [] => []
  | [w] => w
  | w :: ws' => w ++ sep ++ join sep ws'
  end.

Fixpoint startswith (s pre : pystr) : bool :=
  match pre, s with
  | [], _ => true
  | _ :: _, [] => false
  | p :: pre', c :: s' => (p =? c)%N && startswith s' pre'
  end.

(** [sub in s]. *)
Fixpoint contains (s sub : pystr) : bool :=
  startswith s sub ||
  match s with
  | [] => false
  | _ :: s' => contains s' sub
  end.

(** [s.split(sep)[-1]] for a non-empty [sep]: scanning from the left and
    cutting at each non-overlapping occurrence, the last piece.  [skip]
    counts the characters of an occurrence still to be passed over and
    [cur] is the piece read so far, reversed. *)
Fixpoint split_last_go (sep : pystr) (skip : nat) (cur : pystr) (s : pystr)
  : pystr :=
  match s with
  | [] => rev cur
  | c :: s' =>
      match skip with
      | S k => split_last_go sep k cur s'
      | O =>
          if startswith s sep
          then split_last_go sep (List.length sep - 1) [] s'
          else split_last_go sep 0 (c :: cur) s'
      end
  end.

Definition split_last (sep s : pystr) : pystr := split_last_go sep 0 [] s.

(** [s.replace(old, new)] for a non-empty [old]. *)
Fixpoint replace_go (old new : pystr) (skip : nat) (s : pystr) : pystr :=
  match s with
  | [] => []
  | c :: s' =>
      match skip with
      | S k => replace_go old new k s'
      | O =>
          if startswith s old
          then new ++ replace_go old new (List.length old - 1) s'
          else c :: replace_go old new 0 s'
      end
  end.

Definition replace (old new s : pystr) : pystr := replace_go old new 0 s.

End PyStr.

Import PyStr.

Notation "'py' s" := (PyStr.of_string s%string) (at level 9, s at level 0).

(** ** Exceptions and results *)

(** The exceptions of the program.  [LibraryError] stands for any exception
    derived from [Exception] that a call into the model runtime raises; its
    argument is what [str(exc)] gives. *)
Inductive exn : Type :=
| LibraryError (msg : pystr)
| RuntimeError (msg : pystr)
| HTTPException (status_code : N) (detail : pystr).

Definition str_of_N (n : N) : pystr :=
  py (DecimalString.NilZero.string_of_uint (N.to_uint n)).

(** [str(exc)], as used by the f-strings that wrap a failure. *)
Definition exn_str (e : exn) : pystr :=
  match e with
  | LibraryError msg => msg
  | RuntimeError msg => msg
  | HTTPException status_code detail => str_of_N status_code ++ py ": " ++ detail
  end.

Inductive result (A : Type) : Type :=
| Returns (a : A)
| Raises (e : exn).
Arguments Returns {A} a.
Arguments Raises {A} e.

(** ** Model handles, events and the program state *)

Inductive device : Type := Cpu | Mps.

(** What the program can tell about a loaded model, processor or tokenizer. *)
Record handle : Type := {
  h_name : pystr;
  h_device : device;
  h_eval : bool;
  h_pad_is_eos : bool
}.

(** What [from_pretrained] returns: the library hands a model over on the
    CPU and already in evaluation mode, so that the [eval()] of lines 72 and
    95 finds the mode set.  The mode means nothing for a processor or a
    tokenizer. *)
Definition fresh_handle (name : pystr) : handle :=
  {| h_name := name; h_device := Cpu; h_eval := true; h_pad_is_eos := false |}.
Definition to_mps (h : handle) : handle :=
  {| h_name := h_name h; h_device := Mps; h_eval := h_eval h;
     h_pad_is_eos := h_pad_is_eos h |}.
Definition set_eval (h : handle) : handle :=
  {| h_name := h_name h; h_device := h_device h; h_eval := true;
     h_pad_is_eos := h_pad_is_eos h |}.
Definition set_pad_eos (h : handle) : handle :=
  {| h_name := h_name h; h_device := h_device h; h_eval := h_eval h;
     h_pad_is_eos := true |}.

(** One entry per call into the model runtime. *)
Inductive event : Type :=
| EvBlipProcessorFromPretrained (name : pystr)
| EvBlipModelFromPretrained (name : pystr)
| EvAutoTokenizerFromPretrained (name : pystr)
| EvAutoModelFromPretrained (name : pystr)
| EvMpsIsAvailable
| EvModuleTo (name : pystr)
| EvModuleEval (name : pystr)
| EvImageOpen
| EvBlipProcessorCall
| EvTensorTo
| EvBlipGenerate
| EvBlipDecode
| EvTokenizerCall
| EvAltGenerate
| EvAltDecode.

(** The module globals of [app.py] and the history of runtime calls. *)
Record state : Type := {
  BLIP_MODEL : option handle;
  BLIP_PROCESSOR : option handle;
  ALT_MODEL : option handle;
  ALT_TOKENIZER : option handle;
  events : list event
}.

(** The state of a fresh process (lines 35-36 and 41-42). *)
Definition initial_state : state :=
  {| BLIP_MODEL := None; BLIP_PROCESSOR := None;
     ALT_MODEL := None; ALT_TOKENIZER := None; events := [] |}.

Definition set_BLIP_MODEL (v : option handle) (s : state) : state :=
  {| BLIP_MODEL := v; BLIP_PROCESSOR := BLIP_PROCESSOR s;
     ALT_MODEL := ALT_MODEL s; ALT_TOKENIZER := ALT_TOKENIZER s;
     events := events s |}.
Definition set_BLIP_PROCESSOR (v : option handle) (s : state) : state :=
  {| BLIP_MODEL := BLIP_MODEL s; BLIP_PROCESSOR := v;
     ALT_MODEL := ALT_MODEL s; ALT_TOKENIZER := ALT_TOKENIZER s;
     events := events s |}.
Definition set_ALT_MODEL (v : option handle) (s : state) : state :=
  {| BLIP_MODEL := BLIP_MODEL s; BLIP_PROCESSOR := BLIP_PROCESSOR s;
     ALT_MODEL := v; ALT_TOKENIZER := ALT_TOKENIZER s;
     events := events s |}.
Definition set_ALT_TOKENIZER (v : option handle) (s : state) : state :=
  {| BLIP_MODEL := BLIP_MODEL s; BLIP_PROCESSOR := BLIP_PROCESSOR s;
     ALT_MODEL := ALT_MODEL s; ALT_TOKENIZER := v;
     events := events s |}.
Definition log_event (ev : event) (s : state) : state :=
  {| BLIP_MODEL := BLIP_MODEL s; BLIP_PROCESSOR := BLIP_PROCESSOR s;
     ALT_MODEL := ALT_MODEL s; ALT_TOKENIZER := ALT_TOKENIZER s;
     events := events s ++ [ev] |}.

(** ** The monad of Python code *)

Definition M (A : Type) : Type := state -> result A * state.

Definition ret {A} (a : A) : M A := fun s => (Returns a, s).
Definition raise {A} (e : exn) : M A := fun s => (Raises e, s).
Definition bind {A B} (m : M A) (k : A -> M B) : M B :=
  fun s =>
    match m s with
    | (Returns a, s') => k a s'
    | (Raises e, s') => (Raises e, s')
    end.

(** [try: m  except Exception as exc: h exc]. *)
Definition try_except {A} (m : M A) (h : exn -> M A) : M A :=
  fun s =>
    match m s with
    | (Returns a, s') => (Returns a, s')
    | (Raises e, s') => h e s'
    end.

Definition gets {A} (f : state -> A) : M A := fun s => (Returns (f s), s).
Definition modify (f : state -> state) : M unit := fun s => (Returns tt, f s).

(** A call into the model runtime: the oracle answers from the history of
    earlier calls, and the call is appended to the history. *)
Definition call {A} (ev : event) (oracle : list event -> result A) : M A :=
  fun s => (oracle (events s), log_event ev s).

Declare Scope py_scope.
Delimit Scope py_scope with monad.
Notation "x <- m ;; k" := (bind m (fun x => k))
  (at level 61, m at next level, right associativity) : py_scope.
Notation "m ;; k" := (bind m (fun _ => k))
  (at level 61, right associativity) : py_scope.
Local Open Scope py_scope.

(** [m[key]] on a dict held as an association list: [KeyError] if absent. *)
Fixpoint lookup {V} (key : string) (d : list (string * V)) : option V :=
  match d with
  | [] => None
  | (k, v) :: d' => if String.eqb k key then Some v else lookup key d'
  end.

Definition getitem {V} (d : list (string * V)) (key : string) : M V :=
  match lookup key d with
  | Some v => ret v
  | None => raise (LibraryError (py "KeyError"))
  end.

(** [xs[0]]: [IndexError] on an empty sequence. *)
Definition first {A} (xs : list A) : M A :=
  match xs with
  | x :: _ => ret x
  | [] => raise (LibraryError (py "IndexError"))
  end.

(** Calling through a global that is still [None] is a [TypeError]. *)
Definition deref {A} (g : state -> option A) : M A :=
  fun s =>
    match g s with
    | Some h => (Returns h, s)
    | None => (Raises (LibraryError (py "TypeError")), s)
    end.

(** ** The model runtime *)

Definition tensor : Type := list (list Z).
Definition image : Type := list N.
Definition bytes : Type := list Byte.byte.
Definition tensors : Type := list (string * tensor).

Record world : Type := {
  BlipProcessor_from_pretrained : pystr -> list event -> result unit;
  BlipForConditionalGeneration_from_pretrained :
    pystr -> list event -> result unit;
  AutoTokenizer_from_pretrained : pystr -> list event -> result unit;
  AutoModelForCausalLM_from_pretrained : pystr -> list event -> result unit;
  mps_is_available : list event -> result bool;
  module_to_mps : handle -> list event -> result unit;
  module_eval : handle -> list event -> result unit;
  Image_open_convert : bytes -> list event -> result image;
  blip_processor_call : handle -> image -> list event -> result tensors;
  tensor_to_mps : tensor -> list event -> result tensor;
  blip_generate : handle -> tensors -> list event -> result tensor;
  blip_decode : handle -> list Z -> list event -> result pystr;
  tokenizer_call : handle -> pystr -> list event -> result tensors;
  alt_generate :
    handle -> tensor -> tensor -> Z -> list event -> result tensor;
  alt_decode : handle -> list Z -> list event -> result pystr
}.

(** The settings read from the environment at import time (lines 31-43). *)
Record config : Type := {
  ALT_REFINEMENT_MAX_LENGTH : Z;
  BLIP_MODEL_NAME : pystr;
  ALT_MODEL_NAME : pystr
}.

Definition default_config : config :=
  {| ALT_REFINEMENT_MAX_LENGTH := 30;
     BLIP_MODEL_NAME := py "Salesforce/blip-image-captioning-base";
     ALT_MODEL_NAME := py "distilgpt2" |}.

(** ** The program *)

Section Program.

Variable cfg : config.
Variable w : world.

(** *** Model registry (lines 50-110) *)

Definition blip_ready (s : state) : bool :=
  match BLIP_MODEL s, BLIP_PROCESSOR s with
  | Some _, Some _ => true
  | _, _ => false
  end.

Definition alt_ready (s : state) : bool :=
  match ALT_MODEL s, ALT_TOKENIZER s with
  | Some _, Some _ => true
  | _, _ => false
  end.

(** Line 62. *)
Definition blip_load_processor : M unit :=
  call (EvBlipProcessorFromPretrained (BLIP_MODEL_NAME cfg))
       (BlipProcessor_from_pretrained w (BLIP_MODEL_NAME cfg)) ;;
  modify (set_BLIP_PROCESSOR (Some (fresh_handle (BLIP_MODEL_NAME cfg)))).

(** Line 63. *)
Definition blip_load_weights : M unit :=
  call (EvBlipModelFromPretrained (BLIP_MODEL_NAME cfg))
       (BlipForConditionalGeneration_from_pretrained w (BLIP_MODEL_NAME cfg)) ;;
  modify (set_BLIP_MODEL (Some (fresh_handle (BLIP_MODEL_NAME cfg)))).

(** Lines 66-70. *)
Definition blip_move_to_mps : M unit :=
  mps <- call EvMpsIsAvailable (mps_is_available w) ;;
  if mps : bool then
    h <- deref BLIP_MODEL ;;
    call (EvModuleTo (h_name h)) (module_to_mps w h) ;;
    modify (set_BLIP_MODEL (Some (to_mps h)))
  else ret tt.

(** Line 72. *)
Definition blip_eval : M unit :=
  h <- deref BLIP_MODEL ;;
  call (EvModuleEval (h_name h)) (module_eval w h) ;;
  modify (set_BLIP_MODEL (Some (set_eval h))).

Definition blip_load_body : M unit :=
  blip_load_processor ;; blip_load_weights ;; blip_move_to_mps ;; blip_eval.

Definition blip_load_failed (exc : exn) : exn :=
  RuntimeError (py "BLIP model load failed: " ++ exn_str exc).

(** [load_blip_model] as one thread runs it; in a single thread the lock of
    line 55 is always free.  The interleaving of two callers is modelled in
    the module [Threads] below. *)
Definition load_blip_model : M unit :=
  ready <- gets blip_ready ;;
  if ready : bool then ret tt
  else
    ready <- gets blip_ready ;;
    if ready : bool then ret tt
    else try_except blip_load_body (fun exc => raise (blip_load_failed exc)).

(** Line 91. *)
Definition alt_load_tokenizer : M unit :=
  call (EvAutoTokenizerFromPretrained (ALT_MODEL_NAME cfg))
       (AutoTokenizer_from_pretrained w (ALT_MODEL_NAME cfg)) ;;
  modify (set_ALT_TOKENIZER (Some (fresh_handle (ALT_MODEL_NAME cfg)))).

(** Line 92. *)
Definition alt_set_pad_token : M unit :=
  h <- deref ALT_TOKENIZER ;;
  modify (set_ALT_TOKENIZER (Some (set_pad_eos h))).

(** Line 94. *)
Definition alt_load_weights : M unit :=
  call (EvAutoModelFromPretrained (ALT_MODEL_NAME cfg))
       (AutoModelForCausalLM_from_pretrained w (ALT_MODEL_NAME cfg)) ;;
  modify (set_ALT_MODEL (Some (fresh_handle (ALT_MODEL_NAME cfg)))).

(** Line 95. *)
Definition alt_eval : M unit :=
  h <- deref ALT_MODEL ;;
  call (EvModuleEval (h_name h)) (module_eval w h) ;;
  modify (set_ALT_MODEL (Some (set_eval h))).

(** Lines 98-105: a failure to move the model is logged and dropped. *)
Definition alt_move_to_mps : M unit :=
  try_except
    (mps <- call EvMpsIsAvailable (mps_is_available w) ;;
     if mps : bool then
       h <- deref ALT_MODEL ;;
       call (EvModuleTo (h_name h)) (module_to_mps w h) ;;
       modify (set_ALT_MODEL (Some (to_mps h)))
     else ret tt)
    (fun _ => ret tt).

Definition alt_load_body : M unit :=
  alt_load_tokenizer ;; alt_set_pad_token ;; alt_load_weights ;;
  alt_eval ;; alt_move_to_mps.

Definition alt_load_failed (exc : exn) : exn :=
  RuntimeError (py "alt refinement model load failed: " ++ exn_str exc).

Definition load_alt_refinement_model : M unit :=
  ready <- gets alt_ready ;;
  if ready : bool then ret tt
  else
    ready <- gets alt_ready ;;
    if ready : bool then ret tt
    else try_except alt_load_body (fun exc => raise (alt_load_failed exc)).

(** *** Captioning stage (lines 254-282) *)

(** [{k: v.to("mps") for k, v in inputs.items()}]. *)
Fixpoint move_to_mps (inputs : tensors) : M tensors :=
  match inputs with
  | [] => ret []
  | (k, v) :: rest =>
      v' <- call EvTensorTo (tensor_to_mps w v) ;;
      rest' <- move_to_mps rest ;;
      ret ((k, v') :: rest')
  end.

(** The body of the [try] block, lines 263-277. *)
Definition blip_caption (image_data : bytes) : M pystr :=
  img <- call EvImageOpen (Image_open_convert w image_data) ;;
  processor <- deref BLIP_PROCESSOR ;;
  inputs <- call EvBlipProcessorCall (blip_processor_call w processor img) ;;
  mps <- call EvMpsIsAvailable (mps_is_available w) ;;
  inputs <- (if mps : bool then move_to_mps inputs else ret inputs) ;;
  model <- deref BLIP_MODEL ;;
  output <- call EvBlipGenerate (blip_generate w model inputs) ;;
  processor <- deref BLIP_PROCESSOR ;;
  row <- first output ;;
  call EvBlipDecode (blip_decode w processor row).

Definition fallback_caption : pystr := py "A beautiful image".

Definition infer_caption_from_data
    (image_data : bytes) (filename content_type : option pystr) : M pystr :=
  load_blip_model ;;
  try_except (blip_caption image_data) (fun _ => ret fallback_caption).

(** *** Refinement stage (lines 198-251) *)

(** Line 206. *)
Definition prompt_of (caption_text : pystr) : pystr :=
  py "Create SEO-optimized alt text (8-12 words): " ++ caption_text
  ++ [newline] ++ py "Alt:".

(** Lines 207-224: tokenize, generate, decode. *)
Definition alt_generation (caption_text : pystr) : M pystr :=
  tokenizer <- deref ALT_TOKENIZER ;;
  inputs <- call EvTokenizerCall
              (tokenizer_call w tokenizer (prompt_of caption_text)) ;;
  mps <- call EvMpsIsAvailable (mps_is_available w) ;;
  inputs <- (if mps : bool then move_to_mps inputs else ret inputs) ;;
  model <- deref ALT_MODEL ;;
  input_ids <- getitem inputs "input_ids" ;;
  attention_mask <- getitem inputs "attention_mask" ;;
  ids <- getitem inputs "input_ids" ;;
  row <- first ids ;;
  let max_length :=
    (Z.of_nat (List.length row) + ALT_REFINEMENT_MAX_LENGTH cfg)%Z in
  _ <- deref ALT_TOKENIZER ;;
  outputs <- call EvAltGenerate
               (alt_generate w model input_ids attention_mask max_length) ;;
  tokenizer <- deref ALT_TOKENIZER ;;
  out <- first outputs ;;
  call EvAltDecode (alt_decode w tokenizer out).

(** Lines 227-230. *)
Definition extract_alt (prompt generated_text : pystr) : pystr :=
  if contains generated_text (py "Alt:")
  then strip (split_last (py "Alt:") generated_text)
  else strip (replace prompt [] generated_text).

(** Lines 233-239. *)
Definition budget_words (caption_text alt_text : pystr) : pystr :=
  let words := split alt_text in
  if 12 <? List.length words then join (py " ") (firstn 10 words)
  else if List.length words <? 8 then caption_text
  else if List.length words =? 0 then caption_text
  else alt_text.

(** Line 242. *)
Definition strip_quotes (alt_text : pystr) : pystr :=
  strip (strip_char squote (strip_char dquote alt_text)).

(** Lines 233-245. *)
Definition shape_alt_text (caption_text alt_text : pystr) : pystr :=
  or_else (strip_quotes (budget_words caption_text alt_text)) caption_text.

(** Lines 250-251. *)
Definition refinement_fallback (caption_text : pystr) : pystr :=
  let words := firstn 10 (split caption_text) in
  match words with
  | [] => caption_text
  | _ :: _ => join (py " ") words
  end.

Definition refine_alt_text (caption_text : pystr) : M pystr :=
  load_alt_refinement_model ;;
  try_except
    (generated_text <- alt_generation caption_text ;;
     ret (shape_alt_text caption_text
            (extract_alt (prompt_of caption_text) generated_text)))
    (fun _ => ret (refinement_fallback caption_text)).

(** *** Orchestrator (lines 293-307) *)

Definition generate_alt_from_caption (caption_text : pystr) : M pystr :=
  try_except (refine_alt_text caption_text) (fun _ => ret caption_text).

(** *** [POST /alt] (lines 338-371) *)

Record UploadFile : Type := {
  filename : option pystr;
  content_type : option pystr;
  file_data : bytes
}.

(** A JSON object with string values, keys in insertion order. *)
Definition json : Type := list (string * pystr).

Definition keys (r : json) : list string := map fst r.

(** [not ct or not ct.startswith("image/")]. *)
Definition not_an_image (ct : option pystr) : bool :=
  match ct with
  | None => true
  | Some t => negb (truthy t) || negb (startswith t (py "image/"))
  end.

Definition file_must_be_an_image : exn :=
  HTTPException 400 (py "file must be an image").
Definition empty_file : exn := HTTPException 400 (py "empty file").

Definition alt_only (image : UploadFile) (raw debug include_caption : bool)
  : M json :=
  let image_data := file_data image in
  if not_an_image (content_type image) then raise file_must_be_an_image
  else
    match image_data with
    | [] => raise empty_file
    | _ :: _ =>
        caption_text <- infer_caption_from_data
                          image_data (filename image) (content_type image) ;;
        alt_text <- generate_alt_from_caption caption_text ;;
        if raw || debug then
          ret [("alt"%string, alt_text); ("raw"%string, alt_text)]
        else if include_caption then
          ret [("alt"%string, alt_text); ("caption"%string, caption_text)]
        else ret [("alt"%string, alt_text)]
    end.

End Program.

(** ** Two callers of a model-load operation *)

(** Both load operations follow one protocol (lines 53-57 and 83-87): test
    the globals, take the lock, test again, run the statements of the [try]
    block, release the lock.  A [loader] holds what differs between them. *)
Record loader : Type := {
  ld_ready : state -> bool;
  ld_steps : list (M unit);
  ld_failed : exn -> exn
}.

Definition blip_loader (cfg : config) (w : world) : loader :=
  {| ld_ready := blip_ready;
     ld_steps := [blip_load_processor cfg w; blip_load_weights cfg w;
                  blip_move_to_mps w; blip_eval w];
     ld_failed := blip_load_failed |}.

Definition alt_loader (cfg : config) (w : world) : loader :=
  {| ld_ready := alt_ready;
     ld_steps := [alt_load_tokenizer cfg w; alt_set_pad_token;
                  alt_load_weights cfg w; alt_eval w; alt_move_to_mps w];
     ld_failed := alt_load_failed |}.

Fixpoint seq_steps (steps : list (M unit)) : M unit :=
  match steps with
  | [] => ret tt
  | a :: rest => a ;; seq_steps rest
  end.

(** The protocol as one thread runs it. *)
Definition load (L : loader) : M unit :=
  ready <- gets (ld_ready L) ;;
  if ready : bool then ret tt
  else
    ready <- gets (ld_ready L) ;;
    if ready : bool then ret tt
    else try_except (seq_steps (ld_steps L))
                    (fun exc => raise (ld_failed L exc)).

(** Calls of [from_pretrained] recorded in the history. *)
Definition is_blip_processor_load (ev : event) : bool :=
  match ev with EvBlipProcessorFromPretrained _ => true | _ => false end.
Definition is_blip_model_load (ev : event) : bool :=
  match ev with EvBlipModelFromPretrained _ => true | _ => false end.
Definition is_tokenizer_load (ev : event) : bool :=
  match ev with EvAutoTokenizerFromPretrained _ => true | _ => false end.
Definition is_alt_model_load (ev : event) : bool :=
  match ev with EvAutoModelFromPretrained _ => true | _ => false end.

Definition count_events (f : event -> bool) (s : state) : nat :=
  List.length (filter f (events s)).

(** A statement that loads nothing: the handles that were set stay set and
    no [from_pretrained] call is added to the history. *)
Record quiet (s s' : state) : Prop := {
  q_blip_model : BLIP_MODEL s <> None -> BLIP_MODEL s' <> None;
  q_blip_processor : BLIP_PROCESSOR s <> None -> BLIP_PROCESSOR s' <> None;
  q_alt_model : ALT_MODEL s <> None -> ALT_MODEL s' <> None;
  q_alt_tokenizer : ALT_TOKENIZER s <> None -> ALT_TOKENIZER s' <> None;
  q_blip_model_loads :
    count_events is_blip_model_load s' = count_events is_blip_model_load s;
  q_blip_processor_loads :
    count_events is_blip_processor_load s' =
    count_events is_blip_processor_load s;
  q_alt_model_loads :
    count_events is_alt_model_load s' = count_events is_alt_model_load s;
  q_tokenizer_loads :
    count_events is_tokenizer_load s' = count_events is_tokenizer_load s
}.

(** The two models of the registry. *)
Inductive model : Type := Captioner | Refiner.

Definition load_model (k : model) (cfg : config) (w : world) : M unit :=
  match k with
  | Captioner => load_blip_model cfg w
  | Refiner => load_alt_refinement_model cfg w
  end.

Definition loader_of (k : model) (cfg : config) (w : world) : loader :=
  match k with
  | Captioner => blip_loader cfg w
  | Refiner => alt_loader cfg w
  end.

Definition ready (k : model) (s : state) : bool :=
  match k with
  | Captioner => blip_ready s
  | Refiner => alt_ready s
  end.

(** How often the weights of model [k], and its processor or tokenizer,
    have been loaded. *)
Definition model_loads (k : model) (s : state) : nat :=
  match k with
  | Captioner => count_events is_blip_model_load s
  | Refiner => count_events is_alt_model_load s
  end.

Definition helper_loads (k : model) (s : state) : nat :=
  match k with
  | Captioner => count_events is_blip_processor_load s
  | Refiner => count_events is_tokenizer_load s
  end.

(** A runtime in which loading a model never fails. *)
Record reliable (w : world) : Prop := {
  rel_blip_processor :
    forall name h, BlipProcessor_from_pretrained w name h = Returns tt;
  rel_blip_model :
    forall name h,
      BlipForConditionalGeneration_from_pretrained w name h = Returns tt;
  rel_tokenizer :
    forall name h, AutoTokenizer_from_pretrained w name h = Returns tt;
  rel_alt_model :
    forall name h, AutoModelForCausalLM_from_pretrained w name h = Returns tt;
  rel_mps : forall h, exists b, mps_is_available w h = Returns b;
  rel_to_mps : forall x h, module_to_mps w x h = Returns tt;
  rel_eval : forall x h, module_eval w x h = Returns tt
}.

Module Threads.

Inductive tid : Type := T1 | T2.

(** Where a caller stands in the load operation. *)
Inductive phase : Type :=
| AtFastCheck
| AtAcquire
| AtLockedCheck
| InBody (rest : list (M unit))
| Returned
| Raised (e : exn).

(** The globals, the holder of the lock, and the two callers. *)
Record machine : Type := {
  shared : state;
  lock : option tid;
  ph1 : phase;
  ph2 : phase
}.

Definition start (s : state) : machine :=
  {| shared := s; lock := None; ph1 := AtFastCheck; ph2 := AtFastCheck |}.

(** One atomic step of caller [me]; [None] when it is blocked on the lock
    or has finished.  Leaving the [with] block releases the lock, also when
    an exception leaves it.  The test of the two globals is one step: a
    global that is set is never reset to [None], so reading them one after
    the other sees nothing that reading them together does not. *)
Definition thread_step (L : loader) (me : tid)
    (s : state) (lk : option tid) (ph : phase)
  : option (state * option tid * phase) :=
  match ph with
  | AtFastCheck =>
      Some (s, lk, if ld_ready L s then Returned else AtAcquire)
  | AtAcquire =>
      match lk with
      | None => Some (s, Some me, AtLockedCheck)
      | Some _ => None
      end
  | AtLockedCheck =>
      if ld_ready L s then Some (s, None, Returned)
      else Some (s, lk, InBody (ld_steps L))
  | InBody [] => Some (s, None, Returned)
  | InBody (a :: rest) =>
      match a s with
      | (Returns _, s') => Some (s', lk, InBody rest)
      | (Raises e, s') => Some (s', None, Raised (ld_failed L e))
      end
  | Returned => None
  | Raised _ => None
  end.

Definition phase_of (t : tid) (m : machine) : phase :=
  match t with T1 => ph1 m | T2 => ph2 m end.

Definition advance (t : tid) (m : machine)
    (r : state * option tid * phase) : machine :=
  let '(s, lk, ph) := r in
  match t with
  | T1 => {| shared := s; lock := lk; ph1 := ph; ph2 := ph2 m |}
  | T2 => {| shared := s; lock := lk; ph1 := ph1 m; ph2 := ph |}
  end.

(** The scheduler picks a caller that can move. *)
Inductive step (L : loader) : machine -> machine -> Prop :=
| step_thread t m r :
    thread_step L t (shared m) (lock m) (phase_of t m) = Some r ->
    step L m (advance t m r).

Inductive steps (L : loader) : machine -> machine -> Prop :=
| steps_refl m : steps L m m
| steps_next m1 m2 m3 : steps L m1 m2 -> step L m2 m3 -> steps L m1 m3.

(** Running a given schedule; a turn given to a caller that cannot move
    is lost. *)
Fixpoint run (L : loader) (schedule : list tid) (m : machine) : machine :=
  match schedule with
  | [] => m
  | t :: schedule' =>
      match thread_step L t (shared m) (lock m) (phase_of t m) with
      | Some r => run L schedule' (advance t m r)
      | None => run L schedule' m
      end
  end.

Definition finished (ph : phase) : bool :=
  match ph with
  | Returned | Raised _ => true
  | _ => false
  end.

Definition in_critical (ph : phase) : bool :=
  match ph with
  | AtLockedCheck | InBody _ => true
  | _ => false
  end.

(** Steps a caller has still to take, at most. *)
Definition rank (L : loader) (ph : phase) : nat :=
  match ph with
  | AtFastCheck => List.length (ld_steps L) + 4
  | AtAcquire => List.length (ld_steps L) + 3
  | AtLockedCheck => List.length (ld_steps L) + 2
  | InBody rest => List.length rest + 1
  | Returned => 0
  | Raised _ => 0
  end.

Definition raised (ph : phase) : bool :=
  match ph with Raised _ => true | _ => false end.

Definition undecided (ph : phase) : bool :=
  match ph with
  | AtFastCheck | AtAcquire | AtLockedCheck => true
  | _ => false
  end.

Definition in_body (ph : phase) : bool :=
  match ph with InBody _ => true | _ => false end.

(** The lock is held by exactly the caller that is inside the [with]
    block. *)
Definition lock_ok (m : machine) : Prop :=
  forall t, in_critical (phase_of t m) = true <-> lock m = Some t.

(** If the statements still to run all succeed, the handles are set and
    the counted call has been made once more than [n] times. *)
Definition promise (L : loader) (count : state -> nat) (n : nat)
    (rest : list (M unit)) (s : state) : Prop :=
  forall s',
    seq_steps rest s = (Returns tt, s') ->
    ld_ready L s' = true /\ count s' = S n.

(** Where the load stands while no caller has raised: not begun, under
    way in one caller, or done. *)
Definition accounted (L : loader) (count : state -> nat) (n : nat)
    (m : machine) : Prop :=
  (ld_ready L (shared m) = false /\ count (shared m) = n /\
   undecided (ph1 m) = true /\ undecided (ph2 m) = true)
  \/ (exists t rest,
        phase_of t m = InBody rest /\ promise L count n rest (shared m))
  \/ (ld_ready L (shared m) = true /\ count (shared m) = S n /\
      in_body (ph1 m) = false /\ in_body (ph2 m) = false).

Definition invariant (L : loader) (count : state -> nat) (n : nat)
    (m : machine) : Prop :=
  lock_ok m /\
  (raised (ph1 m) || raised (ph2 m) = true \/ accounted L count n m).

(** No caller can move. *)
Definition stuck (L : loader) (m : machine) : Prop :=
  forall t, thread_step L t (shared m) (lock m) (phase_of t m) = None.

(** [k] turns in a row for caller [t]. *)
Fixpoint turns (t : tid) (k : nat) : list tid :=
  match k with
  | O => []
  | S k' => t :: turns t k'
  end.

(** The phase in which a call ends. *)
Definition outcome (r : result unit) : phase :=
  match r with
  | Returns _ => Returned
  | Raises e => Raised e
  end.

(** The statements still to run all succeed. *)
Definition on_track (rest : list (M unit)) (s : state) : Prop :=
  exists s', seq_steps rest s = (Returns tt, s').

(** No caller has raised, and the caller inside the [try] block will not. *)
Definition calm (m : machine) : Prop :=
  raised (ph1 m) = false /\ raised (ph2 m) = false /\
  forall t rest, phase_of t m = InBody rest -> on_track rest (shared m).

Definition total_rank (L : loader) (m : machine) : nat :=
  rank L (ph1 m) + rank L (ph2 m).

End Threads.

(** ** Vocabulary of the statements *)

Definition is_quote (c : N) : bool := (c =? dquote)%N || (c =? squote)%N.

(** [x] has a character that is neither of the two quote characters. *)
Definition has_non_quote (x : pystr) : bool :=
  existsb (fun c => negb (is_quote c)) x.

(** [s] neither starts nor ends with whitespace or a quote character. *)
Definition clean_ends (s : pystr) : bool :=
  match s with
  | [] => true
  | c :: _ =>
      negb (isspace c || is_quote c)
      && negb (isspace (last s c) || is_quote (last s c))
  end.

(** What the two quote-stripping calls of line 242 leave of a first and of a
    last word. *)
Definition strip_left (x : pystr) : pystr :=
  lstrip_by (N.eqb squote) (lstrip_by (N.eqb dquote) x).
Definition strip_right (x : pystr) : pystr :=
  rstrip_by (N.eqb squote) (rstrip_by (N.eqb dquote) x).

Definition one_if_any (x : pystr) : nat :=
  match x with [] => 0 | _ :: _ => 1 end.

(** Stripping surrounding quote characters and whitespace, as the words say
    it: every quote character and every whitespace character at either end
    goes, in whatever order they stand.  Line 242 of the source is
    [strip_quotes]; this is what it is compared with. *)
Definition strip_surrounding (s : pystr) : pystr :=
  strip_by (fun c => isspace c || is_quote c) s.

(** The states a call passes through, for stating concrete runs. *)
Definition after {A} (m : M A) (s : state) : state := snd (m s).

(** ** Test doubles *)

Module Doubles.

(** A runtime whose answers do not depend on the history: the model hub
    answers [hub] to every [from_pretrained], the image decoder answers
    [img], the captioner decodes to [caption] and the refiner to
    [generated]; there is no MPS device. *)
Definition scripted (hub : result unit) (img : result image)
    (caption generated : result pystr) : world :=
  {| BlipProcessor_from_pretrained := fun _ _ => hub;
     BlipForConditionalGeneration_from_pretrained := fun _ _ => hub;
     AutoTokenizer_from_pretrained := fun _ _ => hub;
     AutoModelForCausalLM_from_pretrained := fun _ _ => hub;
     mps_is_available := fun _ => Returns false;
     module_to_mps := fun _ _ => Returns tt;
     module_eval := fun _ _ => Returns tt;
     Image_open_convert := fun _ _ => img;
     blip_processor_call := fun _ _ _ =>
       Returns [("pixel_values"%string, [[0%Z]])];
     tensor_to_mps := fun t _ => Returns t;
     blip_generate := fun _ _ _ => Returns [[101%Z; 102%Z]];
     blip_decode := fun _ _ _ => caption;
     tokenizer_call := fun _ _ _ =>
       Returns [("input_ids"%string, [[1%Z; 2%Z; 3%Z]]);
                ("attention_mask"%string, [[1%Z; 1%Z; 1%Z]])];
     alt_generate := fun _ _ _ _ _ => Returns [[1%Z; 2%Z; 3%Z; 4%Z]];
     alt_decode := fun _ _ _ => generated |}.

Definition a_picture : image := [255%N; 0%N; 0%N].

(** Everything works. *)
Definition working (caption generated : pystr) : world :=
  scripted (Returns tt) (Returns a_picture) (Returns caption) (Returns generated).

(** The model hub cannot be reached. *)
Definition offline : world :=
  scripted (Raises (LibraryError (py "connection refused")))
           (Returns a_picture) (Returns (py "a cat")) (Returns (py "a cat")).

(** The models load, the image does not decode. *)
Definition bad_image : world :=
  scripted (Returns tt) (Raises (LibraryError (py "cannot identify image file")))
           (Returns (py "a cat")) (Returns (py "a cat")).

(** The models load, decoding the refiner's output fails. *)
Definition broken_refiner (caption : pystr) : world :=
  scripted (Returns tt) (Returns a_picture) (Returns caption)
           (Raises (LibraryError (py "out of memory"))).

Definition png : bytes := [Byte.x89; Byte.x50; Byte.x4e; Byte.x47].

Definition upload (ct : option pystr) (data : bytes) : UploadFile :=
  {| filename := Some (py "cat.png"); content_type := ct; file_data := data |}.

(** A caption, and three answers of the refiner to its prompt. *)
Definition cat_caption : pystr :=
  py "a cat sitting on a windowsill looking outside".

Definition answer (caption text : pystr) : pystr := prompt_of caption ++ text.

Definition long_answer : pystr :=
  py " A cute tabby cat sits on a sunny windowsill and looks outside today".
Definition quoted_long_answer : pystr :=
  py " ' a b c d e f g h i j k l".
Definition fitting_answer : pystr :=
  py " 'Cute tabby cat sitting on a sunny windowsill looking outside'".
Definition short_answer : pystr := py " A cat".

(** Eight words in double quotes inside single quotes, and seven words in
    single quotes inside double quotes with a space between the two. *)
Definition nested_quotes_answer : pystr :=
  py " '" ++ [dquote] ++ py "a b c d e f g h" ++ [dquote] ++ py "'".
Definition spaced_quotes_answer : pystr :=
  py " " ++ [dquote] ++ py " 'a b c d e f g' " ++ [dquote].

Definition quoted_caption : pystr := py "'sunset over the bay'".

(** An interleaving of two callers: both test the globals before either
    takes the lock, and the second waits while the first loads. *)
Definition interleaved : list Threads.tid :=
  [Threads.T1; Threads.T2; Threads.T1; Threads.T2; Threads.T1; Threads.T1;
   Threads.T1; Threads.T1; Threads.T1; Threads.T1; Threads.T2; Threads.T2;
   Threads.T2].

End Doubles.

(** ** The rest of [app.py] *)

(** *** Start-up (lines 113-121) *)

Definition startup (cfg : config) (w : world) : M unit :=
  try_except (load_blip_model cfg w ;; load_alt_refinement_model cfg w)
             (fun _ => ret tt).

(** *** [run_inference] (lines 176-195) *)

(** Lines 181-191, the same statements as lines 266-277. *)
Definition blip_describe (w : world) (img : image) : M pystr :=
  processor <- deref BLIP_PROCESSOR ;;
  inputs <- call EvBlipProcessorCall (blip_processor_call w processor img) ;;
  mps <- call EvMpsIsAvailable (mps_is_available w) ;;
  inputs <- (if mps : bool then move_to_mps w inputs else ret inputs) ;;
  model <- deref BLIP_MODEL ;;
  output <- call EvBlipGenerate (blip_generate w model inputs) ;;
  processor <- deref BLIP_PROCESSOR ;;
  row <- first output ;;
  call EvBlipDecode (blip_decode w processor row).

Definition run_inference (cfg : config) (w : world) (img : image) : M pystr :=
  load_blip_model cfg w ;;
  try_except (blip_describe w img) (fun _ => ret fallback_caption).

(** *** [clean_model_output] (lines 161-171) *)

Definition lt_sign : N := 60%N.
Definition gt_sign : N := 62%N.
Definition letter_s : N := 115%N.

Definition has_gt (s : pystr) : bool := existsb (N.eqb gt_sign) s.

(** [re.sub(r'<[^>]*>', '', text)]: a match starts at a [<] that has a [>]
    somewhere after it and ends at the first such [>]; [inside] tells that
    the scan is within a match. *)
Fixpoint remove_tags_go (inside : bool) (s : pystr) : pystr :=
  match s with
  | [] => []
  | c :: s' =>
      if inside then
        if (c =? gt_sign)%N then remove_tags_go false s'
        else remove_tags_go true s'
      else if (c =? lt_sign)%N && has_gt s' then remove_tags_go true s'
      else c :: remove_tags_go false s'
  end.

Definition remove_tags (s : pystr) : pystr := remove_tags_go false s.

(** [re.sub(r'^\s*s\s+', '', cleaned)]: at the start of the string only,
    whitespace, the letter s, and at least one whitespace character. *)
Definition remove_leading_s (s : pystr) : pystr :=
  match dropwhile isspace s with
  | c :: d :: rest =>
      if (c =? letter_s)%N && isspace d then dropwhile isspace rest else s
  | _ => s
  end.

Definition clean_model_output (text : pystr) : pystr :=
  if truthy text then
    or_else (strip (remove_leading_s (remove_tags text)))
            (py "unidentified image")
  else text.

(** Some [<] of [s] has a [>] after it. *)
Fixpoint has_tag (s : pystr) : bool :=
  match s with
  | [] => false
  | c :: s' => ((c =? lt_sign)%N && has_gt s') || has_tag s'
  end.

(** *** The legacy wrappers and [POST /caption] (lines 285-330) *)

Module Legacy.

(** An upload being read: [read()] gives the bytes from the position on
    and leaves the position at the end. *)
Record OpenUpload : Type := {
  upload : UploadFile;
  position : nat
}.

Definition opened (u : UploadFile) : OpenUpload :=
  {| upload := u; position := 0 |}.

Definition read (f : OpenUpload) : bytes * OpenUpload :=
  (skipn (position f) (file_data (upload f)),
   {| upload := upload f; position := List.length (file_data (upload f)) |}).

(** Lines 285-290. *)
Definition infer_caption (cfg : config) (w : world) (img : OpenUpload)
  : M (pystr * OpenUpload) :=
  let (data, img') := read img in
  caption_text <- infer_caption_from_data cfg w data
                    (filename (upload img)) (content_type (upload img)) ;;
  ret (caption_text, img').

(** Lines 310-314. *)
Definition generate_alt (cfg : config) (w : world) (img : OpenUpload)
  : M (pystr * OpenUpload) :=
  r <- infer_caption cfg w img ;;
  alt_text <- generate_alt_from_caption cfg w (fst r) ;;
  ret (alt_text, snd r).

Inductive jvalue : Type :=
| JStr (s : pystr)
| JInt (n : nat).

(** Lines 317-330. *)
Definition caption (cfg : config) (w : world) (img : OpenUpload)
    (include_caption : bool) : M (list (string * jvalue)) :=
  r <- generate_alt cfg w img ;;
  let response :=
    [("alt"%string, JStr (fst r)); ("words"%string, JInt (wc (fst r)))] in
  if include_caption then
    c <- infer_caption cfg w (snd r) ;;
    ret (response ++ [("caption"%string, JStr (fst c))])
  else ret response.

End Legacy.

(** *** Vocabulary of the further statements *)

Definition model_handle (k : model) (s : state) : option handle :=
  match k with
  | Captioner => BLIP_MODEL s
  | Refiner => ALT_MODEL s
  end.

Definition helper_handle (k : model) (s : state) : option handle :=
  match k with
  | Captioner => BLIP_PROCESSOR s
  | Refiner => ALT_TOKENIZER s
  end.

(** The part of the state that belongs to model [k] is the same in [s] and
    [s']: its two handles and the number of its [from_pretrained] calls. *)
Record untouched (k : model) (s s' : state) : Prop := {
  same_model : model_handle k s' = model_handle k s;
  same_helper : helper_handle k s' = helper_handle k s;
  same_model_loads : model_loads k s' = model_loads k s;
  same_helper_loads : helper_loads k s' = helper_loads k s
}.

(** Whatever its outcome, [m] leaves model [k] untouched. *)
Definition leaves {A} (k : model) (m : M A) : Prop :=
  forall s r s', m s = (r, s') -> untouched k s s'.

(** [ev] is a [from_pretrained] call for model [k]. *)
Definition loads_for (k : model) (ev : event) : bool :=
  match k with
  | Captioner => is_blip_model_load ev || is_blip_processor_load ev
  | Refiner => is_alt_model_load ev || is_tokenizer_load ev
  end.

Definition load_failed (k : model) : exn -> exn :=
  match k with
  | Captioner => blip_load_failed
  | Refiner => alt_load_failed
  end.

Definition other_model (k : model) : model :=
  match k with
  | Captioner => Refiner
  | Refiner => Captioner
  end.

(** The last character of [s] is not whitespace. *)
Fixpoint ends_nonspace (s : pystr) : bool :=
  match s with
  | [] => false
  | c :: s' =>
      match s' with
      | [] => negb (isspace c)
      | _ :: _ => ends_nonspace s'
      end
  end.

(** Whatever its outcome, [m] makes [dh] calls of the [from_pretrained] of
    the processor or tokenizer of model [k], and [dm] of the model's. *)
Definition adds {A} (k : model) (dh dm : nat) (m : M A) : Prop :=
  forall s r s',
    m s = (r, s') ->
    helper_loads k s' = helper_loads k s + dh /\
    model_loads k s' = model_loads k s + dm.

(** [ev] is a runtime call that the loader of model [k] makes after it has
    assigned the weights and that can stop it: for the captioner the MPS
    test, the move and [eval()] (lines 66-72), for the refiner [eval()]
    (line 95); a failure of the refiner's move is dropped on lines 104-105. *)
Definition finishing_call (k : model) (ev : event) : bool :=
  match k, ev with
  | Captioner, EvMpsIsAvailable => true
  | Captioner, EvModuleTo _ => true
  | _, EvModuleEval _ => true
  | _, _ => false
  end.

(** The last runtime call in the history of [s] is [ev]. *)
Definition last_call (s : state) (ev : event) : Prop :=
  exists history, events s = history ++ [ev].

(** Run in a state where model [k] is ready, [m] leaves it untouched. *)
Definition keeps {A} (k : model) (m : M A) : Prop :=
  forall s r s', ready k s = true -> m s = (r, s') -> untouched k s s'.

(** *** More test doubles *)

Module Faults.

(** A runtime in which the weights load but [eval()] fails. *)
Definition eval_fails : world :=
  {| BlipProcessor_from_pretrained := fun _ _ => Returns tt;
     BlipForConditionalGeneration_from_pretrained := fun _ _ => Returns tt;
     AutoTokenizer_from_pretrained := fun _ _ => Returns tt;
     AutoModelForCausalLM_from_pretrained := fun _ _ => Returns tt;
     mps_is_available := fun _ => Returns false;
     module_to_mps := fun _ _ => Returns tt;
     module_eval := fun _ _ => Raises (LibraryError (py "eval failed"));
     Image_open_convert := fun _ _ => Returns Doubles.a_picture;
     blip_processor_call := fun _ _ _ =>
       Returns [("pixel_values"%string, [[0%Z]])];
     tensor_to_mps := fun t _ => Returns t;
     blip_generate := fun _ _ _ => Returns [[101%Z; 102%Z]];
     blip_decode := fun _ _ _ => Returns Doubles.cat_caption;
     tokenizer_call := fun _ _ _ =>
       Returns [("input_ids"%string, [[1%Z; 2%Z; 3%Z]]);
                ("attention_mask"%string, [[1%Z; 1%Z; 1%Z]])];
     alt_generate := fun _ _ _ _ _ => Returns [[1%Z; 2%Z; 3%Z; 4%Z]];
     alt_decode := fun _ _ _ => Returns Doubles.cat_caption |}.

(** A runtime that works, with a decoder that takes a picture only from a
    body that is not empty. *)
Definition picky_decoder (caption_text generated : pystr) : world :=
  {| BlipProcessor_from_pretrained := fun _ _ => Returns tt;
     BlipForConditionalGeneration_from_pretrained := fun _ _ => Returns tt;
     AutoTokenizer_from_pretrained := fun _ _ => Returns tt;
     AutoModelForCausalLM_from_pretrained := fun _ _ => Returns tt;
     mps_is_available := fun _ => Returns true;
     module_to_mps := fun _ _ => Returns tt;
     module_eval := fun _ _ => Returns tt;
     Image_open_convert := fun data _ =>
       match data with
       | [] => Raises (LibraryError (py "cannot identify image file"))
       | _ :: _ => Returns Doubles.a_picture
       end;
     blip_processor_call := fun _ _ _ =>
       Returns [("pixel_values"%string, [[0%Z]])];
     tensor_to_mps := fun t _ => Returns t;
     blip_generate := fun _ _ _ => Returns [[101%Z; 102%Z]];
     blip_decode := fun _ _ _ => Returns caption_text;
     tokenizer_call := fun _ _ _ =>
       Returns [("input_ids"%string, [[1%Z; 2%Z; 3%Z]]);
                ("attention_mask"%string, [[1%Z; 1%Z; 1%Z]])];
     alt_generate := fun _ _ _ _ _ => Returns [[1%Z; 2%Z; 3%Z; 4%Z]];
     alt_decode := fun _ _ _ => Returns generated |}.

End Faults.

(** * Properties *)

(** ** Words of a string *)

Module Words.

(** *** The string methods on examples *)

Example split_example :
  split (py "  a cat " ++ [newline; 9%N] ++ py "sat ") =
  [py "a"; py "cat"; py "sat"].
Proof. reflexivity. Qed.

Example split_blank : split (py "   ") = [].
Proof. reflexivity. Qed.

Example join_example : join (py " ") [py "a"; py "cat"; py "sat"] = py "a cat sat".
Proof. reflexivity. Qed.

Example strip_example : strip ([9%N] ++ py " a cat  " ++ [newline]) = py "a cat".
Proof. reflexivity. Qed.

Example strip_char_example : strip_char squote (py "''it's'") = py "it's".
Proof. reflexivity. Qed.

Example split_last_example :
  split_last (py "Alt:") (py "Alt: one Alt: two") = py " two".
Proof. reflexivity. Qed.

Example split_last_absent : split_last (py "Alt:") (py "no marker") = py "no marker".
Proof. reflexivity. Qed.

Example replace_example : replace (py "ab") [] (py "xabyababz") = py "xyz".
Proof. reflexivity. Qed.

Example contains_example :
  contains (py "text Alt: more") (py "Alt:") = true /\
  contains (py "text Alt more") (py "Alt:") = false.
Proof. split; reflexivity. Qed.

Lemma split_starts_nonspace s :
  starts_nonspace s = true -> split s <> [].
Proof.
  destruct s as [|c s]; simpl; [discriminate|].
  intros H. apply negb_true_iff in H. rewrite H.
  destruct (starts_nonspace s); [destruct (split s)|]; discriminate.
Qed.

Lemma wc_cons c s :
  wc (c :: s) =
  if isspace c then wc s
  else if starts_nonspace s then wc s else S (wc s).
Proof.
  unfold wc. simpl. destruct (isspace c); [reflexivity|].
  destruct (starts_nonspace s) eqn:E; [|reflexivity].
  apply split_starts_nonspace in E.
  destruct (split s); [congruence|reflexivity].
Qed.

Lemma wc_nil : wc [] = 0.
Proof. reflexivity. Qed.

Lemma starts_nonspace_app a c b :
  isspace c = true ->
  starts_nonspace (a ++ c :: b) = starts_nonspace a.
Proof.
  intros Hc. destruct a; simpl; [now rewrite Hc|reflexivity].
Qed.

(** Words do not cross a whitespace character. *)
Lemma wc_app_space a c b :
  isspace c = true -> wc (a ++ c :: b) = wc a + wc b.
Proof.
  intros Hc. induction a as [|x a IH]; simpl.
  - rewrite wc_cons, Hc. reflexivity.
  - rewrite !wc_cons, starts_nonspace_app, IH by assumption.
    destruct (isspace x), (starts_nonspace a); reflexivity.
Qed.

Lemma wc_word x : word x -> wc x = 1.
Proof.
  intros [Hne Hall]. induction x as [|c x IH]; [congruence|].
  simpl in Hall. apply andb_true_iff in Hall as [Hc Hx].
  unfold nonspace in Hc. apply negb_true_iff in Hc.
  rewrite wc_cons, Hc. destruct x as [|d x]; [reflexivity|].
  simpl in Hx. apply andb_true_iff in Hx as [Hd Hx].
  simpl. unfold nonspace in Hd. rewrite Hd. apply IH; [discriminate|].
  simpl. unfold nonspace at 1. now rewrite Hd, Hx.
Qed.

Lemma wc_nonspace_le1 x : forallb nonspace x = true -> wc x <= 1.
Proof.
  intros H. destruct x as [|c x]; [rewrite wc_nil; lia|].
  rewrite wc_word; [lia|]. split; [discriminate|assumption].
Qed.

(** Every element of [s.split()] is a word. *)
Lemma split_words s : Forall word (split s).
Proof.
  induction s as [|c s IH]; simpl; [constructor|].
  destruct (isspace c) eqn:Hc; [assumption|].
  assert (Hn : nonspace c = true) by (unfold nonspace; now rewrite Hc).
  destruct (starts_nonspace s).
  - destruct (split s) as [|x xs].
    + constructor; [|constructor]. split; [discriminate|]. simpl. now rewrite Hn.
    + inversion IH as [|? ? [Hx1 Hx2] Hxs]; subst. constructor; [|assumption].
      split; [discriminate|]. simpl. now rewrite Hn, Hx2.
  - constructor; [|assumption]. split; [discriminate|]. simpl. now rewrite Hn.
Qed.

(** *** Stripping *)

Lemma dropwhile_snoc p y c :
  dropwhile p (y ++ [c]) =
  match dropwhile p y with
  | [] => if p c then [] else [c]
  | r => r ++ [c]
  end.
Proof.
  induction y as [|d y IH]; simpl; [reflexivity|].
  destruct (p d); [assumption|reflexivity].
Qed.

(** [rstrip_by] read from the left. *)
Lemma rstrip_by_cons p c s :
  rstrip_by p (c :: s) =
  match rstrip_by p s with
  | [] => if p c then [] else [c]
  | r => c :: r
  end.
Proof.
  unfold rstrip_by. simpl. rewrite dropwhile_snoc.
  destruct (dropwhile p (rev s)) as [|d r] eqn:E; simpl.
  - destruct (p c); reflexivity.
  - rewrite rev_app_distr. simpl.
    destruct (rev r ++ [d]) eqn:E'; [|reflexivity].
    destruct (rev r); discriminate.
Qed.

Lemma dropwhile_stop p c s : p c = false -> dropwhile p (c :: s) = c :: s.
Proof. intros H. simpl. now rewrite H. Qed.

Lemma dropwhile_app_stop p a c b :
  p c = false -> dropwhile p (a ++ c :: b) = dropwhile p a ++ c :: b.
Proof.
  intros Hc. induction a as [|x a IH]; simpl; [now rewrite Hc|].
  destruct (p x); [assumption|reflexivity].
Qed.

Lemma rstrip_by_app_stop p a c b :
  p c = false -> rstrip_by p (a ++ c :: b) = a ++ c :: rstrip_by p b.
Proof.
  intros Hc. induction a as [|x a IH]; simpl.
  - rewrite rstrip_by_cons. destruct (rstrip_by p b); [now rewrite Hc|reflexivity].
  - rewrite rstrip_by_cons, IH. destruct a; reflexivity.
Qed.

Lemma strip_by_app_stop p a c b :
  p c = false ->
  strip_by p (a ++ c :: b) = lstrip_by p a ++ c :: rstrip_by p b.
Proof.
  intros Hc. unfold strip_by, lstrip_by.
  rewrite dropwhile_app_stop, rstrip_by_app_stop by assumption. reflexivity.
Qed.

Lemma forallb_dropwhile q p s :
  forallb q s = true -> forallb q (dropwhile p s) = true.
Proof.
  induction s as [|c s IH]; simpl; [reflexivity|].
  intros H. destruct (p c); [|assumption].
  apply andb_true_iff in H as [_ H]. auto.
Qed.

Lemma forallb_rstrip_by q p s :
  forallb q s = true -> forallb q (rstrip_by p s) = true.
Proof.
  induction s as [|c s IH]; [reflexivity|].
  simpl. intros H. apply andb_true_iff in H as [Hc Hs].
  rewrite rstrip_by_cons. specialize (IH Hs).
  destruct (rstrip_by p s); [destruct (p c); simpl; now rewrite ?Hc|].
  simpl in *. now rewrite Hc, IH.
Qed.

Lemma dropwhile_keeps p c s :
  In c s -> p c = false -> In c (dropwhile p s).
Proof.
  induction s as [|d s IH]; simpl; [tauto|].
  intros [->|H] Hc; [rewrite Hc; now left|].
  destruct (p d); [auto|now right].
Qed.

Lemma rstrip_by_keeps p c s :
  In c s -> p c = false -> In c (rstrip_by p s).
Proof.
  intros H Hc. unfold rstrip_by. apply in_rev.
  rewrite rev_involutive. apply dropwhile_keeps; [now apply in_rev in H|assumption].
Qed.

(** *** Stripping and the number of words *)

Lemma wc_pos_starts s : starts_nonspace s = true -> 0 < wc s.
Proof.
  intros H. apply split_starts_nonspace in H. unfold wc.
  destruct (split s); [congruence|simpl; lia].
Qed.

Lemma rstrip_by_head p s d r :
  rstrip_by p s = d :: r -> exists s', s = d :: s'.
Proof.
  destruct s as [|c s]; [discriminate|].
  rewrite rstrip_by_cons.
  destruct (rstrip_by p s); [destruct (p c)|]; intros H; inversion H; eauto.
Qed.

Lemma rstrip_by_starts p s d r :
  rstrip_by p s = d :: r -> starts_nonspace (d :: r) = starts_nonspace s.
Proof.
  intros H. apply rstrip_by_head in H as [s' ->]. reflexivity.
Qed.

Lemma rstrip_by_nil_all p s : rstrip_by p s = [] -> forallb p s = true.
Proof.
  induction s as [|c s IH]; [reflexivity|].
  rewrite rstrip_by_cons.
  destruct (rstrip_by p s); [|discriminate].
  destruct (p c) eqn:Hc; [|discriminate]. intros _. simpl. now rewrite Hc, IH.
Qed.

Section NonSpaceStrip.

Variable p : N -> bool.
Hypothesis p_nonspace : forall c, p c = true -> isspace c = false.

Lemma dropwhile_not_starting s :
  starts_nonspace s = false -> dropwhile p s = s.
Proof.
  destruct s as [|c s]; simpl; [reflexivity|].
  intros H. apply negb_false_iff in H.
  destruct (p c) eqn:Hc; [|reflexivity].
  apply p_nonspace in Hc. congruence.
Qed.

(** Stripping characters that are not whitespace from the left removes at
    most the first word. *)
Lemma wc_lstrip_by s :
  wc (lstrip_by p s) <= wc s <= S (wc (lstrip_by p s)).
Proof.
  unfold lstrip_by. induction s as [|c s IH]; simpl; [rewrite wc_nil; lia|].
  destruct (p c) eqn:Hc; [|lia].
  rewrite wc_cons, (p_nonspace _ Hc).
  destruct (starts_nonspace s) eqn:E; [assumption|].
  rewrite dropwhile_not_starting by assumption. lia.
Qed.

Lemma forallb_p_nonspace s : forallb p s = true -> forallb nonspace s = true.
Proof.
  induction s as [|c s IH]; simpl; [reflexivity|].
  intros H. apply andb_true_iff in H as [Hc Hs].
  unfold nonspace at 1. now rewrite (p_nonspace _ Hc), IH.
Qed.

(** ... and from the right, at most the last word. *)
Lemma wc_rstrip_by s :
  wc (rstrip_by p s) <= wc s <= S (wc (rstrip_by p s)).
Proof.
  induction s as [|c s IH]; [cbv; lia|].
  rewrite rstrip_by_cons.
  destruct (rstrip_by p s) as [|d r] eqn:E.
  - apply rstrip_by_nil_all, forallb_p_nonspace in E.
    destruct (p c) eqn:Hc.
    + rewrite wc_nil. rewrite wc_word; [lia|]. split; [discriminate|].
      simpl. unfold nonspace at 1. now rewrite (p_nonspace _ Hc), E.
    + pose proof (wc_nonspace_le1 _ E) as Hle.
      rewrite !wc_cons. simpl. rewrite wc_nil.
      destruct (isspace c), (starts_nonspace s) eqn:Es;
        try apply wc_pos_starts in Es; lia.
  - rewrite (wc_cons c (d :: r)), (wc_cons c s), (rstrip_by_starts _ _ _ _ E).
    destruct (isspace c), (starts_nonspace s); lia.
Qed.

Lemma wc_strip_by s :
  wc (strip_by p s) <= wc s <= S (S (wc (strip_by p s))).
Proof.
  unfold strip_by. pose proof (wc_lstrip_by s).
  pose proof (wc_rstrip_by (lstrip_by p s)). lia.
Qed.

End NonSpaceStrip.

(** [s.strip()] keeps the words of [s]. *)
Lemma wc_lstrip_space s : wc (lstrip_by isspace s) = wc s.
Proof.
  unfold lstrip_by. induction s as [|c s IH]; simpl; [reflexivity|].
  destruct (isspace c) eqn:Hc; [|reflexivity].
  now rewrite wc_cons, Hc.
Qed.

Lemma wc_rstrip_space s : wc (rstrip_by isspace s) = wc s.
Proof.
  induction s as [|c s IH]; [reflexivity|].
  rewrite rstrip_by_cons.
  destruct (rstrip_by isspace s) as [|d r] eqn:E.
  - rewrite wc_nil in IH. rewrite wc_cons.
    destruct (isspace c) eqn:Hc; [now rewrite wc_nil|].
    rewrite wc_cons, Hc, wc_nil. simpl.
    destruct (starts_nonspace s) eqn:Es; [|lia].
    apply wc_pos_starts in Es. lia.
  - rewrite (wc_cons c (d :: r)), (wc_cons c s), (rstrip_by_starts _ _ _ _ E), IH.
    reflexivity.
Qed.

Lemma wc_strip s : wc (strip s) = wc s.
Proof.
  unfold strip, strip_by. now rewrite wc_rstrip_space, wc_lstrip_space.
Qed.

(** A string whose ends are not stripped is left as it is. *)
Lemma rstrip_by_last p s c :
  p (last s c) = false -> s <> [] -> rstrip_by p s = s.
Proof.
  induction s as [|d s IH]; [congruence|]. intros Hl _.
  rewrite rstrip_by_cons. destruct s as [|e s].
  - simpl in *. now rewrite Hl.
  - rewrite IH; [reflexivity| |discriminate]. exact Hl.
Qed.

Lemma strip_by_clean p c s :
  p c = false -> p (last (c :: s) c) = false -> strip_by p (c :: s) = c :: s.
Proof.
  intros Hc Hl. unfold strip_by, lstrip_by.
  rewrite dropwhile_stop by assumption.
  apply rstrip_by_last with (c := c); [assumption|discriminate].
Qed.

(** *** What stripping removes and what it leaves *)

Lemma dropwhile_head p s c r : dropwhile p s = c :: r -> p c = false.
Proof.
  induction s as [|d s IH]; [discriminate|]. simpl.
  destruct (p d) eqn:Hd; [exact IH|]. intros H. inversion H; subst. exact Hd.
Qed.

Lemma rstrip_by_last_stops p s d :
  rstrip_by p s <> [] -> p (last (rstrip_by p s) d) = false.
Proof.
  induction s as [|c s IH]; [intros H; now contradiction H|].
  rewrite rstrip_by_cons. destruct (rstrip_by p s) as [|e r].
  - destruct (p c) eqn:Hc; [intros H; now contradiction H|]. intros _. exact Hc.
  - intros _. change (last (c :: e :: r) d) with (last (e :: r) d).
    apply IH. discriminate.
Qed.

(** What [strip_by] returns neither starts nor ends with a character it
    strips. *)
Lemma strip_by_ends p s c r :
  strip_by p s = c :: r -> p c = false /\ p (last (c :: r) c) = false.
Proof.
  unfold strip_by, lstrip_by. intros H. split.
  - destruct (rstrip_by_head _ _ _ _ H) as [s' Hs]. now apply dropwhile_head in Hs.
  - rewrite <- H. apply rstrip_by_last_stops. rewrite H. discriminate.
Qed.

Lemma dropwhile_split p s :
  exists a, s = a ++ dropwhile p s /\ forallb p a = true.
Proof.
  induction s as [|c s [a [Hs Ha]]]; [now exists []|]. simpl.
  destruct (p c) eqn:Hc; [|now exists []].
  exists (c :: a). split; [simpl; now f_equal|simpl; now rewrite Hc].
Qed.

Lemma rstrip_by_split p s :
  exists b, s = rstrip_by p s ++ b /\ forallb p b = true.
Proof.
  induction s as [|c s [b [Hs Hb]]]; [now exists []|].
  rewrite rstrip_by_cons. destruct (rstrip_by p s) as [|d r].
  - simpl in Hs. subst b. destruct (p c) eqn:Hc.
    + exists (c :: s). split; [reflexivity|]. simpl. now rewrite Hc.
    + exists s. now split.
  - exists b. split; [simpl; now f_equal|assumption].
Qed.

(** [strip_by] removes a run of stripped characters at each end. *)
Lemma strip_by_split p s :
  exists a b,
    s = a ++ strip_by p s ++ b /\ forallb p a = true /\ forallb p b = true.
Proof.
  unfold strip_by, lstrip_by.
  destruct (dropwhile_split p s) as [a [Hs Ha]].
  destruct (rstrip_by_split p (dropwhile p s)) as [b [Hd Hb]].
  exists a, b. split; [|now split]. now rewrite <- Hd.
Qed.

Lemma forallb_weaken (p q : N -> bool) s :
  (forall c, q c = true -> p c = true) ->
  forallb q s = true -> forallb p s = true.
Proof.
  intros Hqp. induction s as [|c s IH]; simpl; [reflexivity|].
  intros H. apply andb_true_iff in H as [Hc Hs]. now rewrite (Hqp _ Hc), IH.
Qed.

Lemma dropwhile_all_app p a s :
  forallb p a = true -> dropwhile p (a ++ s) = dropwhile p s.
Proof.
  induction a as [|c a IH]; simpl; [reflexivity|].
  intros H. apply andb_true_iff in H as [Hc Ha]. rewrite Hc. auto.
Qed.

Lemma rstrip_by_all p b : forallb p b = true -> rstrip_by p b = [].
Proof.
  induction b as [|c b IH]; [reflexivity|]. simpl.
  intros H. apply andb_true_iff in H as [Hc Hb].
  now rewrite rstrip_by_cons, IH, Hc.
Qed.

Lemma rstrip_by_app_all p u b :
  forallb p b = true -> rstrip_by p (u ++ b) = rstrip_by p u.
Proof.
  intros Hb. induction u as [|c u IH]; simpl.
  - now apply rstrip_by_all.
  - now rewrite !rstrip_by_cons, IH.
Qed.

Lemma dropwhile_app_all p u b :
  forallb p b = true ->
  exists b', dropwhile p (u ++ b) = dropwhile p u ++ b' /\ forallb p b' = true.
Proof.
  intros Hb. induction u as [|c u IH]; simpl.
  - exists (dropwhile p b). split; [reflexivity|now apply forallb_dropwhile].
  - destruct (p c); [exact IH|]. now exists b.
Qed.

(** Stripped characters added at the ends are stripped again. *)
Lemma strip_by_inside p a u b :
  forallb p a = true -> forallb p b = true ->
  strip_by p (a ++ u ++ b) = strip_by p u.
Proof.
  intros Ha Hb. unfold strip_by, lstrip_by.
  rewrite dropwhile_all_app by assumption.
  destruct (dropwhile_app_all p u b Hb) as [b' [-> Hb']].
  now apply rstrip_by_app_all.
Qed.

(** Stripping fewer characters first changes nothing. *)
Lemma strip_by_absorbs p q s :
  (forall c, q c = true -> p c = true) ->
  strip_by p (strip_by q s) = strip_by p s.
Proof.
  intros Hqp. destruct (strip_by_split q s) as [a [b [Hs [Ha Hb]]]].
  transitivity (strip_by p (a ++ strip_by q s ++ b)); [|now rewrite <- Hs].
  symmetry. apply strip_by_inside; eapply forallb_weaken; eassumption.
Qed.

End Words.

(** ** Refinement stage *)

Module Refinement.

Import Words.

Lemma py_space : py " " = [space].
Proof. reflexivity. Qed.

Lemma join_cons sep x y l :
  join sep (x :: y :: l) = x ++ sep ++ join sep (y :: l).
Proof. reflexivity. Qed.

Lemma join_snoc sep l x :
  l <> [] -> join sep (l ++ [x]) = join sep l ++ sep ++ x.
Proof.
  induction l as [|y l IH]; [congruence|]. intros _.
  destruct l as [|z l]; [reflexivity|].
  change ((y :: z :: l) ++ [x]) with (y :: z :: (l ++ [x])).
  rewrite !join_cons. change (z :: l ++ [x]) with ((z :: l) ++ [x]).
  rewrite IH by discriminate. now rewrite <- !app_assoc.
Qed.

Lemma join_space_cons x y l :
  join [space] (x :: y :: l) = x ++ space :: join [space] (y :: l).
Proof. reflexivity. Qed.

Lemma join_space_snoc l x :
  l <> [] -> join [space] (l ++ [x]) = join [space] l ++ space :: x.
Proof. intros H. now rewrite join_snoc. Qed.

(** Joining words by single spaces gives back as many words. *)
Lemma wc_join_words l :
  Forall word l -> wc (join [space] l) = List.length l.
Proof.
  induction 1 as [|x l Hx Hl IH]; [reflexivity|].
  destruct l as [|y l]; [now apply wc_word|].
  rewrite join_space_cons, wc_app_space by reflexivity.
  rewrite IH, (wc_word x Hx). reflexivity.
Qed.

Lemma wc_part_of_word x :
  forallb nonspace x = true -> wc x = one_if_any x.
Proof.
  destruct x as [|c x]; [reflexivity|]. intros H.
  apply wc_word. split; [discriminate|assumption].
Qed.

Lemma wc_strip_left x : word x -> wc (strip_left x) = one_if_any (strip_left x).
Proof.
  intros [_ H]. apply wc_part_of_word. unfold strip_left, lstrip_by.
  now do 2 apply forallb_dropwhile.
Qed.

Lemma wc_strip_right x :
  word x -> wc (strip_right x) = one_if_any (strip_right x).
Proof.
  intros [_ H]. apply wc_part_of_word. unfold strip_right.
  now do 2 apply forallb_rstrip_by.
Qed.

(** What line 242 does to words joined by single spaces: only the first and
    the last word can lose characters. *)
Lemma strip_quotes_join x mid y :
  mid <> [] ->
  strip_char squote (strip_char dquote (join [space] (x :: mid ++ [y]))) =
  strip_left x ++ space :: join [space] mid ++ space :: strip_right y.
Proof.
  intros Hmid.
  destruct mid as [|z mid]; [congruence|].
  change (x :: (z :: mid) ++ [y]) with (x :: z :: (mid ++ [y])).
  rewrite join_space_cons. change (z :: mid ++ [y]) with ((z :: mid) ++ [y]).
  rewrite join_space_snoc by discriminate.
  unfold strip_char.
  rewrite strip_by_app_stop by reflexivity.
  rewrite rstrip_by_app_stop by reflexivity.
  rewrite strip_by_app_stop by reflexivity.
  rewrite rstrip_by_app_stop by reflexivity.
  reflexivity.
Qed.

Lemma wc_strip_quotes_join x mid y :
  word x -> Forall word mid -> mid <> [] -> word y ->
  wc (strip_quotes (join [space] (x :: mid ++ [y]))) =
  one_if_any (strip_left x) + List.length mid + one_if_any (strip_right y).
Proof.
  intros Hx Hmid Hne Hy. unfold strip_quotes.
  rewrite wc_strip, strip_quotes_join by assumption.
  rewrite wc_app_space by reflexivity.
  rewrite wc_app_space by reflexivity.
  rewrite wc_join_words, wc_strip_left, wc_strip_right by assumption. lia.
Qed.

Lemma has_non_quote_witness x :
  has_non_quote x = true ->
  exists c, In c x /\ N.eqb dquote c = false /\ N.eqb squote c = false.
Proof.
  unfold has_non_quote. intros H. apply existsb_exists in H as [c [Hin Hc]].
  exists c. split; [assumption|].
  unfold is_quote in Hc. apply negb_true_iff, orb_false_iff in Hc as [H1 H2].
  rewrite N.eqb_sym in H1. rewrite N.eqb_sym in H2. now split.
Qed.

Lemma strip_left_keeps x :
  has_non_quote x = true -> one_if_any (strip_left x) = 1.
Proof.
  intros H. apply has_non_quote_witness in H as [c [Hin [Hd Hs]]].
  assert (Hc : In c (strip_left x)).
  { unfold strip_left, lstrip_by. now do 2 (apply dropwhile_keeps; [|assumption]). }
  destruct (strip_left x); [destruct Hc|reflexivity].
Qed.

Lemma strip_right_keeps x :
  has_non_quote x = true -> one_if_any (strip_right x) = 1.
Proof.
  intros H. apply has_non_quote_witness in H as [c [Hin [Hd Hs]]].
  assert (Hc : In c (strip_right x)).
  { unfold strip_right. now do 2 (apply rstrip_by_keeps; [|assumption]). }
  destruct (strip_right x); [destruct Hc|reflexivity].
Qed.

Lemma one_if_any_le x : one_if_any x <= 1.
Proof. destruct x; simpl; lia. Qed.

Lemma wc_pos_nonempty s : 0 < wc s -> s <> [].
Proof. intros H ->. rewrite wc_nil in H. lia. Qed.

Lemma or_else_nonempty a b : a <> [] -> or_else a b = a.
Proof. destruct a; [congruence|reflexivity]. Qed.

(** The quote characters are not whitespace. *)
Lemma eqb_dquote_nonspace c : N.eqb dquote c = true -> isspace c = false.
Proof. intros H. apply N.eqb_eq in H. now subst. Qed.

Lemma eqb_squote_nonspace c : N.eqb squote c = true -> isspace c = false.
Proof. intros H. apply N.eqb_eq in H. now subst. Qed.

(** Line 242 removes at most four words. *)
Lemma wc_strip_quotes s : wc s <= wc (strip_quotes s) + 4.
Proof.
  unfold strip_quotes, strip_char. rewrite wc_strip.
  pose proof (wc_strip_by _ eqb_dquote_nonspace s).
  pose proof (wc_strip_by _ eqb_squote_nonspace
                (strip_by (N.eqb dquote) s)). lia.
Qed.

Lemma strip_quotes_clean s : clean_ends s = true -> strip_quotes s = s.
Proof.
  destruct s as [|c s]; [reflexivity|]. unfold clean_ends.
  intros H. apply andb_true_iff in H as [H1 H2].
  apply negb_true_iff, orb_false_iff in H1 as [Hsp Hq].
  apply negb_true_iff, orb_false_iff in H2 as [Hspl Hql].
  unfold is_quote in Hq, Hql.
  apply orb_false_iff in Hq as [Hd Hs]. apply orb_false_iff in Hql as [Hdl Hsl].
  unfold strip_quotes, strip_char, strip.
  rewrite !strip_by_clean; try reflexivity; try assumption;
    rewrite N.eqb_sym; assumption.
Qed.

Section Generated.

Variables (cfg : config) (w : world).
Variables (caption_text generated_text : pystr) (s s1 s2 : state).

Hypothesis loaded : load_alt_refinement_model cfg w s = (Returns tt, s1).
Hypothesis generated :
  alt_generation cfg w caption_text s1 = (Returns generated_text, s2).

(** When the model answers, the result is the shaped answer. *)
Lemma refine_alt_text_generated :
  refine_alt_text cfg w caption_text s =
  (Returns (shape_alt_text caption_text
              (extract_alt (prompt_of caption_text) generated_text)), s2).
Proof.
  unfold refine_alt_text, bind, try_except.
  rewrite loaded, generated. reflexivity.
Qed.

End Generated.

(** C1 (amended).  When the lazy load of the refinement model succeeds,
    [refine_alt_text] returns a string; if tokenizing, generating or
    decoding raises, the exception is caught and the result is the first 10
    whitespace-delimited words of the caption joined by single spaces, or
    the caption itself if it has no words. *)
Theorem refine_alt_text_catches cfg w caption_text s s1 :
  load_alt_refinement_model cfg w s = (Returns tt, s1) ->
  (exists out s2, refine_alt_text cfg w caption_text s = (Returns out, s2)) /\
  (forall e s2,
     alt_generation cfg w caption_text s1 = (Raises e, s2) ->
     refine_alt_text cfg w caption_text s =
     (Returns (if wc caption_text =? 0 then caption_text
               else join (py " ") (firstn 10 (split caption_text))), s2)).
Proof.
  intros Hload. unfold refine_alt_text, bind, try_except, ret.
  rewrite Hload. split.
  - destruct (alt_generation cfg w caption_text s1) as [[g|e] s2]; eauto.
  - intros e s2 ->. unfold refinement_fallback, wc.
    destruct (split caption_text); reflexivity.
Qed.

Lemma refine_alt_text_catches_witness :
  refine_alt_text default_config (Doubles.broken_refiner Doubles.cat_caption)
    (py "  one two three four five six seven eight nine ten eleven")
    initial_state =
  (Returns (py "one two three four five six seven eight nine ten"),
   after (refine_alt_text default_config
            (Doubles.broken_refiner Doubles.cat_caption)
            (py "  one two three four five six seven eight nine ten eleven"))
         initial_state).
Proof.
  refine (proj2 (refine_alt_text_catches default_config
                   (Doubles.broken_refiner Doubles.cat_caption) _
                   initial_state _ _)
                (LibraryError (py "out of memory")) _ _);
    vm_compute; reflexivity.
Defined.

(** An exception raised by the load itself is not caught: the call of
    [load_alt_refinement_model] stands before the [try] block. *)
Lemma refine_alt_text_load_failure cfg w caption_text s e s1 :
  load_alt_refinement_model cfg w s = (Raises e, s1) ->
  refine_alt_text cfg w caption_text s = (Raises e, s1).
Proof.
  intros Hload. unfold refine_alt_text, bind. now rewrite Hload.
Qed.

(** C1, as stated, fails: with the model hub out of reach the call raises. *)
Lemma refine_alt_text_raises_offline :
  fst (refine_alt_text default_config Doubles.offline Doubles.cat_caption
         initial_state) =
  Raises (RuntimeError
            (py "alt refinement model load failed: connection refused")).
Proof. vm_compute. reflexivity. Qed.

(** C2 (amended).  When the text extracted from the generation has more
    than 12 words, the result is its first 10 words joined by single spaces
    and then stripped as in line 242.  It has between 8 and 10 words, and
    exactly 10 when the first and the tenth word each have a character that
    is not a quote character. *)
Theorem refine_alt_text_over_budget
    cfg w caption_text generated_text s s1 s2 :
  load_alt_refinement_model cfg w s = (Returns tt, s1) ->
  alt_generation cfg w caption_text s1 = (Returns generated_text, s2) ->
  12 < wc (extract_alt (prompt_of caption_text) generated_text) ->
  exists out,
    refine_alt_text cfg w caption_text s = (Returns out, s2) /\
    out = strip_quotes
            (join (py " ")
               (firstn 10
                  (split (extract_alt (prompt_of caption_text)
                            generated_text)))) /\
    8 <= wc out <= 10 /\
    (has_non_quote
       (nth 0 (split (extract_alt (prompt_of caption_text) generated_text))
            []) = true ->
     has_non_quote
       (nth 9 (split (extract_alt (prompt_of caption_text) generated_text))
            []) = true ->
     wc out = 10).
Proof.
  intros Hload Hgen Hwc.
  rewrite (refine_alt_text_generated _ _ _ _ _ _ _ Hload Hgen).
  unfold shape_alt_text, budget_words, wc in *.
  pose proof (split_words (extract_alt (prompt_of caption_text)
                             generated_text)) as Hws.
  destruct (split (extract_alt (prompt_of caption_text) generated_text))
    as [|x0 ws]; [simpl in Hwc; lia|].
  do 9 (destruct ws as [|? ws]; [simpl in Hwc; lia|]).
  apply Nat.ltb_lt in Hwc as Hlt. rewrite Hlt. clear Hlt Hwc.
  repeat match goal with
         | H : Forall word (_ :: _) |- _ =>
             let Hx := fresh "Hw" in
             let Hl := fresh "Hl" in
             apply Forall_cons_iff in H as [Hx Hl]
         end.
  rewrite py_space.
  match goal with
  | |- context [firstn 10 (?a :: ?b :: ?c :: ?d :: ?e :: ?f :: ?g :: ?h
                             :: ?i :: ?j :: _)] =>
      change (firstn 10 (a :: b :: c :: d :: e :: f :: g :: h :: i :: j :: ws))
        with (a :: [b; c; d; e; f; g; h; i] ++ [j]);
      assert (Hn : wc (strip_quotes
                         (join [space] (a :: [b; c; d; e; f; g; h; i] ++ [j])))
                   = one_if_any (strip_left a) + 8 + one_if_any (strip_right j))
        by (apply wc_strip_quotes_join;
            [assumption
            |repeat (apply Forall_cons; [assumption|]); apply Forall_nil
            |discriminate|assumption]);
      pose proof (one_if_any_le (strip_left a));
      pose proof (one_if_any_le (strip_right j))
  end.
  eexists. split; [|split; [reflexivity|]].
  - rewrite or_else_nonempty; [reflexivity|].
    apply wc_pos_nonempty. unfold wc in *. lia.
  - fold (wc (strip_quotes
               (join [space] (x0 :: [p; p0; p1; p2; p3; p4; p5; p6] ++ [p7])))).
    split; [lia|]. simpl nth. intros Hfirst Htenth.
    rewrite Hn, (strip_left_keeps _ Hfirst), (strip_right_keeps _ Htenth).
    reflexivity.
Qed.

Lemma refine_alt_text_over_budget_witness :
  exists out,
    refine_alt_text default_config
      (Doubles.working Doubles.cat_caption
         (Doubles.answer Doubles.cat_caption Doubles.long_answer))
      Doubles.cat_caption initial_state =
    (Returns out,
     after (refine_alt_text default_config
              (Doubles.working Doubles.cat_caption
                 (Doubles.answer Doubles.cat_caption Doubles.long_answer))
              Doubles.cat_caption) initial_state) /\
    out = py "A cute tabby cat sits on a sunny windowsill and" /\
    wc out = 10.
Proof.
  destruct (refine_alt_text_over_budget default_config
              (Doubles.working Doubles.cat_caption
                 (Doubles.answer Doubles.cat_caption Doubles.long_answer))
              Doubles.cat_caption
              (Doubles.answer Doubles.cat_caption Doubles.long_answer)
              initial_state
              (after (load_alt_refinement_model default_config
                        (Doubles.working Doubles.cat_caption
                           (Doubles.answer Doubles.cat_caption
                              Doubles.long_answer))) initial_state)
              (after (refine_alt_text default_config
                        (Doubles.working Doubles.cat_caption
                           (Doubles.answer Doubles.cat_caption
                              Doubles.long_answer))
                        Doubles.cat_caption) initial_state))
    as [out [Hrun [Hout [_ Hten]]]].
  - vm_compute. reflexivity.
  - vm_compute. reflexivity.
  - vm_compute. lia.
  - exists out. split; [exact Hrun|]. split.
    + rewrite Hout. vm_compute. reflexivity.
    + apply Hten; vm_compute; reflexivity.
Defined.

(** C2, as stated, fails: a generation of 13 words whose first word is a
    lone quote character gives a result of 9 words. *)
Lemma refine_alt_text_over_budget_nine_words :
  wc (extract_alt (prompt_of Doubles.cat_caption)
        (Doubles.answer Doubles.cat_caption Doubles.quoted_long_answer)) = 13
  /\ fst (refine_alt_text default_config
            (Doubles.working Doubles.cat_caption
               (Doubles.answer Doubles.cat_caption Doubles.quoted_long_answer))
            Doubles.cat_caption initial_state) =
     Returns (py "a b c d e f g h i")
  /\ wc (py "a b c d e f g h i") = 9.
Proof. vm_compute. repeat split; reflexivity. Qed.

(** C3 (amended).  When the text extracted from the generation has fewer
    than 8 words (or none), the result is the caption stripped as in line
    242, or the caption itself if nothing is left of it; it equals the
    caption whenever the caption neither starts nor ends with whitespace or
    a quote character. *)
Theorem refine_alt_text_under_budget
    cfg w caption_text generated_text s s1 s2 :
  load_alt_refinement_model cfg w s = (Returns tt, s1) ->
  alt_generation cfg w caption_text s1 = (Returns generated_text, s2) ->
  wc (extract_alt (prompt_of caption_text) generated_text) < 8 ->
  exists out,
    refine_alt_text cfg w caption_text s = (Returns out, s2) /\
    (strip_quotes caption_text <> [] -> out = strip_quotes caption_text) /\
    (strip_quotes caption_text = [] -> out = caption_text) /\
    (clean_ends caption_text = true -> out = caption_text).
Proof.
  intros Hload Hgen Hwc.
  rewrite (refine_alt_text_generated _ _ _ _ _ _ _ Hload Hgen).
  unfold shape_alt_text, budget_words. fold (wc (extract_alt (prompt_of caption_text) generated_text)).
  assert (H12 : (12 <? wc (extract_alt (prompt_of caption_text) generated_text))
                = false) by (apply Nat.ltb_ge; lia).
  apply Nat.ltb_lt in Hwc. rewrite H12, Hwc.
  eexists. split; [reflexivity|]. repeat split.
  - apply or_else_nonempty.
  - intros ->. reflexivity.
  - intros Hclean. rewrite (strip_quotes_clean _ Hclean).
    destruct caption_text; reflexivity.
Qed.

Lemma refine_alt_text_under_budget_witness :
  refine_alt_text default_config
    (Doubles.working Doubles.cat_caption
       (Doubles.answer Doubles.cat_caption Doubles.short_answer))
    Doubles.cat_caption initial_state =
  (Returns Doubles.cat_caption,
   after (refine_alt_text default_config
            (Doubles.working Doubles.cat_caption
               (Doubles.answer Doubles.cat_caption Doubles.short_answer))
            Doubles.cat_caption) initial_state).
Proof.
  destruct (refine_alt_text_under_budget default_config
              (Doubles.working Doubles.cat_caption
                 (Doubles.answer Doubles.cat_caption Doubles.short_answer))
              Doubles.cat_caption
              (Doubles.answer Doubles.cat_caption Doubles.short_answer)
              initial_state
              (after (load_alt_refinement_model default_config
                        (Doubles.working Doubles.cat_caption
                           (Doubles.answer Doubles.cat_caption
                              Doubles.short_answer))) initial_state)
              (after (refine_alt_text default_config
                        (Doubles.working Doubles.cat_caption
                           (Doubles.answer Doubles.cat_caption
                              Doubles.short_answer))
                        Doubles.cat_caption) initial_state))
    as [out [Hrun [_ [_ Hsame]]]].
  - vm_compute. reflexivity.
  - vm_compute. reflexivity.
  - vm_compute. lia.
  - rewrite Hrun, Hsame; reflexivity.
Defined.

(** C3, as stated, fails: a caption in quotes comes back without them. *)
Lemma refine_alt_text_under_budget_strips_caption :
  wc (extract_alt (prompt_of Doubles.quoted_caption)
        (Doubles.answer Doubles.quoted_caption Doubles.short_answer)) = 2
  /\ fst (refine_alt_text default_config
            (Doubles.working Doubles.quoted_caption
               (Doubles.answer Doubles.quoted_caption Doubles.short_answer))
            Doubles.quoted_caption initial_state) =
     Returns (py "sunset over the bay")
  /\ py "sunset over the bay" <> Doubles.quoted_caption.
Proof.
  split; [vm_compute; reflexivity|].
  split; [vm_compute; reflexivity|].
  intros H. vm_compute in H. discriminate.
Qed.

(** Line 242 strips the double quotes first and the single quotes second,
    each once: double quotes inside single quotes stay. *)
Example strip_quotes_nested :
  strip_quotes ([squote; dquote] ++ py "a cat" ++ [dquote; squote]) =
  [dquote] ++ py "a cat" ++ [dquote].
Proof. reflexivity. Qed.

(** Line 242 against the reading of the words: the two agree on what
    the full stripping leaves, and the full stripping leaves clean ends. *)
Lemma strip_surrounding_strip_quotes s :
  strip_surrounding (strip_quotes s) = strip_surrounding s.
Proof.
  unfold strip_surrounding, strip_quotes, strip, strip_char.
  rewrite !strip_by_absorbs; [reflexivity| | |].
  - intros c H. apply N.eqb_eq in H. subst c. reflexivity.
  - intros c H. apply N.eqb_eq in H. subst c. reflexivity.
  - intros c H. now rewrite H.
Qed.

Lemma strip_surrounding_clean s :
  clean_ends s = true -> strip_surrounding s = s.
Proof.
  destruct s as [|c s]; [reflexivity|]. unfold clean_ends. intros H.
  apply andb_true_iff in H as [H1 H2].
  apply negb_true_iff in H1. apply negb_true_iff in H2.
  unfold strip_surrounding. now apply strip_by_clean.
Qed.

Lemma strip_surrounding_ends s : clean_ends (strip_surrounding s) = true.
Proof.
  unfold strip_surrounding.
  destruct (strip_by (fun c => isspace c || is_quote c) s) as [|c r] eqn:E;
    [reflexivity|].
  apply strip_by_ends in E as [H1 H2]. unfold clean_ends.
  now rewrite H1, H2.
Qed.

(** C4 (amended).  When the text extracted from the generation has 8 to 12
    words, the result is that text after the three calls of line 242: the
    double quotes at its ends are stripped, then the single quotes, then the
    whitespace, each once.  Something is always left, so the caption is not
    used.  The result is the text without any surrounding quote character
    or whitespace exactly when it neither starts nor ends with a quote
    character; a text with clean ends comes back as it is. *)
Theorem refine_alt_text_within_budget
    cfg w caption_text generated_text s s1 s2 :
  load_alt_refinement_model cfg w s = (Returns tt, s1) ->
  alt_generation cfg w caption_text s1 = (Returns generated_text, s2) ->
  8 <= wc (extract_alt (prompt_of caption_text) generated_text) <= 12 ->
  exists out,
    refine_alt_text cfg w caption_text s = (Returns out, s2) /\
    out = strip_quotes (extract_alt (prompt_of caption_text) generated_text) /\
    out <> [] /\
    (clean_ends out = true <->
     out = strip_surrounding
             (extract_alt (prompt_of caption_text) generated_text)) /\
    (clean_ends (extract_alt (prompt_of caption_text) generated_text) = true ->
     out = extract_alt (prompt_of caption_text) generated_text).
Proof.
  intros Hload Hgen [Hlo Hhi].
  rewrite (refine_alt_text_generated _ _ _ _ _ _ _ Hload Hgen).
  unfold shape_alt_text, budget_words.
  fold (wc (extract_alt (prompt_of caption_text) generated_text)).
  set (t := extract_alt (prompt_of caption_text) generated_text) in *.
  assert (H12 : (12 <? wc t) = false) by (apply Nat.ltb_ge; lia).
  assert (H8 : (wc t <? 8) = false) by (apply Nat.ltb_ge; lia).
  assert (H0 : (wc t =? 0) = false) by (apply Nat.eqb_neq; lia).
  rewrite H12, H8, H0.
  assert (Hne : strip_quotes t <> [])
    by (apply wc_pos_nonempty; pose proof (wc_strip_quotes t); lia).
  exists (strip_quotes t). split; [now rewrite or_else_nonempty|].
  split; [reflexivity|]. split; [assumption|]. split; [split|].
  - intros Hclean. rewrite <- strip_surrounding_strip_quotes.
    symmetry. now apply strip_surrounding_clean.
  - intros ->. apply strip_surrounding_ends.
  - apply strip_quotes_clean.
Qed.

Lemma refine_alt_text_within_budget_witness :
  refine_alt_text default_config
    (Doubles.working Doubles.cat_caption
       (Doubles.answer Doubles.cat_caption Doubles.fitting_answer))
    Doubles.cat_caption initial_state =
  (Returns (py "Cute tabby cat sitting on a sunny windowsill looking outside"),
   after (refine_alt_text default_config
            (Doubles.working Doubles.cat_caption
               (Doubles.answer Doubles.cat_caption Doubles.fitting_answer))
            Doubles.cat_caption) initial_state).
Proof.
  destruct (refine_alt_text_within_budget default_config
              (Doubles.working Doubles.cat_caption
                 (Doubles.answer Doubles.cat_caption Doubles.fitting_answer))
              Doubles.cat_caption
              (Doubles.answer Doubles.cat_caption Doubles.fitting_answer)
              initial_state
              (after (load_alt_refinement_model default_config
                        (Doubles.working Doubles.cat_caption
                           (Doubles.answer Doubles.cat_caption
                              Doubles.fitting_answer))) initial_state)
              (after (refine_alt_text default_config
                        (Doubles.working Doubles.cat_caption
                           (Doubles.answer Doubles.cat_caption
                              Doubles.fitting_answer))
                        Doubles.cat_caption) initial_state))
    as [out [Hrun [Hout _]]].
  - vm_compute. reflexivity.
  - vm_compute. reflexivity.
  - vm_compute. lia.
  - rewrite Hrun, Hout. vm_compute. reflexivity.
Defined.

(** C4, as stated, fails: a generation of 8 words in double quotes inside
    single quotes comes back with its double quotes, while stripping the
    surrounding quote characters leaves none. *)
Lemma refine_alt_text_within_budget_keeps_quotes :
  wc (extract_alt (prompt_of Doubles.cat_caption)
        (Doubles.answer Doubles.cat_caption Doubles.nested_quotes_answer)) = 8
  /\ fst (refine_alt_text default_config
            (Doubles.working Doubles.cat_caption
               (Doubles.answer Doubles.cat_caption
                  Doubles.nested_quotes_answer))
            Doubles.cat_caption initial_state) =
     Returns ([dquote] ++ py "a b c d e f g h" ++ [dquote])
  /\ strip_surrounding
       (extract_alt (prompt_of Doubles.cat_caption)
          (Doubles.answer Doubles.cat_caption Doubles.nested_quotes_answer)) =
     py "a b c d e f g h"
  /\ [dquote] ++ py "a b c d e f g h" ++ [dquote] <> py "a b c d e f g h".
Proof.
  split; [vm_compute; reflexivity|].
  split; [vm_compute; reflexivity|].
  split; [vm_compute; reflexivity|].
  intros H. vm_compute in H. discriminate.
Qed.

(** With whitespace between the outer and the inner quotes, the last call
    of line 242 uncovers quote characters that stay, and the words that were
    only quote characters are gone: 9 words give 7. *)
Example within_budget_seven_words :
  wc (extract_alt (prompt_of Doubles.cat_caption)
        (Doubles.answer Doubles.cat_caption Doubles.spaced_quotes_answer)) = 9
  /\ fst (refine_alt_text default_config
            (Doubles.working Doubles.cat_caption
               (Doubles.answer Doubles.cat_caption
                  Doubles.spaced_quotes_answer))
            Doubles.cat_caption initial_state) =
     Returns (py "'a b c d e f g'")
  /\ wc (py "'a b c d e f g'") = 7.
Proof. vm_compute. repeat split; reflexivity. Qed.

End Refinement.

(** ** Captioning stage, orchestrator and [POST /alt] *)

Module Pipeline.

(** An image that does not decode makes the [try] block raise. *)
Lemma blip_caption_bad_image w image_data s e :
  Image_open_convert w image_data (events s) = Raises e ->
  blip_caption w image_data s = (Raises e, log_event EvImageOpen s).
Proof.
  intros H. unfold blip_caption, bind, call. now rewrite H.
Qed.

(** So does a failure of the preprocessor. *)
Lemma blip_caption_bad_input w image_data s img processor e :
  Image_open_convert w image_data (events s) = Returns img ->
  BLIP_PROCESSOR s = Some processor ->
  blip_processor_call w processor img (events (log_event EvImageOpen s))
  = Raises e ->
  blip_caption w image_data s =
  (Raises e, log_event EvBlipProcessorCall (log_event EvImageOpen s)).
Proof.
  intros Himg Hp H. unfold blip_caption, bind, call, deref.
  rewrite Himg. simpl. rewrite Hp, H. reflexivity.
Qed.

(** With the captioner loaded, the captioning stage returns. *)
Lemma infer_caption_from_data_returns
    cfg w image_data fname ctype s s1 :
  load_blip_model cfg w s = (Returns tt, s1) ->
  exists caption_text s2,
    infer_caption_from_data cfg w image_data fname ctype s =
    (Returns caption_text, s2).
Proof.
  intros Hload. unfold infer_caption_from_data, bind, try_except, ret.
  rewrite Hload.
  destruct (blip_caption w image_data s1) as [[c|e] s2]; eauto.
Qed.

(** C5.  When the captioner is loaded, [infer_caption_from_data] returns a
    caption for every input; any exception raised inside the [try] block
    (decoding the image, preprocessing, generating, decoding the text) is
    caught and the result is the fixed caption. *)
Theorem infer_caption_from_data_catches
    cfg w image_data fname ctype s s1 :
  load_blip_model cfg w s = (Returns tt, s1) ->
  (exists caption_text s2,
     infer_caption_from_data cfg w image_data fname ctype s =
     (Returns caption_text, s2)) /\
  (forall e s2,
     blip_caption w image_data s1 = (Raises e, s2) ->
     infer_caption_from_data cfg w image_data fname ctype s =
     (Returns (py "A beautiful image"), s2)).
Proof.
  intros Hload. split.
  - now apply infer_caption_from_data_returns with (s1 := s1).
  - unfold infer_caption_from_data, bind, try_except, ret. rewrite Hload.
    intros e s2 ->. reflexivity.
Qed.

Lemma infer_caption_from_data_catches_witness :
  infer_caption_from_data default_config Doubles.bad_image Doubles.png
    None (Some (py "image/png")) initial_state =
  (Returns (py "A beautiful image"),
   after (infer_caption_from_data default_config Doubles.bad_image
            Doubles.png None (Some (py "image/png"))) initial_state).
Proof.
  refine (proj2 (infer_caption_from_data_catches default_config
                   Doubles.bad_image Doubles.png None (Some (py "image/png"))
                   initial_state _ _)
                (LibraryError (py "cannot identify image file")) _ _);
    vm_compute; reflexivity.
Defined.

(** The only exception that leaves [infer_caption_from_data] is one raised
    by the load of the captioner, before the [try] block. *)
Lemma infer_caption_from_data_raises cfg w image_data fname ctype s e s' :
  infer_caption_from_data cfg w image_data fname ctype s = (Raises e, s') ->
  load_blip_model cfg w s = (Raises e, s').
Proof.
  unfold infer_caption_from_data, bind, try_except, ret.
  destruct (load_blip_model cfg w s) as [[[]|e0] s1]; [|intros H; now inversion H].
  destruct (blip_caption w image_data s1) as [[c|e1] s2]; discriminate.
Qed.

(** The orchestrator returns in every state and runtime. *)
Lemma generate_alt_from_caption_returns cfg w caption_text s :
  exists out s',
    generate_alt_from_caption cfg w caption_text s = (Returns out, s').
Proof.
  unfold generate_alt_from_caption, try_except, ret.
  destruct (refine_alt_text cfg w caption_text s) as [[out|e] s']; eauto.
Qed.

(** C6.  [generate_alt_from_caption] returns a string in every state and
    every runtime; if the call of [refine_alt_text] raises, the result is
    the caption it was given. *)
Theorem generate_alt_from_caption_never_raises cfg w caption_text s :
  (exists out s',
     generate_alt_from_caption cfg w caption_text s = (Returns out, s')) /\
  (forall e s',
     refine_alt_text cfg w caption_text s = (Raises e, s') ->
     generate_alt_from_caption cfg w caption_text s =
     (Returns caption_text, s')).
Proof.
  split; [apply generate_alt_from_caption_returns|].
  unfold generate_alt_from_caption, try_except, ret.
  intros e s' ->. reflexivity.
Qed.

Lemma generate_alt_from_caption_never_raises_witness :
  generate_alt_from_caption default_config Doubles.offline
    Doubles.cat_caption initial_state =
  (Returns Doubles.cat_caption,
   after (refine_alt_text default_config Doubles.offline Doubles.cat_caption)
         initial_state).
Proof.
  refine (proj2 (generate_alt_from_caption_never_raises default_config
                   Doubles.offline Doubles.cat_caption initial_state)
                (RuntimeError
                   (py "alt refinement model load failed: connection refused"))
                _ _).
  vm_compute. reflexivity.
Defined.

Lemma not_an_image_spec ct :
  not_an_image ct = true <->
  ct = None \/ exists t, ct = Some t /\ startswith t (py "image/") = false.
Proof.
  destruct ct as [t|]; simpl.
  - split.
    + intros H. right. exists t. split; [reflexivity|].
      apply orb_true_iff in H as [H|H]; apply negb_true_iff in H;
        [destruct t; [reflexivity|discriminate]|assumption].
    + intros [H|[t' [H Ht]]]; [discriminate|]. inversion H; subst.
      rewrite Ht. apply orb_true_r.
  - split; auto.
Qed.

(** C7.  A request whose content type is missing or does not start with
    [image/] is answered by [HTTPException(400, "file must be an image")];
    one with an image content type and an empty body by
    [HTTPException(400, "empty file")].  In both cases the state is left
    as it was: no model is loaded and no call into the runtime is made. *)
Theorem alt_only_rejects cfg w image raw debug include_caption s :
  ((content_type image = None \/
    exists t, content_type image = Some t /\
              startswith t (py "image/") = false) ->
   alt_only cfg w image raw debug include_caption s =
   (Raises (HTTPException 400 (py "file must be an image")), s)) /\
  (forall t,
     content_type image = Some t -> startswith t (py "image/") = true ->
     file_data image = [] ->
     alt_only cfg w image raw debug include_caption s =
     (Raises (HTTPException 400 (py "empty file")), s)).
Proof.
  unfold alt_only. split.
  - intros H. apply not_an_image_spec in H. rewrite H. reflexivity.
  - intros t Hct Hst Hdata.
    assert (Hn : not_an_image (content_type image) = false).
    { destruct (not_an_image (content_type image)) eqn:E; [|reflexivity].
      apply not_an_image_spec in E as [E|[t' [E Ht']]]; congruence. }
    rewrite Hn, Hdata. reflexivity.
Qed.

Lemma alt_only_rejects_witness :
  alt_only default_config
    (Doubles.working Doubles.cat_caption Doubles.cat_caption)
    (Doubles.upload (Some (py "text/plain")) Doubles.png) false false false
    initial_state =
  (Raises (HTTPException 400 (py "file must be an image")), initial_state)
  /\
  alt_only default_config
    (Doubles.working Doubles.cat_caption Doubles.cat_caption)
    (Doubles.upload (Some (py "image/png")) []) false false false
    initial_state =
  (Raises (HTTPException 400 (py "empty file")), initial_state).
Proof.
  split.
  - apply (proj1 (alt_only_rejects default_config
                    (Doubles.working Doubles.cat_caption Doubles.cat_caption)
                    (Doubles.upload (Some (py "text/plain")) Doubles.png)
                    false false false initial_state)).
    right. exists (py "text/plain"). split; reflexivity.
  - apply (proj2 (alt_only_rejects default_config
                    (Doubles.working Doubles.cat_caption Doubles.cat_caption)
                    (Doubles.upload (Some (py "image/png")) [])
                    false false false initial_state)
                 (py "image/png")); reflexivity.
Defined.

Section ValidRequest.

Variables (cfg : config) (w : world) (image : UploadFile).
Variables (raw debug include_caption : bool) (s s1 : state) (t : pystr).

Hypothesis image_type : content_type image = Some t.
Hypothesis image_prefix : startswith t (py "image/") = true.
Hypothesis body_not_empty : file_data image <> [].
Hypothesis captioner_loaded : load_blip_model cfg w s = (Returns tt, s1).

(** A valid request runs both stages and answers from their results. *)
Lemma alt_only_valid :
  exists caption_text alt_text s2 s3,
    infer_caption_from_data cfg w (file_data image) (filename image)
      (content_type image) s = (Returns caption_text, s2) /\
    generate_alt_from_caption cfg w caption_text s2 = (Returns alt_text, s3) /\
    alt_only cfg w image raw debug include_caption s =
    (Returns
       (if raw || debug then [("alt"%string, alt_text); ("raw"%string, alt_text)]
        else if include_caption
             then [("alt"%string, alt_text); ("caption"%string, caption_text)]
             else [("alt"%string, alt_text)]), s3).
Proof.
  destruct (infer_caption_from_data_returns cfg w (file_data image)
              (filename image) (content_type image) s s1 captioner_loaded)
    as [caption_text [s2 Hcap]].
  destruct (generate_alt_from_caption_returns cfg w caption_text s2)
    as [alt_text [s3 Halt]].
  exists caption_text, alt_text, s2, s3. split; [assumption|].
  split; [assumption|].
  unfold alt_only.
  assert (Hn : not_an_image (content_type image) = false).
  { destruct (not_an_image (content_type image)) eqn:E; [|reflexivity].
    apply not_an_image_spec in E as [E|[t' [E Ht']]]; congruence. }
  rewrite Hn. destruct (file_data image) as [|b data] eqn:Hd; [congruence|].
  unfold bind. rewrite Hcap, Halt.
  destruct (raw || debug); [reflexivity|].
  destruct include_caption; reflexivity.
Qed.

End ValidRequest.

(** A failed load of the captioner is not caught by the handler: a valid
    request then has no JSON response. *)
Lemma alt_only_load_failure cfg w image raw debug include_caption s t e s1 :
  content_type image = Some t -> startswith t (py "image/") = true ->
  file_data image <> [] ->
  load_blip_model cfg w s = (Raises e, s1) ->
  alt_only cfg w image raw debug include_caption s = (Raises e, s1).
Proof.
  intros Hct Hst Hd Hload. unfold alt_only.
  assert (Hn : not_an_image (content_type image) = false).
  { destruct (not_an_image (content_type image)) eqn:E; [|reflexivity].
    apply not_an_image_spec in E as [E|[t' [E Ht']]]; congruence. }
  rewrite Hn. destruct (file_data image) as [|b data]; [congruence|].
  unfold bind, infer_caption_from_data, bind. now rewrite Hload.
Qed.

(** C8.  A valid request whose captioner is loaded gets a JSON object with
    the key [alt]; its keys are [alt, raw] when [raw] or [debug] is set,
    otherwise [alt, caption] when [include_caption] is set, the caption
    being the result of the captioning stage, otherwise [alt] alone. *)
Theorem alt_only_response_shape
    cfg w image raw debug include_caption s s1 t :
  content_type image = Some t -> startswith t (py "image/") = true ->
  file_data image <> [] ->
  load_blip_model cfg w s = (Returns tt, s1) ->
  exists caption_text alt_text s2 s3 r,
    infer_caption_from_data cfg w (file_data image) (filename image)
      (content_type image) s = (Returns caption_text, s2) /\
    generate_alt_from_caption cfg w caption_text s2 = (Returns alt_text, s3) /\
    alt_only cfg w image raw debug include_caption s = (Returns r, s3) /\
    lookup "alt" r = Some alt_text /\
    (raw || debug = true -> keys r = ["alt"; "raw"]%string) /\
    (raw || debug = false -> include_caption = true ->
     keys r = ["alt"; "caption"]%string /\
     lookup "caption" r = Some caption_text) /\
    (raw || debug = false -> include_caption = false ->
     keys r = ["alt"]%string).
Proof.
  intros Hct Hst Hd Hload.
  destruct (alt_only_valid cfg w image raw debug include_caption s s1 t
              Hct Hst Hd Hload)
    as [caption_text [alt_text [s2 [s3 [Hcap [Halt Hrun]]]]]].
  exists caption_text, alt_text, s2, s3. eexists.
  split; [exact Hcap|]. split; [exact Halt|]. split; [exact Hrun|].
  destruct (raw || debug), include_caption; simpl;
    repeat split; try reflexivity; discriminate.
Qed.

Lemma alt_only_response_shape_witness :
  exists r s3,
    alt_only default_config
      (Doubles.working Doubles.cat_caption
         (Doubles.answer Doubles.cat_caption Doubles.short_answer))
      (Doubles.upload (Some (py "image/png")) Doubles.png) false false true
      initial_state = (Returns r, s3) /\
    keys r = ["alt"; "caption"]%string /\
    lookup "caption" r = Some Doubles.cat_caption.
Proof.
  destruct (alt_only_response_shape default_config
              (Doubles.working Doubles.cat_caption
                 (Doubles.answer Doubles.cat_caption Doubles.short_answer))
              (Doubles.upload (Some (py "image/png")) Doubles.png)
              false false true initial_state
              (after (load_blip_model default_config
                        (Doubles.working Doubles.cat_caption
                           (Doubles.answer Doubles.cat_caption
                              Doubles.short_answer))) initial_state)
              (py "image/png"))
    as [caption_text [alt_text [s2 [s3 [r [Hcap [_ [Hrun [_ [_ [Hinc _]]]]]]]]]]].
  - reflexivity.
  - reflexivity.
  - discriminate.
  - vm_compute. reflexivity.
  - exists r, s3. split; [exact Hrun|].
    destruct (Hinc eq_refl eq_refl) as [Hkeys Hc]. split; [exact Hkeys|].
    rewrite Hc. vm_compute in Hcap. inversion Hcap. reflexivity.
Defined.

(** C10.  When [raw] or [debug] is set, the [raw] field of the response is
    the [alt] field: both hold the result of [generate_alt_from_caption]. *)
Theorem alt_only_raw_is_alt cfg w image raw debug include_caption s s1 t :
  content_type image = Some t -> startswith t (py "image/") = true ->
  file_data image <> [] ->
  load_blip_model cfg w s = (Returns tt, s1) ->
  raw || debug = true ->
  exists caption_text alt_text s2 s3 r,
    infer_caption_from_data cfg w (file_data image) (filename image)
      (content_type image) s = (Returns caption_text, s2) /\
    generate_alt_from_caption cfg w caption_text s2 = (Returns alt_text, s3) /\
    alt_only cfg w image raw debug include_caption s = (Returns r, s3) /\
    lookup "raw" r = Some alt_text /\
    lookup "alt" r = Some alt_text.
Proof.
  intros Hct Hst Hd Hload Hflag.
  destruct (alt_only_valid cfg w image raw debug include_caption s s1 t
              Hct Hst Hd Hload)
    as [caption_text [alt_text [s2 [s3 [Hcap [Halt Hrun]]]]]].
  rewrite Hflag in Hrun.
  exists caption_text, alt_text, s2, s3. eexists.
  split; [exact Hcap|]. split; [exact Halt|]. split; [exact Hrun|].
  split; reflexivity.
Qed.

Lemma alt_only_raw_is_alt_witness :
  exists r s3,
    alt_only default_config
      (Doubles.working Doubles.cat_caption
         (Doubles.answer Doubles.cat_caption Doubles.long_answer))
      (Doubles.upload (Some (py "image/png")) Doubles.png) false true false
      initial_state = (Returns r, s3) /\
    lookup "raw" r = lookup "alt" r.
Proof.
  destruct (alt_only_raw_is_alt default_config
              (Doubles.working Doubles.cat_caption
                 (Doubles.answer Doubles.cat_caption Doubles.long_answer))
              (Doubles.upload (Some (py "image/png")) Doubles.png)
              false true false initial_state
              (after (load_blip_model default_config
                        (Doubles.working Doubles.cat_caption
                           (Doubles.answer Doubles.cat_caption
                              Doubles.long_answer))) initial_state)
              (py "image/png"))
    as [caption_text [alt_text [s2 [s3 [r [_ [_ [Hrun [Hraw Halt]]]]]]]]].
  - reflexivity.
  - reflexivity.
  - discriminate.
  - vm_compute. reflexivity.
  - reflexivity.
  - exists r, s3. split; [exact Hrun|]. now rewrite Hraw, Halt.
Defined.

End Pipeline.

(** ** Model registry *)

Module Registry.

Import Threads.

Ltac break_match :=
  match goal with
  | |- context [match ?x with _ => _ end] => destruct x eqn:?
  | H : context [match ?x with _ => _ end] |- _ => destruct x eqn:?
  end.

Lemma bind_ret_tt (m : M unit) s : bind m (fun _ => ret tt) s = m s.
Proof.
  unfold bind, ret. destruct (m s) as [[[]|e] s']; reflexivity.
Qed.

Lemma try_except_ext {A} (m m' : M A) h s :
  m s = m' s -> try_except m h s = try_except m' h s.
Proof. unfold try_except. now intros ->. Qed.

Lemma bind_ext {A B} (m : M A) (k k' : A -> M B) s :
  (forall a s', k a s' = k' a s') -> bind m k s = bind m k' s.
Proof.
  intros H. unfold bind. destruct (m s) as [[a|e] s']; [apply H|reflexivity].
Qed.

(** The two load operations are instances of the protocol. *)
Lemma load_blip_model_protocol cfg w s :
  load_blip_model cfg w s = load (blip_loader cfg w) s.
Proof.
  unfold load_blip_model, load. apply bind_ext. intros [|] s1; [reflexivity|].
  apply bind_ext. intros [|] s2; [reflexivity|].
  apply try_except_ext. unfold blip_load_body. simpl.
  do 3 (apply bind_ext; intros [] ?). now rewrite bind_ret_tt.
Qed.

Lemma load_alt_refinement_model_protocol cfg w s :
  load_alt_refinement_model cfg w s = load (alt_loader cfg w) s.
Proof.
  unfold load_alt_refinement_model, load.
  apply bind_ext. intros [|] s1; [reflexivity|].
  apply bind_ext. intros [|] s2; [reflexivity|].
  apply try_except_ext. unfold alt_load_body. simpl.
  do 4 (apply bind_ext; intros [] ?). now rewrite bind_ret_tt.
Qed.

(** Once the handles are set, a call returns at the first test and leaves
    the state, and with it the history of runtime calls, as it was. *)
Lemma load_ready L s : ld_ready L s = true -> load L s = (Returns tt, s).
Proof. intros H. unfold load, bind, gets. now rewrite H. Qed.

Lemma load_not_ready L s :
  ld_ready L s = false ->
  load L s =
  try_except (seq_steps (ld_steps L)) (fun exc => raise (ld_failed L exc)) s.
Proof.
  intros H. unfold load, bind, gets. rewrite H. simpl. now rewrite H.
Qed.

Ltac run_body :=
  unfold bind, try_except, call, modify, deref, ret, raise in *; simpl in *;
  repeat (break_match; simpl in *; try discriminate);
  repeat match goal with
         | H : (_, _) = (_, _) |- _ => inversion H; clear H; subst
         end.

Ltac count_history :=
  unfold count_events, set_BLIP_MODEL, set_BLIP_PROCESSOR, set_ALT_MODEL,
    set_ALT_TOKENIZER, log_event; simpl;
  repeat rewrite filter_app; repeat rewrite length_app; simpl; lia.

Ltac quiet_step :=
  intros H; run_body;
  constructor; simpl; try congruence; try discriminate; try count_history.

Lemma blip_load_processor_ok cfg w s s' :
  blip_load_processor cfg w s = (Returns tt, s') ->
  s' = set_BLIP_PROCESSOR (Some (fresh_handle (BLIP_MODEL_NAME cfg)))
         (log_event (EvBlipProcessorFromPretrained (BLIP_MODEL_NAME cfg)) s).
Proof. unfold blip_load_processor. intros H. run_body. reflexivity. Qed.

Lemma blip_load_weights_ok cfg w s s' :
  blip_load_weights cfg w s = (Returns tt, s') ->
  s' = set_BLIP_MODEL (Some (fresh_handle (BLIP_MODEL_NAME cfg)))
         (log_event (EvBlipModelFromPretrained (BLIP_MODEL_NAME cfg)) s).
Proof. unfold blip_load_weights. intros H. run_body. reflexivity. Qed.

Lemma blip_move_to_mps_quiet w s s' :
  blip_move_to_mps w s = (Returns tt, s') -> quiet s s'.
Proof. unfold blip_move_to_mps. quiet_step. Qed.

Lemma blip_eval_quiet w s s' :
  blip_eval w s = (Returns tt, s') -> quiet s s'.
Proof. unfold blip_eval. quiet_step. Qed.

Lemma alt_load_tokenizer_ok cfg w s s' :
  alt_load_tokenizer cfg w s = (Returns tt, s') ->
  s' = set_ALT_TOKENIZER (Some (fresh_handle (ALT_MODEL_NAME cfg)))
         (log_event (EvAutoTokenizerFromPretrained (ALT_MODEL_NAME cfg)) s).
Proof. unfold alt_load_tokenizer. intros H. run_body. reflexivity. Qed.

Lemma alt_load_weights_ok cfg w s s' :
  alt_load_weights cfg w s = (Returns tt, s') ->
  s' = set_ALT_MODEL (Some (fresh_handle (ALT_MODEL_NAME cfg)))
         (log_event (EvAutoModelFromPretrained (ALT_MODEL_NAME cfg)) s).
Proof. unfold alt_load_weights. intros H. run_body. reflexivity. Qed.

Lemma alt_set_pad_token_quiet s s' :
  alt_set_pad_token s = (Returns tt, s') -> quiet s s'.
Proof. unfold alt_set_pad_token. quiet_step. Qed.

Lemma alt_eval_quiet w s s' :
  alt_eval w s = (Returns tt, s') -> quiet s s'.
Proof. unfold alt_eval. quiet_step. Qed.

Lemma alt_move_to_mps_quiet w s s' :
  alt_move_to_mps w s = (Returns tt, s') -> quiet s s'.
Proof. unfold alt_move_to_mps. quiet_step. Qed.

Ltac next_step H :=
  let E := fresh "E" in
  match type of H with
  | bind ?a _ ?s = _ =>
      unfold bind at 1 in H;
      destruct (a s) as [[[]|?] ?] eqn:E; [|discriminate H]
  end.

(** A complete run of the captioner's [try] block sets both handles and
    calls each [from_pretrained] once. *)
Lemma blip_body_once cfg w s s' :
  seq_steps (ld_steps (blip_loader cfg w)) s = (Returns tt, s') ->
  blip_ready s' = true /\
  count_events is_blip_model_load s' = S (count_events is_blip_model_load s) /\
  count_events is_blip_processor_load s' =
  S (count_events is_blip_processor_load s).
Proof.
  simpl. intros H. do 4 next_step H. inversion H; subst; clear H.
  apply blip_load_processor_ok in E. apply blip_load_weights_ok in E0.
  apply blip_move_to_mps_quiet in E1. apply blip_eval_quiet in E2.
  destruct E1 as [Em1 Ep1 _ _ Ea1 Eb1 _ _], E2 as [Em2 Ep2 _ _ Ea2 Eb2 _ _].
  subst. split; [|split].
  - assert (Hm : BLIP_MODEL s' <> None) by (apply Em2, Em1; discriminate).
    assert (Hp : BLIP_PROCESSOR s' <> None) by (apply Ep2, Ep1; discriminate).
    unfold blip_ready.
    destruct (BLIP_MODEL s'), (BLIP_PROCESSOR s'); congruence.
  - rewrite Ea2, Ea1. count_history.
  - rewrite Eb2, Eb1. count_history.
Qed.

Lemma alt_body_once cfg w s s' :
  seq_steps (ld_steps (alt_loader cfg w)) s = (Returns tt, s') ->
  alt_ready s' = true /\
  count_events is_alt_model_load s' = S (count_events is_alt_model_load s) /\
  count_events is_tokenizer_load s' = S (count_events is_tokenizer_load s).
Proof.
  simpl. intros H. do 5 next_step H. inversion H; subst; clear H.
  apply alt_load_tokenizer_ok in E. apply alt_set_pad_token_quiet in E0.
  apply alt_load_weights_ok in E1. apply alt_eval_quiet in E2.
  apply alt_move_to_mps_quiet in E3.
  destruct E0 as [_ _ _ Et0 _ _ Ea0 Eb0], E2 as [_ _ Em2 Et2 _ _ Ea2 Eb2],
    E3 as [_ _ Em3 Et3 _ _ Ea3 Eb3].
  assert (Hm : ALT_MODEL s' <> None)
    by (apply Em3, Em2; subst; discriminate).
  assert (Hp : ALT_TOKENIZER s' <> None)
    by (apply Et3, Et2; subst; simpl; apply Et0; subst; discriminate).
  split; [|split].
  - unfold alt_ready.
    destruct (ALT_MODEL s'), (ALT_TOKENIZER s'); congruence.
  - rewrite Ea3, Ea2. subst s2.
    transitivity (S (count_events is_alt_model_load s1)); [count_history|].
    rewrite Ea0. subst s0. count_history.
  - rewrite Eb3, Eb2. subst s2.
    transitivity (count_events is_tokenizer_load s1); [count_history|].
    rewrite Eb0. subst s0. count_history.
Qed.

(** *** Two callers *)

Lemma lock_ok_start s : lock_ok (start s).
Proof. intros t. destruct t; simpl; split; discriminate. Qed.

Ltac lock_cases Hok :=
  let H1 := fresh "Hone" in
  let H2 := fresh "Htwo" in
  pose proof (Hok T1) as H1; pose proof (Hok T2) as H2; simpl in H1, H2.

(** What a step of caller [t] does to the lock. *)
Lemma thread_step_lock L t s lk ph s' lk' ph' :
  thread_step L t s lk ph = Some (s', lk', ph') ->
  match in_critical ph, in_critical ph' with
  | false, true => lk = None /\ lk' = Some t
  | true, false => lk' = None
  | _, _ => lk' = lk
  end.
Proof.
  destruct ph as [| | |rest| |]; simpl; try discriminate.
  - intros H. inversion H; subst. now destruct (ld_ready L s').
  - destruct lk; [discriminate|]. intros H. inversion H; subst. now split.
  - destruct (ld_ready L s); intros H; inversion H; subst; reflexivity.
  - destruct rest as [|a rest]; [intros H; inversion H; reflexivity|].
    destruct (a s) as [[[]|e] s1]; intros H; inversion H; subst; reflexivity.
Qed.

(** Mutual exclusion: a step keeps the lock with the caller inside the
    [with] block. *)
Lemma lock_ok_step L m m' : lock_ok m -> step L m m' -> lock_ok m'.
Proof.
  intros Hok Hstep. destruct Hstep as [t m [[s' lk'] ph'] Hstep].
  apply thread_step_lock in Hstep.
  destruct m as [sh lk p1 p2]. lock_cases Hok. clear Hok.
  destruct t; simpl in Hstep; intros t'; destruct t'; simpl;
    destruct (in_critical p1), (in_critical p2), (in_critical ph');
    destruct lk as [[|]|];
    destruct Hone as [Ha Hb], Htwo as [Hc Hd];
    repeat match goal with
           | H : ?x = ?x -> _ |- _ => specialize (H eq_refl)
           end;
    intuition (subst; try congruence; try discriminate).
Qed.

Lemma raised_step L m m' t :
  raised (phase_of t m) = true -> step L m m' ->
  raised (phase_of t m') = true.
Proof.
  intros Hr Hstep. destruct Hstep as [t0 m [[s' lk'] ph'] Hstep].
  destruct m as [sh lk p1 p2].
  destruct t, t0; simpl in *; try assumption;
    [destruct p1|destruct p2]; discriminate.
Qed.

Section Protocol.

Variables (L : loader) (count : state -> nat).

Hypothesis body_once :
  forall s s',
    seq_steps (ld_steps L) s = (Returns tt, s') ->
    ld_ready L s' = true /\ count s' = S (count s).

Variable n : nat.

Lemma promise_begin s : count s = n -> promise L count n (ld_steps L) s.
Proof. intros <- s' H. now apply body_once. Qed.

Lemma promise_next a rest s s1 :
  a s = (Returns tt, s1) ->
  promise L count n (a :: rest) s -> promise L count n rest s1.
Proof.
  intros Ha Hp s' H. apply Hp. simpl. unfold bind. now rewrite Ha.
Qed.

Lemma promise_kept s :
  promise L count n [] s -> ld_ready L s = true /\ count s = S n.
Proof. intros Hp. now apply Hp. Qed.

Ltac not_begun := left; repeat split; simpl; auto; fail.
Ltac under_way t rest :=
  right; left; exists t, rest; split; simpl; auto; fail.
Ltac done := right; right; repeat split; simpl; auto; fail.

Lemma accounted_step m m' :
  lock_ok m -> accounted L count n m -> step L m m' ->
  raised (ph1 m') || raised (ph2 m') = true \/ accounted L count n m'.
Proof.
  intros Hok Hacc Hstep. destruct Hstep as [t m [[s' lk'] ph'] Hstep].
  destruct m as [sh lk p1 p2]. lock_cases Hok. clear Hok.
  unfold accounted in *. simpl in Hacc.
  destruct t; simpl in Hstep.
  - destruct p1 as [| | |rest| |]; simpl in Hstep; try discriminate.
    + inversion Hstep; subst; clear Hstep. right. simpl.
      destruct Hacc as [(Hr & Hc & Hu1 & Hu2)|[(t0 & rest0 & Hph & Hpr)|(Hr & Hc & Hb1 & Hb2)]].
      * rewrite Hr. not_begun.
      * destruct t0; simpl in Hph; [discriminate|]. under_way T2 rest0.
      * rewrite Hr. done.
    + destruct lk; [discriminate|]. inversion Hstep; subst; clear Hstep.
      right. simpl.
      destruct Hacc as [(Hr & Hc & Hu1 & Hu2)|[(t0 & rest0 & Hph & Hpr)|(Hr & Hc & Hb1 & Hb2)]].
      * not_begun.
      * destruct t0; simpl in Hph; [discriminate|]. under_way T2 rest0.
      * done.
    + right. destruct (ld_ready L sh) eqn:Hready;
        inversion Hstep; subst; clear Hstep; simpl;
        destruct Hacc as [(Hr & Hc & Hu1 & Hu2)|[(t0 & rest0 & Hph & Hpr)|(Hr & Hc & Hb1 & Hb2)]];
        try congruence.
      * destruct t0; simpl in Hph; [discriminate|]. under_way T2 rest0.
      * done.
      * right; left. exists T1, (ld_steps L). split; [reflexivity|].
        now apply promise_begin.
      * destruct t0; simpl in Hph; [discriminate|]. under_way T2 rest0.
    + destruct Hacc as [(Hr & Hc & Hu1 & Hu2)|[(t0 & rest0 & Hph & Hpr)|(Hr & Hc & Hb1 & Hb2)]];
        try discriminate.
      assert (Hp2 : in_body p2 = false).
      { destruct Hone as [Ha _]. specialize (Ha eq_refl). subst lk.
        destruct p2; try reflexivity. destruct Htwo as [Hc _].
        specialize (Hc eq_refl). discriminate. }
      destruct t0; simpl in Hph; [|subst p2; discriminate].
      inversion Hph; subst rest0; clear Hph.
      destruct rest as [|a rest].
      * inversion Hstep; subst; clear Hstep. right. simpl.
        apply promise_kept in Hpr as [Hr Hc]. done.
      * destruct (a sh) as [[[]|e] s1] eqn:Ea;
          inversion Hstep; subst; clear Hstep; simpl; [|now left].
        right. right; left. exists T1, rest. split; [reflexivity|].
        simpl. eapply promise_next; eassumption.
  - destruct p2 as [| | |rest| |]; simpl in Hstep; try discriminate.
    + inversion Hstep; subst; clear Hstep. right. simpl.
      destruct Hacc as [(Hr & Hc & Hu1 & Hu2)|[(t0 & rest0 & Hph & Hpr)|(Hr & Hc & Hb1 & Hb2)]].
      * rewrite Hr. not_begun.
      * destruct t0; simpl in Hph; [|discriminate]. under_way T1 rest0.
      * rewrite Hr. done.
    + destruct lk; [discriminate|]. inversion Hstep; subst; clear Hstep.
      right. simpl.
      destruct Hacc as [(Hr & Hc & Hu1 & Hu2)|[(t0 & rest0 & Hph & Hpr)|(Hr & Hc & Hb1 & Hb2)]].
      * not_begun.
      * destruct t0; simpl in Hph; [|discriminate]. under_way T1 rest0.
      * done.
    + right. destruct (ld_ready L sh) eqn:Hready;
        inversion Hstep; subst; clear Hstep; simpl;
        destruct Hacc as [(Hr & Hc & Hu1 & Hu2)|[(t0 & rest0 & Hph & Hpr)|(Hr & Hc & Hb1 & Hb2)]];
        try congruence.
      * destruct t0; simpl in Hph; [|discriminate]. under_way T1 rest0.
      * done.
      * right; left. exists T2, (ld_steps L). split; [reflexivity|].
        now apply promise_begin.
      * destruct t0; simpl in Hph; [|discriminate]. under_way T1 rest0.
    + destruct Hacc as [(Hr & Hc & Hu1 & Hu2)|[(t0 & rest0 & Hph & Hpr)|(Hr & Hc & Hb1 & Hb2)]];
        try discriminate.
      assert (Hp1 : in_body p1 = false).
      { destruct Htwo as [Ha _]. specialize (Ha eq_refl). subst lk.
        destruct p1; try reflexivity. destruct Hone as [Hc _].
        specialize (Hc eq_refl). discriminate. }
      destruct t0; simpl in Hph; [subst p1; discriminate|].
      inversion Hph; subst rest0; clear Hph.
      destruct rest as [|a rest].
      * inversion Hstep; subst; clear Hstep. right. simpl.
        apply promise_kept in Hpr as [Hr Hc]. done.
      * destruct (a sh) as [[[]|e] s1] eqn:Ea;
          inversion Hstep; subst; clear Hstep; simpl;
          [|left; apply orb_true_r].
        right. right; left. exists T2, rest. split; [reflexivity|].
        simpl. eapply promise_next; eassumption.
Qed.

Lemma invariant_step m m' :
  invariant L count n m -> step L m m' -> invariant L count n m'.
Proof.
  intros [Hok Hacc] Hstep. split; [eapply lock_ok_step; eassumption|].
  destruct Hacc as [Hr|Hacc]; [left|eapply accounted_step; eassumption].
  apply orb_true_iff in Hr as [Hr|Hr]; apply orb_true_iff.
  - left. exact (raised_step L m m' T1 Hr Hstep).
  - right. exact (raised_step L m m' T2 Hr Hstep).
Qed.

Lemma invariant_steps m m' :
  steps L m m' -> invariant L count n m -> invariant L count n m'.
Proof.
  induction 1 as [m|m1 m2 m3 _ IH Hstep]; [trivial|].
  intros Hinv. eapply invariant_step; [apply IH, Hinv|exact Hstep].
Qed.

Lemma invariant_start s :
  ld_ready L s = false -> count s = n -> invariant L count n (start s).
Proof.
  intros Hr Hc. split; [apply lock_ok_start|]. right. left.
  repeat split; simpl; auto.
Qed.

Lemma invariant_returned m :
  invariant L count n m -> ph1 m = Returned -> ph2 m = Returned ->
  ld_ready L (shared m) = true /\ count (shared m) = S n.
Proof.
  intros [_ Hacc] H1 H2. unfold accounted in Hacc.
  rewrite H1, H2 in Hacc. simpl in Hacc.
  destruct Hacc as [Hr|[(_ & _ & Hu & _)|[(t & rest & Hph & _)|(Hr & Hc & _)]]];
    try discriminate; [|now split].
  destruct t; simpl in Hph; congruence.
Qed.

End Protocol.

Section Callers.

Variables (L : loader) (count : state -> nat).

Hypothesis body_once :
  forall s s',
    seq_steps (ld_steps L) s = (Returns tt, s') ->
    ld_ready L s' = true /\ count s' = S (count s).

(** One caller, twice: the first call loads, the second finds the handles
    set and returns at once. *)
Lemma load_twice s s1 :
  ld_ready L s = false -> load L s = (Returns tt, s1) ->
  ld_ready L s1 = true /\ count s1 = S (count s) /\
  load L s1 = (Returns tt, s1).
Proof.
  intros Hr Hload. rewrite load_not_ready in Hload by assumption.
  unfold try_except in Hload.
  destruct (seq_steps (ld_steps L) s) as [[[]|e] s'] eqn:E;
    [|discriminate].
  inversion Hload; subst; clear Hload.
  destruct (body_once _ _ E) as [Hready Hcount].
  repeat split; [assumption|assumption|now apply load_ready].
Qed.

(** Two callers, in any interleaving: when both have returned, the handles
    are set and the load has been made once. *)
Lemma callers_agree s m :
  ld_ready L s = false -> steps L (start s) m ->
  ph1 m = Returned -> ph2 m = Returned ->
  ld_ready L (shared m) = true /\ count (shared m) = S (count s).
Proof.
  intros Hr Hsteps H1 H2.
  apply (invariant_returned L count (count s) m); [|assumption|assumption].
  eapply invariant_steps; [exact body_once|exact Hsteps|].
  now apply invariant_start.
Qed.

End Callers.

(** *** Progress *)

Lemma steps_trans L m1 m2 m3 :
  steps L m1 m2 -> steps L m2 m3 -> steps L m1 m3.
Proof.
  intros H12 H23. induction H23 as [|m2 m m3 _ IH Hstep]; [assumption|].
  eapply steps_next; [apply IH, H12|exact Hstep].
Qed.

(** A schedule is an interleaving. *)
Lemma run_steps L schedule m : steps L m (run L schedule m).
Proof.
  revert m. induction schedule as [|t schedule IH]; intros m; simpl.
  - apply steps_refl.
  - destruct (thread_step L t (shared m) (lock m) (phase_of t m)) as [r|] eqn:E;
      [|apply IH].
    eapply steps_trans; [|apply IH].
    eapply steps_next; [apply steps_refl|]. now constructor.
Qed.

Lemma lock_ok_steps L m m' : steps L m m' -> lock_ok m -> lock_ok m'.
Proof.
  induction 1 as [m|m1 m2 m3 _ IH Hstep]; [trivial|].
  intros Hok. eapply lock_ok_step; [apply IH, Hok|exact Hstep].
Qed.

(** Every step brings its caller nearer to the end. *)
Lemma thread_step_rank L t s lk ph s' lk' ph' :
  thread_step L t s lk ph = Some (s', lk', ph') -> rank L ph' < rank L ph.
Proof.
  destruct ph as [| | |rest| |]; simpl; try discriminate.
  - intros H. inversion H; subst. destruct (ld_ready L s'); simpl; lia.
  - destruct lk; [discriminate|]. intros H. inversion H; subst. simpl. lia.
  - destruct (ld_ready L s); intros H; inversion H; subst; simpl; lia.
  - destruct rest as [|a rest]; [intros H; inversion H; simpl; lia|].
    destruct (a s) as [[[]|e] s1]; intros H; inversion H; subst; simpl; lia.
Qed.

Lemma step_rank L m m' :
  step L m m' ->
  rank L (ph1 m') + rank L (ph2 m') < rank L (ph1 m) + rank L (ph2 m).
Proof.
  intros Hstep. destruct Hstep as [t m [[s' lk'] ph'] Hstep].
  apply thread_step_rank in Hstep. destruct m as [sh lk p1 p2].
  destruct t; simpl in *; lia.
Qed.

(** A caller that cannot move has finished or waits for the lock. *)
Lemma blocked L t s lk ph :
  thread_step L t s lk ph = None ->
  finished ph = true \/ (ph = AtAcquire /\ exists t0, lk = Some t0).
Proof.
  destruct ph as [| | |rest| |]; simpl; auto; try discriminate.
  - destruct lk as [t0|]; [|discriminate]. intros _. right. eauto.
  - destruct (ld_ready L s); discriminate.
  - destruct rest as [|a rest]; [discriminate|].
    destruct (a s) as [[[]|e] s1]; discriminate.
Qed.

Lemma critical_moves L t s lk ph :
  in_critical ph = true -> thread_step L t s lk ph <> None.
Proof.
  destruct ph as [| | |rest| |]; simpl; try discriminate.
  - destruct (ld_ready L s); discriminate.
  - destruct rest as [|a rest]; [discriminate|].
    destruct (a s) as [[[]|e] s1]; discriminate.
Qed.

(** No deadlock: if no caller can move, both have finished. *)
Lemma no_deadlock L m :
  lock_ok m -> stuck L m ->
  finished (ph1 m) = true /\ finished (ph2 m) = true.
Proof.
  intros Hok Hstuck.
  assert (Hall : forall t, finished (phase_of t m) = true).
  { intros t. destruct (blocked _ _ _ _ _ (Hstuck t)) as [H|[Hph [t0 Hlk]]];
      [assumption|exfalso].
    apply Hok in Hlk. apply (critical_moves L t0 (shared m) (lock m)) in Hlk.
    apply Hlk, Hstuck. }
  split; [apply (Hall T1)|apply (Hall T2)].
Qed.

Lemma step_total_rank L m m' :
  step L m m' -> total_rank L m' < total_rank L m.
Proof. apply step_rank. Qed.

(** From every state some schedule brings both callers to the end. *)
Lemma callers_finish L m :
  lock_ok m ->
  exists schedule,
    finished (ph1 (run L schedule m)) = true /\
    finished (ph2 (run L schedule m)) = true.
Proof.
  remember (total_rank L m) as k eqn:Hk.
  revert m Hk. induction k as [k IH] using lt_wf_ind. intros m Hk Hok.
  destruct (thread_step L T1 (shared m) (lock m) (phase_of T1 m))
    as [r1|] eqn:E1.
  - assert (Hstep : step L m (advance T1 m r1)) by now constructor.
    destruct (IH (total_rank L (advance T1 m r1))
                (eq_ind _ (fun x => _ < x) (step_total_rank _ _ _ Hstep) _
                   (eq_sym Hk))
                (advance T1 m r1) eq_refl
                (lock_ok_step _ _ _ Hok Hstep)) as [schedule Hs].
    exists (T1 :: schedule). simpl in *. now rewrite E1.
  - destruct (thread_step L T2 (shared m) (lock m) (phase_of T2 m))
      as [r2|] eqn:E2.
    + assert (Hstep : step L m (advance T2 m r2)) by now constructor.
      destruct (IH (total_rank L (advance T2 m r2))
                  (eq_ind _ (fun x => _ < x) (step_total_rank _ _ _ Hstep) _
                     (eq_sym Hk))
                  (advance T2 m r2) eq_refl
                  (lock_ok_step _ _ _ Hok Hstep)) as [schedule Hs].
      exists (T2 :: schedule). simpl in *. now rewrite E2.
    + exists []. simpl. apply (no_deadlock L); [assumption|].
      intros t. now destruct t.
Qed.

Section Reliable.

Variable L : loader.
Hypothesis body_total : forall s, on_track (ld_steps L) s.

Lemma calm_start s : calm (start s).
Proof. repeat split. intros t rest. destruct t; discriminate. Qed.

Lemma on_track_next a rest s :
  on_track (a :: rest) s ->
  exists s1, a s = (Returns tt, s1) /\ on_track rest s1.
Proof.
  intros [s' H]. simpl in H. unfold bind in H.
  destruct (a s) as [[[]|e] s1]; [|discriminate]. exists s1. split; [reflexivity|].
  now exists s'.
Qed.

(** With a [try] block that cannot fail, no caller ever raises. *)
Lemma calm_step m m' : lock_ok m -> calm m -> step L m m' -> calm m'.
Proof.
  intros Hok (Hr1 & Hr2 & Htrack) Hstep.
  destruct Hstep as [t m [[s' lk'] ph'] Hstep].
  destruct m as [sh lk p1 p2]. lock_cases Hok. simpl in Hr1, Hr2.
  pose proof (Htrack T1) as Track1. pose proof (Htrack T2) as Track2.
  simpl in Track1, Track2. clear Htrack Hok.
  destruct t; simpl in Hstep.
  - destruct p1 as [| | |rest| |]; simpl in Hstep; try discriminate.
    + inversion Hstep; subst; clear Hstep.
      repeat split; simpl; [now destruct (ld_ready L s')|assumption|].
      intros t rest. destruct t; simpl; [now destruct (ld_ready L s')|auto].
    + destruct lk; [discriminate|]. inversion Hstep; subst; clear Hstep.
      repeat split; simpl; [assumption|].
      intros t rest. destruct t; simpl; [discriminate|auto].
    + destruct (ld_ready L sh); inversion Hstep; subst; clear Hstep;
        (repeat split; simpl; [assumption|]);
        intros t rest; destruct t; simpl; auto; try discriminate.
      intros H. inversion H; subst. apply body_total.
    + assert (Hp2 : in_body p2 = false).
      { destruct Hone as [Ha _]. specialize (Ha eq_refl). subst lk.
        destruct p2; try reflexivity. destruct Htwo as [Hc _].
        specialize (Hc eq_refl). discriminate. }
      destruct rest as [|a rest].
      * inversion Hstep; subst; clear Hstep.
        repeat split; simpl; [assumption|].
        intros t rest. destruct t; simpl; [discriminate|auto].
      * destruct (on_track_next a rest sh (Track1 _ eq_refl))
          as [s1 [Ha Hrest]].
        rewrite Ha in Hstep. inversion Hstep; subst; clear Hstep.
        repeat split; simpl; [assumption|].
        intros t rest0. destruct t; simpl.
        -- intros H. inversion H; subst. assumption.
        -- intros H. subst p2. discriminate.
  - destruct p2 as [| | |rest| |]; simpl in Hstep; try discriminate.
    + inversion Hstep; subst; clear Hstep.
      repeat split; simpl; [assumption|now destruct (ld_ready L s')|].
      intros t rest. destruct t; simpl; [auto|now destruct (ld_ready L s')].
    + destruct lk; [discriminate|]. inversion Hstep; subst; clear Hstep.
      repeat split; simpl; [assumption|].
      intros t rest. destruct t; simpl; [auto|discriminate].
    + destruct (ld_ready L sh); inversion Hstep; subst; clear Hstep;
        (repeat split; simpl; [assumption|]);
        intros t rest; destruct t; simpl; auto; try discriminate.
      intros H. inversion H; subst. apply body_total.
    + assert (Hp1 : in_body p1 = false).
      { destruct Htwo as [Ha _]. specialize (Ha eq_refl). subst lk.
        destruct p1; try reflexivity. destruct Hone as [Hc _].
        specialize (Hc eq_refl). discriminate. }
      destruct rest as [|a rest].
      * inversion Hstep; subst; clear Hstep.
        repeat split; simpl; [assumption|].
        intros t rest. destruct t; simpl; [auto|discriminate].
      * destruct (on_track_next a rest sh (Track2 _ eq_refl))
          as [s1 [Ha Hrest]].
        rewrite Ha in Hstep. inversion Hstep; subst; clear Hstep.
        repeat split; simpl; [assumption|].
        intros t rest0. destruct t; simpl.
        -- intros H. subst p1. discriminate.
        -- intros H. inversion H; subst. assumption.
Qed.

Lemma calm_steps m m' :
  steps L m m' -> lock_ok m -> calm m -> calm m'.
Proof.
  induction 1 as [m|m1 m2 m3 H12 IH Hstep]; [trivial|].
  intros Hok Hcalm. eapply calm_step; [|apply IH; assumption|exact Hstep].
  eapply lock_ok_steps; eassumption.
Qed.

(** Then every interleaving that cannot go on has both callers returned. *)
Lemma callers_return s m :
  steps L (start s) m -> stuck L m ->
  ph1 m = Returned /\ ph2 m = Returned.
Proof.
  intros Hsteps Hstuck.
  pose proof (lock_ok_steps _ _ _ Hsteps (lock_ok_start s)) as Hok.
  destruct (calm_steps _ _ Hsteps (lock_ok_start s) (calm_start s))
    as (Hr1 & Hr2 & _).
  destruct (no_deadlock _ _ Hok Hstuck) as [Hf1 Hf2].
  destruct (ph1 m), (ph2 m); try discriminate. now split.
Qed.

End Reliable.

(** *** One caller in the machine *)

Lemma solo_body L rest sh :
  exists k,
    run L (turns T1 k)
      {| shared := sh; lock := Some T1; ph1 := InBody rest;
         ph2 := AtFastCheck |} =
    {| shared :=
         snd (try_except (seq_steps rest)
                (fun exc => raise (ld_failed L exc)) sh);
       lock := None;
       ph1 := outcome (fst (try_except (seq_steps rest)
                              (fun exc => raise (ld_failed L exc)) sh));
       ph2 := AtFastCheck |}.
Proof.
  revert sh. induction rest as [|a rest IH]; intros sh.
  - exists 1. reflexivity.
  - destruct (a sh) as [[[]|e] s1] eqn:Ea.
    + destruct (IH s1) as [k Hk]. exists (S k). simpl. rewrite Ea. simpl.
      rewrite Hk. unfold try_except, bind. simpl. rewrite Ea. reflexivity.
    + exists 1. simpl. rewrite Ea. unfold try_except, bind. simpl.
      rewrite Ea. reflexivity.
Qed.

(** A caller left alone goes through the machine as [load] says. *)
Lemma solo_run L s :
  exists k,
    run L (turns T1 k) (start s) =
    {| shared := snd (load L s); lock := None;
       ph1 := outcome (fst (load L s)); ph2 := AtFastCheck |}.
Proof.
  destruct (ld_ready L s) eqn:Hr.
  - exists 1. simpl. rewrite Hr, (load_ready L s Hr). reflexivity.
  - destruct (solo_body L (ld_steps L) s) as [k Hk].
    exists (S (S (S k))). simpl. repeat (rewrite Hr; simpl).
    rewrite Hk, (load_not_ready L s Hr). reflexivity.
Qed.

(** *** The two loaders *)

Lemma load_model_protocol k cfg w s :
  load_model k cfg w s = load (loader_of k cfg w) s.
Proof.
  destruct k; [apply load_blip_model_protocol
              |apply load_alt_refinement_model_protocol].
Qed.

Lemma body_loads_model k cfg w s s' :
  seq_steps (ld_steps (loader_of k cfg w)) s = (Returns tt, s') ->
  ld_ready (loader_of k cfg w) s' = true /\
  model_loads k s' = S (model_loads k s).
Proof.
  destruct k; simpl; intros H;
    [apply blip_body_once in H|apply alt_body_once in H]; tauto.
Qed.

Lemma body_loads_helper k cfg w s s' :
  seq_steps (ld_steps (loader_of k cfg w)) s = (Returns tt, s') ->
  ld_ready (loader_of k cfg w) s' = true /\
  helper_loads k s' = S (helper_loads k s).
Proof.
  destruct k; simpl; intros H;
    [apply blip_body_once in H|apply alt_body_once in H]; tauto.
Qed.

Lemma ready_loader k cfg w s : ld_ready (loader_of k cfg w) s = ready k s.
Proof. destruct k; reflexivity. Qed.

(** With a reliable runtime the [try] blocks of both loaders succeed. *)
Lemma body_total k cfg w :
  reliable w -> forall s, on_track (ld_steps (loader_of k cfg w)) s.
Proof.
  intros Hrel s. unfold on_track. destruct k; simpl.
  - unfold blip_load_processor, blip_load_weights, blip_move_to_mps,
      blip_eval, bind, call, modify, deref, ret. simpl.
    rewrite (rel_blip_processor w Hrel). simpl.
    rewrite (rel_blip_model w Hrel). simpl.
    match goal with
    | |- context [mps_is_available w ?h] =>
        destruct (rel_mps w Hrel h) as [b Hb]; rewrite Hb
    end.
    destruct b; simpl; rewrite ?(rel_to_mps w Hrel); simpl;
      rewrite (rel_eval w Hrel); eexists; reflexivity.
  - unfold alt_load_tokenizer, alt_set_pad_token, alt_load_weights,
      alt_eval, alt_move_to_mps, try_except, bind, call, modify, deref, ret.
    simpl. rewrite (rel_tokenizer w Hrel). simpl.
    rewrite (rel_alt_model w Hrel). simpl.
    rewrite (rel_eval w Hrel). simpl.
    match goal with
    | |- context [mps_is_available w ?h] =>
        destruct (rel_mps w Hrel h) as [b Hb]; rewrite Hb
    end.
    destruct b; simpl; rewrite ?(rel_to_mps w Hrel); simpl;
      eexists; reflexivity.
Qed.

(** C9.  A call that finds the handles of its model set returns at once and
    leaves the state, history included, as it was.  Starting with the
    handles not set: a call that returns has set them and has called each
    [from_pretrained] of its model once, and a second call returns without
    loading; and for two callers running the operation in any interleaving,
    once both have returned the handles are set and each [from_pretrained]
    has been called once. *)
Theorem model_loads_once k cfg w s :
  ready k s = false ->
  (forall s0,
     ready k s0 = true -> load_model k cfg w s0 = (Returns tt, s0)) /\
  (forall s1,
     load_model k cfg w s = (Returns tt, s1) ->
     ready k s1 = true /\
     model_loads k s1 = S (model_loads k s) /\
     helper_loads k s1 = S (helper_loads k s) /\
     load_model k cfg w s1 = (Returns tt, s1)) /\
  (forall m,
     steps (loader_of k cfg w) (start s) m ->
     ph1 m = Returned -> ph2 m = Returned ->
     ready k (shared m) = true /\
     model_loads k (shared m) = S (model_loads k s) /\
     helper_loads k (shared m) = S (helper_loads k s)).
Proof.
  intros Hr. rewrite <- (ready_loader k cfg w) in Hr.
  split; [|split].
  - intros s0 H0. rewrite load_model_protocol. apply load_ready.
    now rewrite ready_loader.
  - intros s1 Hload. rewrite load_model_protocol in Hload.
    destruct (load_twice _ _ (body_loads_model k cfg w) s s1 Hr Hload)
      as (Hready & Hmodel & Hagain).
    destruct (load_twice _ _ (body_loads_helper k cfg w) s s1 Hr Hload)
      as (_ & Hhelper & _).
    rewrite load_model_protocol, <- ready_loader with (cfg := cfg) (w := w).
    auto.
  - intros m Hsteps H1 H2.
    destruct (callers_agree _ _ (body_loads_model k cfg w) s m Hr Hsteps H1 H2)
      as [Hready Hmodel].
    destruct (callers_agree _ _ (body_loads_helper k cfg w) s m Hr Hsteps H1 H2)
      as [_ Hhelper].
    rewrite <- ready_loader with (cfg := cfg) (w := w). auto.
Qed.

Lemma model_loads_once_witness :
  ready Captioner
    (shared (run (loader_of Captioner default_config
                    (Doubles.working Doubles.cat_caption Doubles.cat_caption))
               Doubles.interleaved (start initial_state))) = true /\
  model_loads Captioner
    (shared (run (loader_of Captioner default_config
                    (Doubles.working Doubles.cat_caption Doubles.cat_caption))
               Doubles.interleaved (start initial_state))) = 1.
Proof.
  destruct (model_loads_once Captioner default_config
              (Doubles.working Doubles.cat_caption Doubles.cat_caption)
              initial_state eq_refl) as (_ & _ & Htwo).
  destruct (Htwo (run (loader_of Captioner default_config
                         (Doubles.working Doubles.cat_caption
                            Doubles.cat_caption))
                    Doubles.interleaved (start initial_state)))
    as (Hready & Hloads & _).
  - apply run_steps.
  - vm_compute. reflexivity.
  - vm_compute. reflexivity.
  - split; [exact Hready|exact Hloads].
Defined.

(** With a reliable runtime, two callers always both return: whatever the
    interleaving, when neither can move both have returned, the handles
    are set and the model has been loaded once. *)
Corollary callers_served k cfg w s m :
  reliable w -> ready k s = false ->
  steps (loader_of k cfg w) (start s) m -> stuck (loader_of k cfg w) m ->
  ph1 m = Returned /\ ph2 m = Returned /\
  ready k (shared m) = true /\ model_loads k (shared m) = S (model_loads k s).
Proof.
  intros Hrel Hr Hsteps Hstuck.
  destruct (callers_return _ (body_total k cfg w Hrel) s m Hsteps Hstuck)
    as [H1 H2].
  rewrite <- (ready_loader k cfg w) in Hr.
  destruct (callers_agree _ _ (body_loads_model k cfg w) s m Hr Hsteps H1 H2)
    as [Hready Hmodel].
  rewrite <- ready_loader with (cfg := cfg) (w := w). auto.
Qed.

End Registry.

(** * Further properties *)

(** ** What an operation leaves untouched *)

Module Frames.

Lemma untouched_refl k s : untouched k s s.
Proof. now constructor. Qed.

Lemma untouched_trans k s1 s2 s3 :
  untouched k s1 s2 -> untouched k s2 s3 -> untouched k s1 s3.
Proof.
  intros [A1 A2 A3 A4] [B1 B2 B3 B4].
  constructor; [now rewrite B1|now rewrite B2|now rewrite B3|now rewrite B4].
Qed.

Lemma untouched_ready k s s' : untouched k s s' -> ready k s' = ready k s.
Proof.
  intros [Hm Hh _ _]. destruct k; simpl in *;
    unfold blip_ready, alt_ready; now rewrite Hm, Hh.
Qed.

Lemma untouched_log k ev s :
  loads_for k ev = false -> untouched k s (log_event ev s).
Proof.
  intros H. destruct k; simpl in H; apply orb_false_iff in H as [H1 H2];
    constructor; try reflexivity; simpl; unfold count_events, log_event;
    simpl; rewrite filter_app; simpl; rewrite ?H1, ?H2;
    now rewrite app_nil_r.
Qed.

Lemma leaves_ret {A} k (a : A) : leaves k (ret a).
Proof. intros s r s' H. inversion H. apply untouched_refl. Qed.

Lemma leaves_raise {A} k e : leaves k (@raise A e).
Proof. intros s r s' H. inversion H. apply untouched_refl. Qed.

Lemma leaves_bind {A B} k (m : M A) (f : A -> M B) :
  leaves k m -> (forall a, leaves k (f a)) -> leaves k (bind m f).
Proof.
  intros Hm Hf s r s' H. unfold bind in H.
  destruct (m s) as [[a|e] s1] eqn:E.
  - eapply untouched_trans; [eapply Hm, E|eapply Hf, H].
  - inversion H; subst. eapply Hm, E.
Qed.

Lemma leaves_try {A} k (m : M A) (h : exn -> M A) :
  leaves k m -> (forall e, leaves k (h e)) -> leaves k (try_except m h).
Proof.
  intros Hm Hh s r s' H. unfold try_except in H.
  destruct (m s) as [[a|e] s1] eqn:E.
  - inversion H; subst. eapply Hm, E.
  - eapply untouched_trans; [eapply Hm, E|eapply Hh, H].
Qed.

Lemma leaves_call {A} k ev (oracle : list event -> result A) :
  loads_for k ev = false -> leaves k (call ev oracle).
Proof.
  intros Hev s r s' H. inversion H. now apply untouched_log.
Qed.

Lemma leaves_deref {A} k (g : state -> option A) : leaves k (deref g).
Proof.
  intros s r s' H. unfold deref in H.
  destruct (g s); inversion H; apply untouched_refl.
Qed.

Lemma leaves_first {A} k (xs : list A) : leaves k (first xs).
Proof. destruct xs; [apply leaves_raise|apply leaves_ret]. Qed.

Lemma leaves_getitem {V} k (d : list (string * V)) key :
  leaves k (getitem d key).
Proof.
  unfold getitem. destruct (lookup key d); [apply leaves_ret|apply leaves_raise].
Qed.

Lemma leaves_gets {A} k (f : state -> A) : leaves k (gets f).
Proof. intros s r s' H. inversion H. apply untouched_refl. Qed.

Lemma leaves_move_to_mps k w inputs : leaves k (move_to_mps w inputs).
Proof.
  induction inputs as [|[key v] rest IH]; simpl; [apply leaves_ret|].
  apply leaves_bind; [apply leaves_call; now destruct k|intros v'].
  apply leaves_bind; [exact IH|intros rest']. apply leaves_ret.
Qed.

Ltac frame k :=
  repeat first
    [ apply leaves_ret | apply leaves_raise | apply leaves_deref
    | apply leaves_first | apply leaves_getitem | apply leaves_gets
    | apply leaves_move_to_mps
    | apply leaves_call; now destruct k
    | apply leaves_bind; [|intros ?]
    | apply leaves_try; [|intros ?]
    | match goal with
      | |- leaves _ (if ?b then _ else _) => destruct b
      end ].

(** Inference touches neither model of the registry. *)
Lemma leaves_blip_describe k w img : leaves k (blip_describe w img).
Proof. unfold blip_describe. frame k. Qed.

Lemma leaves_blip_caption k w image_data : leaves k (blip_caption w image_data).
Proof. unfold blip_caption. frame k. Qed.

Lemma leaves_alt_generation k cfg w caption_text :
  leaves k (alt_generation cfg w caption_text).
Proof. unfold alt_generation. cbv zeta. frame k. Qed.

End Frames.

(** ** The registry under failure *)

Module Loads.

Import Registry Frames.

Lemma leaves_modify k f :
  (forall s, untouched k s (f s)) -> leaves k (modify f).
Proof. intros Hf s r s' H. inversion H. apply Hf. Qed.

Ltac frame_load k :=
  repeat first
    [ apply leaves_ret | apply leaves_raise | apply leaves_deref
    | apply leaves_gets
    | apply leaves_call; reflexivity
    | apply leaves_modify; intros ?; constructor; reflexivity
    | apply leaves_bind; [|intros ?]
    | apply leaves_try; [|intros ?]
    | match goal with
      | |- leaves _ (if ?b then _ else _) => destruct b
      end ].

(** Loading one model leaves the other untouched, whatever the outcome. *)
Lemma leaves_load_other k cfg w : leaves (other_model k) (load_model k cfg w).
Proof.
  destruct k; simpl.
  - unfold load_blip_model, blip_load_body, blip_load_processor,
      blip_load_weights, blip_move_to_mps, blip_eval. frame_load Refiner.
  - unfold load_alt_refinement_model, alt_load_body, alt_load_tokenizer,
      alt_set_pad_token, alt_load_weights, alt_eval, alt_move_to_mps.
    frame_load Captioner.
Qed.

Lemma load_model_ready k cfg w s :
  ready k s = true -> load_model k cfg w s = (Returns tt, s).
Proof.
  intros H. rewrite load_model_protocol. apply load_ready.
  now rewrite ready_loader.
Qed.

Lemma load_model_not_ready k cfg w s :
  ready k s = false ->
  load_model k cfg w s =
  try_except (seq_steps (ld_steps (loader_of k cfg w)))
             (fun exc => raise (load_failed k exc)) s.
Proof.
  intros H. rewrite load_model_protocol, load_not_ready.
  - destruct k; reflexivity.
  - now rewrite ready_loader.
Qed.

Lemma load_raises_body k cfg w s e s' :
  load_model k cfg w s = (Raises e, s') ->
  ready k s = false /\
  exists exc,
    seq_steps (ld_steps (loader_of k cfg w)) s = (Raises exc, s') /\
    e = load_failed k exc.
Proof.
  intros H. destruct (ready k s) eqn:Hr.
  - rewrite load_model_ready in H by assumption. discriminate.
  - split; [reflexivity|]. rewrite load_model_not_ready in H by assumption.
    unfold try_except, raise in H.
    destruct (seq_steps (ld_steps (loader_of k cfg w)) s) as [[[]|exc] s1];
      [discriminate|].
    inversion H; subst. exists exc. now split.
Qed.

(** X1.  A load operation raises nothing but its own [RuntimeError]: the
    message is the fixed prefix followed by [str(exc)] of the exception
    that stopped the [try] block, and the handles were not both set when
    the call began. *)
Theorem load_model_raises k cfg w s e s' :
  load_model k cfg w s = (Raises e, s') ->
  ready k s = false /\
  exists exc,
    seq_steps (ld_steps (loader_of k cfg w)) s = (Raises exc, s') /\
    e = RuntimeError
          ((match k with
            | Captioner => py "BLIP model load failed: "
            | Refiner => py "alt refinement model load failed: "
            end) ++ exn_str exc).
Proof.
  intros H. destruct (load_raises_body k cfg w s e s' H) as [Hr [exc [Hb ->]]].
  split; [assumption|]. exists exc. split; [assumption|]. now destruct k.
Qed.

Lemma load_model_raises_witness :
  fst (load_model Refiner default_config Doubles.offline initial_state) =
  Raises (RuntimeError
            (py "alt refinement model load failed: connection refused")).
Proof.
  destruct (load_model Refiner default_config Doubles.offline initial_state)
    as [[[]|e] s'] eqn:E; [vm_compute in E; discriminate|].
  destruct (load_model_raises Refiner default_config Doubles.offline
              initial_state e s' E) as [_ [exc [Hbody ->]]].
  vm_compute in Hbody. inversion Hbody. reflexivity.
Defined.

(** *** Counting the loads of a call *)

Ltac adds_step :=
  unfold adds; simpl; intros s r s' H; run_body; split; count_history.

Lemma adds_blip_load_processor cfg w :
  adds Captioner 1 0 (blip_load_processor cfg w).
Proof. unfold blip_load_processor. adds_step. Qed.

Lemma adds_blip_load_weights cfg w :
  adds Captioner 0 1 (blip_load_weights cfg w).
Proof. unfold blip_load_weights. adds_step. Qed.

Lemma adds_blip_move_to_mps w : adds Captioner 0 0 (blip_move_to_mps w).
Proof. unfold blip_move_to_mps. adds_step. Qed.

Lemma adds_blip_eval w : adds Captioner 0 0 (blip_eval w).
Proof. unfold blip_eval. adds_step. Qed.

Lemma adds_alt_load_tokenizer cfg w :
  adds Refiner 1 0 (alt_load_tokenizer cfg w).
Proof. unfold alt_load_tokenizer. adds_step. Qed.

Lemma adds_alt_set_pad_token : adds Refiner 0 0 alt_set_pad_token.
Proof. unfold alt_set_pad_token. adds_step. Qed.

Lemma adds_alt_load_weights cfg w :
  adds Refiner 0 1 (alt_load_weights cfg w).
Proof. unfold alt_load_weights. adds_step. Qed.

Lemma adds_alt_eval w : adds Refiner 0 0 (alt_eval w).
Proof. unfold alt_eval. adds_step. Qed.

Lemma adds_alt_move_to_mps w : adds Refiner 0 0 (alt_move_to_mps w).
Proof. unfold alt_move_to_mps. adds_step. Qed.

Ltac walk H lem :=
  let E := fresh "E" in
  let Hh := fresh "Hh" in
  let Hm := fresh "Hm" in
  match type of H with
  | bind ?a _ ?s = _ =>
      unfold bind at 1 in H;
      destruct (a s) as [[[]|?] ?] eqn:E;
      destruct (lem _ _ _ E) as [Hh Hm]; simpl in Hh, Hm;
      [|inversion H; subst; clear H; lia]
  end.

Lemma body_counts k cfg w s r s' :
  seq_steps (ld_steps (loader_of k cfg w)) s = (r, s') ->
  helper_loads k s' = S (helper_loads k s) /\
  model_loads k s' <= S (model_loads k s).
Proof.
  destruct k; simpl; intros H.
  - walk H (adds_blip_load_processor cfg w).
    walk H (adds_blip_load_weights cfg w).
    walk H (adds_blip_move_to_mps w).
    walk H (adds_blip_eval w).
    inversion H; subst; lia.
  - walk H (adds_alt_load_tokenizer cfg w).
    walk H adds_alt_set_pad_token.
    walk H (adds_alt_load_weights cfg w).
    walk H (adds_alt_eval w).
    walk H (adds_alt_move_to_mps w).
    inversion H; subst; lia.
Qed.

(** X2.  A call that finds the handles of its model not both set calls the
    [from_pretrained] of the processor or tokenizer exactly once and that of
    the model at most once, whether it returns or raises, and leaves the
    other model untouched. *)
Theorem load_model_attempt k cfg w s r s' :
  ready k s = false ->
  load_model k cfg w s = (r, s') ->
  helper_loads k s' = S (helper_loads k s) /\
  model_loads k s' <= S (model_loads k s) /\
  untouched (other_model k) s s'.
Proof.
  intros Hr H.
  assert (Hother : untouched (other_model k) s s')
    by (eapply leaves_load_other; exact H).
  rewrite load_model_not_ready in H by assumption.
  unfold try_except, raise in H.
  destruct (seq_steps (ld_steps (loader_of k cfg w)) s) as [[[]|exc] s1] eqn:E;
    inversion H; subst; destruct (body_counts k cfg w s _ _ E); auto.
Qed.

Lemma load_model_attempt_witness :
  helper_loads Captioner
    (after (load_model Captioner default_config Doubles.offline)
       initial_state) = 1 /\
  model_loads Captioner
    (after (load_model Captioner default_config Doubles.offline)
       initial_state) <= 1.
Proof.
  destruct (load_model_attempt Captioner default_config Doubles.offline
              initial_state
              (fst (load_model Captioner default_config Doubles.offline
                      initial_state))
              (after (load_model Captioner default_config Doubles.offline)
                 initial_state) eq_refl) as (Hh & Hm & _).
  - unfold after. now destruct (load_model Captioner default_config
                                  Doubles.offline initial_state).
  - split; [exact Hh|exact Hm].
Defined.

(** *** A load that fails after the weights are assigned *)

Ltac stopped_step :=
  intros H; run_body;
  unfold set_BLIP_MODEL, set_BLIP_PROCESSOR, set_ALT_MODEL, set_ALT_TOKENIZER,
    log_event in *; simpl in *;
  try reflexivity; try congruence.

(** The statements before the weights are assigned leave the model handle
    as it was; so does the assignment itself when [from_pretrained] raises. *)
Lemma blip_load_processor_model cfg w s r s' :
  blip_load_processor cfg w s = (r, s') -> BLIP_MODEL s' = BLIP_MODEL s.
Proof. unfold blip_load_processor. stopped_step. Qed.

Lemma blip_load_weights_raises cfg w s e s' :
  blip_load_weights cfg w s = (Raises e, s') -> BLIP_MODEL s' = BLIP_MODEL s.
Proof. unfold blip_load_weights. stopped_step. Qed.

Lemma alt_load_tokenizer_model cfg w s r s' :
  alt_load_tokenizer cfg w s = (r, s') -> ALT_MODEL s' = ALT_MODEL s.
Proof. unfold alt_load_tokenizer. stopped_step. Qed.

Lemma alt_set_pad_token_model s r s' :
  alt_set_pad_token s = (r, s') -> ALT_MODEL s' = ALT_MODEL s.
Proof. unfold alt_set_pad_token. stopped_step. Qed.

Lemma alt_load_weights_raises cfg w s e s' :
  alt_load_weights cfg w s = (Raises e, s') -> ALT_MODEL s' = ALT_MODEL s.
Proof. unfold alt_load_weights. stopped_step. Qed.

Ltac name_call :=
  unfold last_call, log_event; simpl;
  match goal with
  | |- exists ev, (exists history, ?h ++ [?e] = history ++ [ev]) /\ _ =>
      exists e; split; [exists h; reflexivity|reflexivity]
  end.

(** The statements after the weights are assigned: when one of them raises
    with the model handle set, a runtime call of it has failed. *)
Lemma blip_move_to_mps_raises w s e s' :
  blip_move_to_mps w s = (Raises e, s') ->
  BLIP_MODEL s' <> None ->
  exists ev, last_call s' ev /\ finishing_call Captioner ev = true.
Proof.
  unfold blip_move_to_mps. intros H Hset. run_body;
    first [name_call|congruence].
Qed.

Lemma blip_eval_raises w s e s' :
  blip_eval w s = (Raises e, s') ->
  BLIP_MODEL s' <> None ->
  exists ev, last_call s' ev /\ finishing_call Captioner ev = true.
Proof.
  unfold blip_eval. intros H Hset. run_body;
    first [name_call|congruence].
Qed.

Lemma alt_eval_raises w s e s' :
  alt_eval w s = (Raises e, s') ->
  ALT_MODEL s' <> None ->
  exists ev, last_call s' ev /\ finishing_call Refiner ev = true.
Proof.
  unfold alt_eval. intros H Hset. run_body;
    first [name_call|congruence].
Qed.

(** The move of the refiner to MPS swallows its failures. *)
Lemma alt_move_to_mps_returns w s :
  exists s', alt_move_to_mps w s = (Returns tt, s').
Proof.
  unfold alt_move_to_mps. unfold try_except, bind, call, deref, modify, ret.
  simpl.
  repeat match goal with
         | |- context [match ?x with _ => _ end] => destruct x
         end;
    repeat match goal with a : unit |- _ => destruct a end; eauto.
Qed.

(** One statement of a [try] block that cannot be the one that stopped it:
    either it returned, or the model handle is still unset. *)
Ltac pass H lem :=
  let E := fresh "E" in
  match type of H with
  | bind ?a _ ?s = _ =>
      unfold bind at 1 in H;
      destruct (a s) as [[[]|?] ?] eqn:E;
      [try (apply lem in E)
      |inversion H; subst; clear H; apply lem in E; congruence]
  end.

(** When the [try] block of a loader that began without a model raises and
    leaves a model, the failure is that of a call made after the weights
    were assigned. *)
Lemma body_raises_with_model k cfg w s e s' :
  seq_steps (ld_steps (loader_of k cfg w)) s = (Raises e, s') ->
  model_handle k s = None ->
  model_handle k s' <> None ->
  exists ev, last_call s' ev /\ finishing_call k ev = true.
Proof.
  destruct k; simpl; intros H Hnone Hset.
  - pass H (blip_load_processor_model cfg w).
    pass H (blip_load_weights_raises cfg w).
    unfold bind at 1 in H.
    destruct (blip_move_to_mps w s1) as [[[]|e2] s2] eqn:E2;
      [|inversion H; subst; eapply blip_move_to_mps_raises; eassumption].
    unfold bind in H.
    destruct (blip_eval w s2) as [[[]|e3] s3] eqn:E3; [discriminate|].
    inversion H; subst. eapply blip_eval_raises; eassumption.
  - pass H (alt_load_tokenizer_model cfg w).
    pass H alt_set_pad_token_model.
    pass H (alt_load_weights_raises cfg w).
    unfold bind at 1 in H.
    destruct (alt_eval w s2) as [[[]|e3] s3] eqn:E3;
      [|inversion H; subst; eapply alt_eval_raises; eassumption].
    unfold bind in H. destruct (alt_move_to_mps_returns w s3) as [s4 E4].
    rewrite E4 in H. discriminate.
Qed.

Lemma ready_model_set k s : ready k s = true -> model_handle k s <> None.
Proof.
  destruct k; simpl; unfold blip_ready, alt_ready;
    [destruct (BLIP_MODEL s)|destruct (ALT_MODEL s)]; discriminate.
Qed.

(** X3.  If a first load raises although both handles end up set, what
    failed is a call made after the weights were assigned: for the
    captioner the MPS test, the move to the device or [eval()], for the
    refiner [eval()].  The registry then counts as ready: the next call
    returns at once and makes no runtime call, so the statement that failed
    is not run again. *)
Theorem load_model_half_done k cfg w s e s' :
  model_handle k s = None ->
  load_model k cfg w s = (Raises e, s') ->
  ready k s' = true ->
  (exists ev, last_call s' ev /\ finishing_call k ev = true) /\
  load_model k cfg w s' = (Returns tt, s').
Proof.
  intros Hnone H Hr.
  destruct (load_raises_body k cfg w s e s' H) as [_ [exc [Hbody _]]].
  split; [|now apply load_model_ready].
  eapply body_raises_with_model; [exact Hbody|exact Hnone|].
  now apply ready_model_set.
Qed.

Lemma load_model_half_done_witness :
  (exists ev,
     last_call (after (load_model Captioner default_config Faults.eval_fails)
                  initial_state) ev /\
     finishing_call Captioner ev = true) /\
  load_model Captioner default_config Faults.eval_fails
    (after (load_model Captioner default_config Faults.eval_fails)
       initial_state) =
  (Returns tt,
   after (load_model Captioner default_config Faults.eval_fails)
     initial_state).
Proof.
  apply (load_model_half_done Captioner default_config Faults.eval_fails
           initial_state
           (RuntimeError (py "BLIP model load failed: eval failed"))).
  - reflexivity.
  - vm_compute. reflexivity.
  - vm_compute. reflexivity.
Defined.

(** In that run the call that failed is [eval()]. *)
Example eval_fails_last_call :
  events (after (load_model Captioner default_config Faults.eval_fails)
            initial_state) =
  [EvBlipProcessorFromPretrained (BLIP_MODEL_NAME default_config);
   EvBlipModelFromPretrained (BLIP_MODEL_NAME default_config);
   EvMpsIsAvailable;
   EvModuleEval (BLIP_MODEL_NAME default_config)].
Proof. reflexivity. Qed.

(** *** Start-up *)

Lemma load_model_reliable k cfg w s :
  reliable w ->
  exists s', load_model k cfg w s = (Returns tt, s') /\ ready k s' = true.
Proof.
  intros Hrel. destruct (ready k s) eqn:Hr.
  - exists s. split; [now apply load_model_ready|assumption].
  - destruct (body_total k cfg w Hrel s) as [s' Hbody].
    exists s'. rewrite load_model_not_ready by assumption.
    unfold try_except. rewrite Hbody. split; [reflexivity|].
    rewrite <- (ready_loader k cfg w).
    now destruct (body_loads_model k cfg w s s' Hbody).
Qed.

Lemma working_reliable c g : reliable (Doubles.working c g).
Proof. constructor; intros; try reflexivity. now exists false. Qed.

(** X4.  [startup] never raises; with a runtime in which loading does not
    fail it leaves both models ready. *)
Theorem startup_returns cfg w s :
  (exists s', startup cfg w s = (Returns tt, s')) /\
  (reliable w ->
   forall r s', startup cfg w s = (r, s') ->
                ready Captioner s' = true /\ ready Refiner s' = true).
Proof.
  unfold startup, try_except, bind, ret. split.
  - destruct (load_blip_model cfg w s) as [[[]|e] s1]; [|eauto].
    destruct (load_alt_refinement_model cfg w s1) as [[[]|e] s2]; eauto.
  - intros Hrel r s'.
    destruct (load_model_reliable Captioner cfg w s Hrel) as [s1 [H1 R1]].
    destruct (load_model_reliable Refiner cfg w s1 Hrel) as [s2 [H2 R2]].
    simpl in H1, H2. rewrite H1, H2. intros H. inversion H; subst.
    split; [|assumption].
    pose proof (leaves_load_other Refiner cfg w s1 _ _ H2) as Hu.
    apply untouched_ready in Hu. simpl in *. congruence.
Qed.

Lemma startup_returns_witness :
  ready Captioner
    (after (startup default_config
              (Doubles.working Doubles.cat_caption Doubles.cat_caption))
       initial_state) = true /\
  ready Refiner
    (after (startup default_config
              (Doubles.working Doubles.cat_caption Doubles.cat_caption))
       initial_state) = true.
Proof.
  apply (proj2 (startup_returns default_config
                  (Doubles.working Doubles.cat_caption Doubles.cat_caption)
                  initial_state)
               (working_reliable _ _)
               (fst (startup default_config
                       (Doubles.working Doubles.cat_caption Doubles.cat_caption)
                       initial_state))).
  unfold after.
  now destruct (startup default_config
                  (Doubles.working Doubles.cat_caption Doubles.cat_caption)
                  initial_state).
Defined.

(** X5.  If the captioner fails to load at start-up, the refiner is not
    loaded either: [startup] returns in the state the failed load left, with
    the refiner's handles as they were and no [from_pretrained] call made
    for it. *)
Theorem startup_stops_at_first_failure cfg w s e s1 :
  load_blip_model cfg w s = (Raises e, s1) ->
  startup cfg w s = (Returns tt, s1) /\ untouched Refiner s s1.
Proof.
  intros H. split.
  - unfold startup, try_except, bind, ret. now rewrite H.
  - exact (leaves_load_other Captioner cfg w s _ _ H).
Qed.

Lemma startup_stops_at_first_failure_witness :
  helper_loads Refiner
    (after (startup default_config Doubles.offline) initial_state) = 0 /\
  ready Refiner
    (after (startup default_config Doubles.offline) initial_state) = false.
Proof.
  destruct (startup_stops_at_first_failure default_config Doubles.offline
              initial_state
              (RuntimeError (py "BLIP model load failed: connection refused"))
              (after (load_blip_model default_config Doubles.offline)
                 initial_state))
    as [Hrun Hu].
  - vm_compute. reflexivity.
  - unfold after at 1 2. rewrite Hrun. simpl snd.
    rewrite (same_helper_loads _ _ _ Hu), (untouched_ready _ _ _ Hu).
    split; reflexivity.
Defined.

End Loads.

(** ** Requests and the registry *)

Module Requests.

Import Registry Frames Loads.

Lemma keeps_of_leaves {A} k (m : M A) : leaves k m -> keeps k m.
Proof. intros H s r s' _ Hm. eapply H, Hm. Qed.

Lemma keeps_bind {A B} k (m : M A) (f : A -> M B) :
  keeps k m -> (forall a, keeps k (f a)) -> keeps k (bind m f).
Proof.
  intros Hm Hf s r s' Hr H. unfold bind in H.
  destruct (m s) as [[a|e] s1] eqn:E.
  - pose proof (Hm _ _ _ Hr E) as U1.
    eapply untouched_trans; [exact U1|].
    eapply Hf; [|exact H]. now rewrite (untouched_ready _ _ _ U1).
  - inversion H; subst. eapply Hm; eassumption.
Qed.

Lemma keeps_try {A} k (m : M A) (h : exn -> M A) :
  keeps k m -> (forall e, keeps k (h e)) -> keeps k (try_except m h).
Proof.
  intros Hm Hh s r s' Hr H. unfold try_except in H.
  destruct (m s) as [[a|e] s1] eqn:E.
  - inversion H; subst. eapply Hm; eassumption.
  - pose proof (Hm _ _ _ Hr E) as U1.
    eapply untouched_trans; [exact U1|].
    eapply Hh; [|exact H]. now rewrite (untouched_ready _ _ _ U1).
Qed.

(** A load operation leaves a ready model alone, be it its own or the
    other one. *)
Lemma keeps_load k k' cfg w : keeps k (load_model k' cfg w).
Proof.
  intros s r s' Hr H.
  destruct k, k';
    try (rewrite load_model_ready in H by assumption;
         inversion H; apply untouched_refl).
  - exact (leaves_load_other Refiner cfg w _ _ _ H).
  - exact (leaves_load_other Captioner cfg w _ _ _ H).
Qed.

Lemma keeps_infer_caption_from_data k cfg w image_data fname ctype :
  keeps k (infer_caption_from_data cfg w image_data fname ctype).
Proof.
  unfold infer_caption_from_data.
  apply keeps_bind; [exact (keeps_load k Captioner cfg w)|intros _].
  apply keeps_of_leaves, leaves_try;
    [apply leaves_blip_caption|intros e; apply leaves_ret].
Qed.

Lemma keeps_refine_alt_text k cfg w caption_text :
  keeps k (refine_alt_text cfg w caption_text).
Proof.
  unfold refine_alt_text.
  apply keeps_bind; [exact (keeps_load k Refiner cfg w)|intros _].
  apply keeps_of_leaves, leaves_try; [|intros e; apply leaves_ret].
  apply leaves_bind; [apply leaves_alt_generation|intros g; apply leaves_ret].
Qed.

Lemma keeps_generate_alt_from_caption k cfg w caption_text :
  keeps k (generate_alt_from_caption cfg w caption_text).
Proof.
  unfold generate_alt_from_caption.
  apply keeps_try; [apply keeps_refine_alt_text|].
  intros e. apply keeps_of_leaves, leaves_ret.
Qed.

Lemma keeps_alt_only k cfg w image raw debug include_caption :
  keeps k (alt_only cfg w image raw debug include_caption).
Proof.
  unfold alt_only.
  destruct (not_an_image (content_type image));
    [apply keeps_of_leaves, leaves_raise|].
  destruct (file_data image); [apply keeps_of_leaves, leaves_raise|].
  apply keeps_bind; [apply keeps_infer_caption_from_data|intros c].
  apply keeps_bind; [apply keeps_generate_alt_from_caption|intros a].
  destruct (raw || debug); [|destruct include_caption];
    apply keeps_of_leaves, leaves_ret.
Qed.

(** X6.  A model that is ready when a [POST /alt] request arrives is left
    untouched by it, whatever the request and its outcome: its handles are
    the same afterwards and no [from_pretrained] call is made for it. *)
Theorem alt_only_keeps_loaded
    k cfg w image raw debug include_caption s r s' :
  ready k s = true ->
  alt_only cfg w image raw debug include_caption s = (r, s') ->
  ready k s' = true /\
  model_handle k s' = model_handle k s /\
  helper_handle k s' = helper_handle k s /\
  model_loads k s' = model_loads k s /\
  helper_loads k s' = helper_loads k s.
Proof.
  intros Hr H.
  pose proof (keeps_alt_only k cfg w image raw debug include_caption
                s r s' Hr H) as U.
  split; [now rewrite (untouched_ready _ _ _ U)|].
  destruct U; auto.
Qed.

Lemma alt_only_keeps_loaded_witness :
  model_loads Captioner
    (after (alt_only default_config
              (Doubles.working Doubles.cat_caption Doubles.cat_caption)
              (Doubles.upload (Some (py "image/png")) Doubles.png)
              false false false)
       (after (startup default_config
                 (Doubles.working Doubles.cat_caption Doubles.cat_caption))
          initial_state)) = 1.
Proof.
  destruct (alt_only_keeps_loaded Captioner default_config
              (Doubles.working Doubles.cat_caption Doubles.cat_caption)
              (Doubles.upload (Some (py "image/png")) Doubles.png)
              false false false
              (after (startup default_config
                        (Doubles.working Doubles.cat_caption
                           Doubles.cat_caption)) initial_state)
              (fst (alt_only default_config
                      (Doubles.working Doubles.cat_caption Doubles.cat_caption)
                      (Doubles.upload (Some (py "image/png")) Doubles.png)
                      false false false
                      (after (startup default_config
                                (Doubles.working Doubles.cat_caption
                                   Doubles.cat_caption)) initial_state)))
              (after (alt_only default_config
                        (Doubles.working Doubles.cat_caption
                           Doubles.cat_caption)
                        (Doubles.upload (Some (py "image/png")) Doubles.png)
                        false false false)
                 (after (startup default_config
                           (Doubles.working Doubles.cat_caption
                              Doubles.cat_caption)) initial_state)))
    as (_ & _ & _ & Hloads & _).
  - vm_compute. reflexivity.
  - vm_compute. reflexivity.
  - rewrite Hloads. vm_compute. reflexivity.
Defined.

(** X7.  [run_inference] and [infer_caption_from_data] run the same steps:
    with the captioner ready, captioning bytes that decode to a picture
    gives the result and the state that [run_inference] gives for that
    picture. *)
Theorem run_inference_same_path cfg w image_data fname ctype img s :
  blip_ready s = true ->
  Image_open_convert w image_data (events s) = Returns img ->
  infer_caption_from_data cfg w image_data fname ctype s =
  run_inference cfg w img (log_event EvImageOpen s).
Proof.
  intros Hr Himg. unfold infer_caption_from_data, run_inference, bind.
  pose proof (load_model_ready Captioner cfg w s Hr) as L1.
  pose proof (load_model_ready Captioner cfg w (log_event EvImageOpen s) Hr)
    as L2.
  simpl in L1, L2. rewrite L1, L2. unfold try_except.
  change (blip_caption w image_data s)
    with (bind (call EvImageOpen (Image_open_convert w image_data))
               (fun img => blip_describe w img) s).
  unfold bind at 1, call at 1. rewrite Himg. reflexivity.
Qed.

Lemma run_inference_same_path_witness :
  fst (run_inference default_config
         (Doubles.working Doubles.cat_caption Doubles.cat_caption)
         Doubles.a_picture
         (log_event EvImageOpen
            (after (startup default_config
                      (Doubles.working Doubles.cat_caption
                         Doubles.cat_caption)) initial_state))) =
  Returns Doubles.cat_caption.
Proof.
  rewrite <- (run_inference_same_path default_config
                (Doubles.working Doubles.cat_caption Doubles.cat_caption)
                Doubles.png None None Doubles.a_picture
                (after (startup default_config
                          (Doubles.working Doubles.cat_caption
                             Doubles.cat_caption)) initial_state)).
  - vm_compute. reflexivity.
  - vm_compute. reflexivity.
  - vm_compute. reflexivity.
Defined.

(** X8.  With the captioner loaded, [run_inference] returns a caption for
    every picture; any exception raised by preprocessing, generating or
    decoding is caught and the result is the fixed caption. *)
Theorem run_inference_catches cfg w img s s1 :
  load_blip_model cfg w s = (Returns tt, s1) ->
  (exists caption_text s2,
     run_inference cfg w img s = (Returns caption_text, s2)) /\
  (forall e s2,
     blip_describe w img s1 = (Raises e, s2) ->
     run_inference cfg w img s = (Returns (py "A beautiful image"), s2)).
Proof.
  intros Hload. unfold run_inference, bind, try_except, ret. rewrite Hload.
  split.
  - destruct (blip_describe w img s1) as [[c|e] s2]; eauto.
  - intros e s2 ->. reflexivity.
Qed.

Lemma run_inference_catches_witness :
  fst (run_inference default_config
         (Doubles.scripted (Returns tt) (Returns Doubles.a_picture)
            (Raises (LibraryError (py "bad token")))
            (Returns Doubles.cat_caption))
         Doubles.a_picture initial_state) =
  Returns (py "A beautiful image").
Proof.
  rewrite (proj2 (run_inference_catches default_config
                    (Doubles.scripted (Returns tt) (Returns Doubles.a_picture)
                       (Raises (LibraryError (py "bad token")))
                       (Returns Doubles.cat_caption))
                    Doubles.a_picture initial_state
                    (after (load_blip_model default_config
                              (Doubles.scripted (Returns tt)
                                 (Returns Doubles.a_picture)
                                 (Raises (LibraryError (py "bad token")))
                                 (Returns Doubles.cat_caption)))
                       initial_state)
                    ltac:(vm_compute; reflexivity))
                 (LibraryError (py "bad token"))
                 (after (run_inference default_config
                           (Doubles.scripted (Returns tt)
                              (Returns Doubles.a_picture)
                              (Raises (LibraryError (py "bad token")))
                              (Returns Doubles.cat_caption))
                           Doubles.a_picture) initial_state)
                 ltac:(vm_compute; reflexivity)).
  reflexivity.
Defined.

End Requests.

(** ** The text of the refinement stage *)

Module Texts.

Import Words Refinement.

Lemma split_cons_space c s : isspace c = true -> split (c :: s) = split s.
Proof. intros H. simpl. now rewrite H. Qed.

(** Splitting does not see across a whitespace character. *)
Lemma split_app_space a c b :
  isspace c = true -> split (a ++ c :: b) = split a ++ split b.
Proof.
  intros Hc. induction a as [|x a IH]; [now apply split_cons_space|].
  change ((x :: a) ++ c :: b) with (x :: (a ++ c :: b)).
  simpl. rewrite starts_nonspace_app, IH by assumption.
  destruct (isspace x); [reflexivity|].
  destruct (starts_nonspace a) eqn:E; [|reflexivity].
  apply split_starts_nonspace in E.
  destruct (split a); [congruence|reflexivity].
Qed.

Lemma split_word x : word x -> split x = [x].
Proof.
  intros [Hne Hall]. induction x as [|c x IH]; [congruence|].
  simpl in Hall. apply andb_true_iff in Hall as [Hc Hx].
  unfold nonspace in Hc. apply negb_true_iff in Hc.
  simpl. rewrite Hc. destruct x as [|d x]; [reflexivity|].
  assert (Hd : starts_nonspace (d :: x) = true).
  { simpl in Hx. apply andb_true_iff in Hx as [Hd _]. exact Hd. }
  rewrite Hd, IH; [reflexivity|discriminate|assumption].
Qed.

(** Round trip: words joined by single spaces split into the same words. *)
Lemma split_join l : Forall word l -> split (join [space] l) = l.
Proof.
  induction 1 as [|x l Hx Hl IH]; [reflexivity|].
  destruct l as [|y l]; [now apply split_word|].
  rewrite join_space_cons, split_app_space by reflexivity.
  now rewrite IH, (split_word x Hx).
Qed.

Lemma Forall_firstn {A} (P : A -> Prop) n l :
  Forall P l -> Forall P (firstn n l).
Proof.
  intros H. revert n. induction H as [|x l Hx Hl IH]; intros [|n]; simpl;
    constructor; auto.
Qed.

Lemma firstn_firstn_same {A} n (l : list A) :
  firstn n (firstn n l) = firstn n l.
Proof.
  revert l. induction n as [|n IH]; intros [|x l]; simpl; try reflexivity.
  now rewrite IH.
Qed.

Lemma fallback_words caption_text :
  split (refinement_fallback caption_text) = firstn 10 (split caption_text).
Proof.
  unfold refinement_fallback.
  destruct (firstn 10 (split caption_text)) as [|x l] eqn:E.
  - destruct (split caption_text); [reflexivity|discriminate].
  - rewrite py_space, split_join; [reflexivity|].
    rewrite <- E. apply Forall_firstn, split_words.
Qed.

(** X9.  When the [try] block of the refinement stage raises, the result
    consists of the first ten words of the caption: splitting it gives
    exactly those words, so it has at most ten words and as many as the
    caption when the caption has fewer. *)
Theorem refine_alt_text_fallback_words cfg w caption_text s s1 e s2 :
  load_alt_refinement_model cfg w s = (Returns tt, s1) ->
  alt_generation cfg w caption_text s1 = (Raises e, s2) ->
  exists out,
    refine_alt_text cfg w caption_text s = (Returns out, s2) /\
    split out = firstn 10 (split caption_text) /\
    wc out = Nat.min 10 (wc caption_text).
Proof.
  intros Hload Hgen. unfold refine_alt_text, bind, try_except, ret.
  rewrite Hload, Hgen. eexists. split; [reflexivity|].
  split; [apply fallback_words|].
  unfold wc. now rewrite fallback_words, length_firstn.
Qed.

Lemma refine_alt_text_fallback_words_witness :
  exists out,
    fst (refine_alt_text default_config
           (Doubles.broken_refiner Doubles.cat_caption)
           ([9%N] ++ py "a  cat sat") initial_state) = Returns out /\
    split out = [py "a"; py "cat"; py "sat"].
Proof.
  destruct (refine_alt_text_fallback_words default_config
              (Doubles.broken_refiner Doubles.cat_caption)
              ([9%N] ++ py "a  cat sat") initial_state
              (after (load_alt_refinement_model default_config
                        (Doubles.broken_refiner Doubles.cat_caption))
                 initial_state)
              (LibraryError (py "out of memory"))
              (after (refine_alt_text default_config
                        (Doubles.broken_refiner Doubles.cat_caption)
                        ([9%N] ++ py "a  cat sat")) initial_state))
    as [out [Hrun [Hsplit _]]].
  - vm_compute. reflexivity.
  - vm_compute. reflexivity.
  - exists out. rewrite Hrun. split; [reflexivity|]. rewrite Hsplit.
    reflexivity.
Defined.

(** X10.  The fallback of lines 250-251 is idempotent: applied to its own
    result it changes nothing. *)
Theorem refinement_fallback_idempotent caption_text :
  refinement_fallback (refinement_fallback caption_text) =
  refinement_fallback caption_text.
Proof.
  unfold refinement_fallback at 1. rewrite fallback_words, firstn_firstn_same.
  unfold refinement_fallback.
  destruct (firstn 10 (split caption_text)); reflexivity.
Qed.

(** *** The word budget *)

Section TwoStrips.

Variable p : N -> bool.
Hypothesis p_nonspace : forall c, p c = true -> isspace c = false.

(** Stripping from the left keeps all the words, or leaves a string that
    begins with whitespace (or nothing), on which a second strip from the
    left has no effect. *)
Lemma lstrip_keeps_or_blocks s :
  wc (lstrip_by p s) = wc s \/ starts_nonspace (lstrip_by p s) = false.
Proof.
  unfold lstrip_by. induction s as [|c s IH]; simpl; [now left|].
  destruct (p c) eqn:Hc; [|now left].
  rewrite wc_cons, (p_nonspace _ Hc).
  destruct (starts_nonspace s) eqn:E; [exact IH|].
  right. now rewrite (dropwhile_not_starting p p_nonspace s E).
Qed.

Lemma rstrip_keeps_or_blocks s :
  wc (rstrip_by p s) = wc s \/ ends_nonspace (rstrip_by p s) = false.
Proof.
  induction s as [|c s IH]; [now left|].
  rewrite rstrip_by_cons.
  destruct (rstrip_by p s) as [|d r] eqn:E.
  - apply rstrip_by_nil_all, (forallb_p_nonspace p p_nonspace) in E.
    destruct (p c) eqn:Hc; [now right|].
    destruct (isspace c) eqn:Hsp; [right; simpl; now rewrite Hsp|].
    left. rewrite !wc_word; [reflexivity| |].
    + split; [discriminate|]. simpl. unfold nonspace at 1. now rewrite Hsp, E.
    + split; [discriminate|]. simpl. unfold nonspace. now rewrite Hsp.
  - destruct IH as [IH|IH]; [left|right; exact IH].
    rewrite (wc_cons c (d :: r)), (wc_cons c s),
      (rstrip_by_starts _ _ _ _ E), IH. reflexivity.
Qed.

Lemma rstrip_not_ending s :
  ends_nonspace s = false -> rstrip_by p s = s.
Proof.
  induction s as [|c s IH]; [reflexivity|]. intros H.
  rewrite rstrip_by_cons. destruct s as [|d s].
  - simpl in H. apply negb_false_iff in H.
    change (rstrip_by p []) with (@nil N).
    destruct (p c) eqn:Hc; [|reflexivity].
    apply p_nonspace in Hc. congruence.
  - rewrite IH by exact H. reflexivity.
Qed.

Lemma rstrip_still_not_starting s :
  starts_nonspace s = false -> starts_nonspace (rstrip_by p s) = false.
Proof.
  destruct s as [|c s]; [reflexivity|]. simpl. intros H.
  rewrite rstrip_by_cons.
  destruct (rstrip_by p s); [|exact H].
  destruct (p c) eqn:Hc; [reflexivity|exact H].
Qed.

Lemma lstrip_still_not_ending s :
  ends_nonspace s = false -> ends_nonspace (lstrip_by p s) = false.
Proof.
  unfold lstrip_by. induction s as [|c s IH]; [reflexivity|].
  intros H. simpl dropwhile. destruct (p c) eqn:Hc; [|exact H].
  destruct s as [|d s]; [reflexivity|]. apply IH. exact H.
Qed.

End TwoStrips.

(** Line 242 removes at most two words, one at each end. *)
Lemma wc_strip_quotes_tight s :
  wc (strip_quotes s) <= wc s <= wc (strip_quotes s) + 2.
Proof.
  unfold strip_quotes, strip_char, strip_by. rewrite wc_strip.
  set (p := N.eqb dquote). set (q := N.eqb squote).
  set (s1 := lstrip_by p s). set (s2 := rstrip_by p s1).
  set (s3 := lstrip_by q s2). set (s4 := rstrip_by q s3).
  pose proof (wc_lstrip_by p eqb_dquote_nonspace s) as B1.
  pose proof (wc_rstrip_by p eqb_dquote_nonspace s1) as B2.
  pose proof (wc_lstrip_by q eqb_squote_nonspace s2) as B3.
  pose proof (wc_rstrip_by q eqb_squote_nonspace s3) as B4.
  fold s1 in B1. fold s2 in B2. fold s3 in B3. fold s4 in B4.
  assert (Left : wc s1 = wc s \/ wc s3 = wc s2).
  { destruct (lstrip_keeps_or_blocks p eqb_dquote_nonspace s) as [H|H];
      [now left|right]. fold s1 in H.
    apply (rstrip_still_not_starting p) in H. fold s2 in H.
    unfold s3, lstrip_by.
    now rewrite (dropwhile_not_starting q eqb_squote_nonspace s2 H). }
  assert (Right : wc s2 = wc s1 \/ wc s4 = wc s3).
  { destruct (rstrip_keeps_or_blocks p eqb_dquote_nonspace s1) as [H|H];
      [now left|right]. fold s2 in H.
    apply (lstrip_still_not_ending q) in H. fold s3 in H.
    unfold s4. now rewrite (rstrip_not_ending q eqb_squote_nonspace s3 H). }
  lia.
Qed.

(** X11.  When the text extracted from the generation has at least 8 words,
    the result of the refinement stage has between 6 and 12 words. *)
Theorem refine_alt_text_word_budget
    cfg w caption_text generated_text s s1 s2 :
  load_alt_refinement_model cfg w s = (Returns tt, s1) ->
  alt_generation cfg w caption_text s1 = (Returns generated_text, s2) ->
  8 <= wc (extract_alt (prompt_of caption_text) generated_text) ->
  exists out,
    refine_alt_text cfg w caption_text s = (Returns out, s2) /\
    6 <= wc out <= 12.
Proof.
  intros Hload Hgen Hwc.
  rewrite (refine_alt_text_generated _ _ _ _ _ _ _ Hload Hgen).
  eexists. split; [reflexivity|].
  unfold shape_alt_text, budget_words.
  fold (wc (extract_alt (prompt_of caption_text) generated_text)).
  set (t := extract_alt (prompt_of caption_text) generated_text) in *.
  assert (H8 : (wc t <? 8) = false) by (apply Nat.ltb_ge; lia).
  assert (H0 : (wc t =? 0) = false) by (apply Nat.eqb_neq; lia).
  rewrite H8, H0.
  destruct (12 <? wc t) eqn:H12.
  - apply Nat.ltb_lt in H12.
    assert (Hten : wc (join (py " ") (firstn 10 (split t))) = 10).
    { rewrite py_space, wc_join_words by apply Forall_firstn, split_words.
      rewrite length_firstn. unfold wc in H12. lia. }
    pose proof (wc_strip_quotes_tight (join (py " ") (firstn 10 (split t)))).
    rewrite or_else_nonempty; [lia|apply wc_pos_nonempty; lia].
  - apply Nat.ltb_ge in H12.
    pose proof (wc_strip_quotes_tight t).
    rewrite or_else_nonempty; [lia|apply wc_pos_nonempty; lia].
Qed.

Lemma refine_alt_text_word_budget_witness :
  exists out,
    fst (refine_alt_text default_config
           (Doubles.working Doubles.cat_caption
              (Doubles.answer Doubles.cat_caption Doubles.fitting_answer))
           Doubles.cat_caption initial_state) = Returns out /\
    6 <= wc out <= 12.
Proof.
  destruct (refine_alt_text_word_budget default_config
              (Doubles.working Doubles.cat_caption
                 (Doubles.answer Doubles.cat_caption Doubles.fitting_answer))
              Doubles.cat_caption
              (Doubles.answer Doubles.cat_caption Doubles.fitting_answer)
              initial_state
              (after (load_alt_refinement_model default_config
                        (Doubles.working Doubles.cat_caption
                           (Doubles.answer Doubles.cat_caption
                              Doubles.fitting_answer))) initial_state)
              (after (refine_alt_text default_config
                        (Doubles.working Doubles.cat_caption
                           (Doubles.answer Doubles.cat_caption
                              Doubles.fitting_answer))
                        Doubles.cat_caption) initial_state))
    as [out [Hrun Hb]].
  - vm_compute. reflexivity.
  - vm_compute. reflexivity.
  - vm_compute. lia.
  - exists out. rewrite Hrun. split; [reflexivity|exact Hb].
Defined.

(** The lower bound is reached: eight words of which the first and the last
    are lone quote characters leave six. *)
Example word_budget_six :
  wc (py "' a b c d e f '") = 8 /\
  shape_alt_text Doubles.cat_caption (py "' a b c d e f '") = py "a b c d e f".
Proof. split; reflexivity. Qed.

(** *** The result is never empty *)

Lemma refine_alt_text_result cfg w caption_text s out s' :
  refine_alt_text cfg w caption_text s = (Returns out, s') ->
  (exists t, out = shape_alt_text caption_text t) \/
  out = refinement_fallback caption_text.
Proof.
  unfold refine_alt_text, bind, try_except, ret.
  destruct (load_alt_refinement_model cfg w s) as [[[]|e] s1]; [|discriminate].
  destruct (alt_generation cfg w caption_text s1) as [[g|e] s2];
    intros H; inversion H; subst; eauto.
Qed.

Lemma shape_alt_text_not_empty caption_text t :
  caption_text <> [] -> shape_alt_text caption_text t <> [].
Proof.
  intros Hc. unfold shape_alt_text, or_else.
  destruct (strip_quotes (budget_words caption_text t)); simpl;
    [|discriminate].
  destruct caption_text; [congruence|discriminate].
Qed.

Lemma join_not_empty x l : x <> [] -> join [space] (x :: l) <> [].
Proof.
  intros Hx. destruct l as [|y l]; [exact Hx|].
  rewrite join_space_cons. destruct x; [congruence|discriminate].
Qed.

Lemma refinement_fallback_not_empty caption_text :
  caption_text <> [] -> refinement_fallback caption_text <> [].
Proof.
  intros Hc. unfold refinement_fallback.
  destruct (firstn 10 (split caption_text)) as [|x l] eqn:E; [exact Hc|].
  rewrite py_space. apply join_not_empty.
  assert (Hw : Forall word (x :: l))
    by (rewrite <- E; apply Forall_firstn, split_words).
  inversion Hw as [|? ? [Hne _] _]; subst. exact Hne.
Qed.

(** X12.  For a caption that is not empty, [generate_alt_from_caption]
    returns a string that is not empty, in every state and whatever the
    runtime does. *)
Theorem generate_alt_from_caption_not_empty cfg w caption_text s :
  caption_text <> [] ->
  exists out s',
    generate_alt_from_caption cfg w caption_text s = (Returns out, s') /\
    out <> [].
Proof.
  intros Hc. unfold generate_alt_from_caption, try_except, ret.
  destruct (refine_alt_text cfg w caption_text s) as [[out|e] s'] eqn:E;
    [|eauto].
  exists out, s'. split; [reflexivity|].
  destruct (refine_alt_text_result _ _ _ _ _ _ E) as [[t ->]| ->].
  - now apply shape_alt_text_not_empty.
  - now apply refinement_fallback_not_empty.
Qed.

Lemma generate_alt_from_caption_not_empty_witness :
  exists out s',
    generate_alt_from_caption default_config
      (Doubles.working Doubles.cat_caption
         (Doubles.answer Doubles.cat_caption (py " ' ' ")))
      Doubles.cat_caption initial_state = (Returns out, s') /\
    out <> [].
Proof.
  apply (generate_alt_from_caption_not_empty default_config
           (Doubles.working Doubles.cat_caption
              (Doubles.answer Doubles.cat_caption (py " ' ' ")))
           Doubles.cat_caption initial_state).
  discriminate.
Defined.

(** *** Extracting the answer *)

Lemma startswith_nil s : startswith s [] = true.
Proof. destruct s; reflexivity. Qed.

Lemma contains_tail c s sub :
  contains (c :: s) sub = false -> contains s sub = false.
Proof. simpl. intros H. now apply orb_false_iff in H as [_ H]. Qed.

Lemma contains_head s sub :
  contains s sub = false -> startswith s sub = false.
Proof. destruct s; simpl; intros H; now apply orb_false_iff in H as [H _]. Qed.

(** A string that starts with [a ++ b] contains [b]. *)
Lemma startswith_app_contains a b s :
  startswith s (a ++ b) = true -> contains s b = true.
Proof.
  revert s. induction a as [|x a IH]; intros s H.
  - destruct s; simpl in *; now rewrite H.
  - destruct s as [|c s]; [discriminate|]. simpl in H.
    apply andb_true_iff in H as [_ H]. apply IH in H.
    simpl. rewrite H. apply orb_true_r.
Qed.

Lemma replace_go_cons old new c s :
  replace_go old new 0 (c :: s) =
  if startswith (c :: s) old
  then new ++ replace_go old new (List.length old - 1) s
  else c :: replace_go old new 0 s.
Proof. reflexivity. Qed.

Lemma replace_absent a b s :
  contains s b = false -> replace (a ++ b) [] s = s.
Proof.
  unfold replace. induction s as [|c s IH]; [reflexivity|]. intros H.
  rewrite replace_go_cons.
  destruct (startswith (c :: s) (a ++ b)) eqn:E.
  - apply startswith_app_contains in E. congruence.
  - now rewrite IH by (eapply contains_tail; exact H).
Qed.

Lemma extract_alt_marker_absent caption_text generated_text :
  contains generated_text (py "Alt:") = false ->
  extract_alt (prompt_of caption_text) generated_text = strip generated_text.
Proof.
  intros H. unfold extract_alt. rewrite H. unfold prompt_of.
  rewrite !app_assoc. now rewrite replace_absent.
Qed.

(** X13.  When the generated text does not contain the marker, the
    extracted text is the whole generated text, stripped: removing the
    prompt (line 230) has no effect, since the prompt ends with the marker
    that is absent. *)
Theorem extract_alt_without_marker caption_text generated_text :
  contains generated_text (py "Alt:") = false ->
  extract_alt (prompt_of caption_text) generated_text = strip generated_text.
Proof. apply extract_alt_marker_absent. Qed.

Lemma extract_alt_without_marker_witness :
  extract_alt (prompt_of Doubles.cat_caption)
    (py "Create SEO-optimized alt text (8-12 words): a cat ") =
  py "Create SEO-optimized alt text (8-12 words): a cat".
Proof.
  rewrite (extract_alt_without_marker Doubles.cat_caption
             (py "Create SEO-optimized alt text (8-12 words): a cat "));
    reflexivity.
Defined.

(** *** The extracted text has no marker *)

Lemma contains_nowhere x sub :
  (forall i, startswith (skipn i x) sub = false) -> contains x sub = false.
Proof.
  induction x as [|c x IH]; intros H; pose proof (H 0) as H0;
    simpl skipn in H0.
  - change (contains [] sub) with (startswith [] sub || false).
    now rewrite H0.
  - change (contains (c :: x) sub)
      with (startswith (c :: x) sub || contains x sub).
    rewrite H0. simpl. apply IH. intros i. exact (H (S i)).
Qed.

Lemma split_last_go_skip sep k cur c s :
  split_last_go sep (S k) cur (c :: s) = split_last_go sep k cur s.
Proof. reflexivity. Qed.

Lemma split_last_go_scan sep cur c s :
  split_last_go sep 0 cur (c :: s) =
  if startswith (c :: s) sep
  then split_last_go sep (List.length sep - 1) [] s
  else split_last_go sep 0 (c :: cur) s.
Proof. reflexivity. Qed.

(** The last piece has no occurrence of the separator: [cur] holds only
    characters at which no occurrence begins. *)
Lemma split_last_go_free sep s :
  sep <> [] ->
  forall skip cur,
    (skip <> 0 -> cur = []) ->
    (forall i, i < List.length cur ->
               startswith (skipn i (rev cur ++ s)) sep = false) ->
    contains (split_last_go sep skip cur s) sep = false.
Proof.
  intros Hsep. induction s as [|c s IH]; intros skip cur Hskip Hcur.
  - simpl. apply contains_nowhere. intros i.
    destruct (Nat.lt_ge_cases i (List.length cur)) as [Hi|Hi].
    + specialize (Hcur i Hi). now rewrite app_nil_r in Hcur.
    + rewrite skipn_all2 by (rewrite length_rev; exact Hi).
      destruct sep; [congruence|reflexivity].
  - destruct skip as [|k].
    + rewrite split_last_go_scan.
      destruct (startswith (c :: s) sep) eqn:E.
      * apply IH; [reflexivity|]. simpl. intros i Hi. lia.
      * apply IH; [congruence|]. intros i Hi. simpl in Hi.
        simpl rev. rewrite <- app_assoc. simpl app.
        destruct (Nat.eq_dec i (List.length cur)) as [->|Hne].
        -- rewrite <- (length_rev cur), skipn_app, skipn_all, Nat.sub_diag.
           exact E.
        -- apply Hcur. lia.
    + rewrite split_last_go_skip. rewrite (Hskip ltac:(discriminate)).
      apply IH; [reflexivity|]. simpl. intros i Hi. lia.
Qed.

Lemma split_last_free sep s :
  sep <> [] -> contains (split_last sep s) sep = false.
Proof.
  intros Hsep. apply split_last_go_free; [assumption|congruence|].
  simpl. intros i Hi. lia.
Qed.

Lemma startswith_app s t sub :
  startswith s sub = true -> startswith (s ++ t) sub = true.
Proof.
  revert s. induction sub as [|p sub IH]; intros s H; [apply startswith_nil|].
  destruct s as [|c s]; [discriminate|]. simpl in *.
  apply andb_true_iff in H as [Hc H]. now rewrite Hc, IH.
Qed.

Lemma contains_cons c s sub :
  contains (c :: s) sub = startswith (c :: s) sub || contains s sub.
Proof. reflexivity. Qed.

Lemma contains_app_l a b sub :
  contains (a ++ b) sub = false -> contains a sub = false.
Proof.
  intros H. destruct (contains a sub) eqn:E; [|reflexivity].
  rewrite <- H. symmetry. clear H.
  induction a as [|c a IH].
  - simpl in E. rewrite orb_false_r in E.
    assert (Hsub : sub = []) by (destruct sub; [reflexivity|discriminate]).
    subst. simpl. destruct b; reflexivity.
  - rewrite contains_cons in E. apply orb_true_iff in E as [E|E].
    + change ((c :: a) ++ b) with (c :: (a ++ b)). rewrite contains_cons.
      change (c :: (a ++ b)) with ((c :: a) ++ b).
      rewrite (startswith_app (c :: a) b sub E). reflexivity.
    + change ((c :: a) ++ b) with (c :: (a ++ b)). rewrite contains_cons.
      rewrite (IH E). apply orb_true_r.
Qed.

Lemma contains_app_r a b sub :
  contains (a ++ b) sub = false -> contains b sub = false.
Proof.
  induction a as [|c a IH]; [trivial|]. intros H.
  apply IH. eapply contains_tail. exact H.
Qed.

Lemma dropwhile_suffix p s : exists a, s = a ++ dropwhile p s.
Proof.
  induction s as [|c s [a IH]]; [now exists []|]. simpl.
  destruct (p c); [|now exists []].
  exists (c :: a). simpl. now rewrite <- IH.
Qed.

Lemma rstrip_by_prefix p s : exists b, s = rstrip_by p s ++ b.
Proof.
  induction s as [|c s [b IH]]; [now exists []|].
  rewrite rstrip_by_cons. destruct (rstrip_by p s) as [|d r].
  - destruct (p c); [now exists (c :: s)|]. exists s. reflexivity.
  - exists b. simpl in *. now f_equal.
Qed.

Lemma contains_strip s sub :
  contains s sub = false -> contains (strip s) sub = false.
Proof.
  intros H. unfold strip, strip_by, lstrip_by.
  destruct (dropwhile_suffix isspace s) as [a Ha].
  destruct (rstrip_by_prefix isspace (dropwhile isspace s)) as [b Hb].
  rewrite Ha in H. apply contains_app_r in H.
  rewrite Hb in H. now apply contains_app_l in H.
Qed.

(** X14.  The text extracted from a generation never contains the marker
    [Alt:], whatever was generated. *)
Theorem extract_alt_has_no_marker caption_text generated_text :
  contains (extract_alt (prompt_of caption_text) generated_text) (py "Alt:")
  = false.
Proof.
  destruct (contains generated_text (py "Alt:")) eqn:E.
  - unfold extract_alt. rewrite E. apply contains_strip, split_last_free.
    discriminate.
  - rewrite extract_alt_marker_absent by exact E. now apply contains_strip.
Qed.

End Texts.

(** ** [clean_model_output] *)

Module Cleaning.

Import Words Texts.

Lemma rstrip_space_ends s :
  rstrip_by isspace s = [] \/ ends_nonspace (rstrip_by isspace s) = true.
Proof.
  induction s as [|c s IH]; [now left|].
  rewrite rstrip_by_cons. destruct (rstrip_by isspace s) as [|d r].
  - destruct (isspace c) eqn:Hc; [now left|right]. simpl. now rewrite Hc.
  - right. destruct IH as [IH|IH]; [discriminate|exact IH].
Qed.

(** What [s.strip()] returns has no whitespace at either end. *)
Lemma strip_trimmed s :
  strip s <> [] ->
  starts_nonspace (strip s) = true /\ ends_nonspace (strip s) = true.
Proof.
  unfold strip, strip_by, lstrip_by. intros Hne. split.
  - destruct (rstrip_by isspace (dropwhile isspace s)) as [|d r] eqn:E;
      [congruence|].
    destruct (rstrip_by_head _ _ _ _ E) as [s' Hs].
    apply dropwhile_head in Hs. simpl. now rewrite Hs.
  - destruct (rstrip_space_ends (dropwhile isspace s)) as [H|H];
      [congruence|exact H].
Qed.

(** X15.  For a text that is not empty, [clean_model_output] returns a text
    that is not empty and has no whitespace at either end. *)
Theorem clean_model_output_trimmed text :
  text <> [] ->
  clean_model_output text <> [] /\
  starts_nonspace (clean_model_output text) = true /\
  ends_nonspace (clean_model_output text) = true.
Proof.
  intros Ht. unfold clean_model_output.
  destruct text as [|c text]; [congruence|]. simpl truthy. cbv iota.
  unfold or_else.
  destruct (strip (remove_leading_s (remove_tags (c :: text)))) as [|d r] eqn:E.
  - simpl truthy. cbv iota. repeat split; try reflexivity. discriminate.
  - simpl truthy. cbv iota. split; [discriminate|].
    rewrite <- E. apply strip_trimmed. rewrite E. discriminate.
Qed.

Example clean_model_output_examples :
  clean_model_output ([9%N] ++ py "<s>  s a cat <pad> ") = py "a cat" /\
  clean_model_output (py " <pad> ") = py "unidentified image" /\
  clean_model_output (py "a < b and <i>c</i> > d") = py "a c > d".
Proof. repeat split; reflexivity. Qed.

Lemma clean_model_output_trimmed_witness :
  clean_model_output ([9%N] ++ py "<s>  s a cat <pad> ") <> [] /\
  starts_nonspace
    (clean_model_output ([9%N] ++ py "<s>  s a cat <pad> ")) = true /\
  ends_nonspace
    (clean_model_output ([9%N] ++ py "<s>  s a cat <pad> ")) = true.
Proof.
  apply (clean_model_output_trimmed ([9%N] ++ py "<s>  s a cat <pad> ")).
  discriminate.
Defined.

(** *** No tag is left *)

Lemma has_gt_removed inside s :
  has_gt s = false -> has_gt (remove_tags_go inside s) = false.
Proof.
  revert inside. induction s as [|c s IH]; intros inside H; [reflexivity|].
  unfold has_gt in H. simpl in H. apply orb_false_iff in H as [Hc Hs].
  fold (has_gt s) in Hs. simpl.
  destruct inside.
  - destruct (c =? gt_sign)%N; now apply IH.
  - destruct ((c =? lt_sign)%N && has_gt s); [now apply IH|].
    unfold has_gt. simpl. rewrite Hc. simpl. now apply IH.
Qed.

Lemma remove_tags_go_no_tag inside s :
  has_tag (remove_tags_go inside s) = false.
Proof.
  revert inside. induction s as [|c s IH]; intros inside; [reflexivity|].
  simpl. destruct inside.
  - destruct (c =? gt_sign)%N; apply IH.
  - destruct ((c =? lt_sign)%N && has_gt s) eqn:E; [apply IH|].
    simpl. rewrite IH, orb_false_r.
    apply andb_false_iff in E as [E|E]; [now rewrite E|].
    rewrite (has_gt_removed false s E). apply andb_false_r.
Qed.

Lemma has_tag_app_r a b : has_tag (a ++ b) = false -> has_tag b = false.
Proof.
  induction a as [|c a IH]; [trivial|]. simpl. intros H.
  apply orb_false_iff in H as [_ H]. now apply IH.
Qed.

Lemma has_tag_app_l a b : has_tag (a ++ b) = false -> has_tag a = false.
Proof.
  induction a as [|c a IH]; [reflexivity|]. simpl. intros H.
  apply orb_false_iff in H as [Hc H]. rewrite (IH H), orb_false_r.
  apply andb_false_iff in Hc as [Hc|Hc]; [now rewrite Hc|].
  unfold has_gt in *. rewrite existsb_app in Hc.
  apply orb_false_iff in Hc as [Hc _]. rewrite Hc. apply andb_false_r.
Qed.

Lemma remove_leading_s_suffix s : exists a, s = a ++ remove_leading_s s.
Proof.
  unfold remove_leading_s.
  destruct (dropwhile isspace s) as [|c [|d rest]] eqn:E;
    try (now exists []).
  destruct ((c =? letter_s)%N && isspace d); [|now exists []].
  destruct (dropwhile_suffix isspace s) as [a Ha].
  destruct (dropwhile_suffix isspace rest) as [a' Ha'].
  exists (a ++ c :: d :: a'). rewrite E in Ha.
  rewrite <- app_assoc. simpl. now rewrite <- Ha'.
Qed.

Lemma has_tag_strip s : has_tag s = false -> has_tag (strip s) = false.
Proof.
  intros H. unfold strip, strip_by, lstrip_by.
  destruct (dropwhile_suffix isspace s) as [a Ha].
  destruct (rstrip_by_prefix isspace (dropwhile isspace s)) as [b Hb].
  rewrite Ha in H. apply has_tag_app_r in H.
  rewrite Hb in H. now apply has_tag_app_l in H.
Qed.

(** X16.  What [clean_model_output] returns contains no tag: no [<] in it
    has a [>] after it. *)
Theorem clean_model_output_no_tag text :
  has_tag (clean_model_output text) = false.
Proof.
  unfold clean_model_output. destruct text as [|c text]; [reflexivity|].
  simpl truthy. cbv iota. unfold or_else.
  destruct (strip (remove_leading_s (remove_tags (c :: text)))) as [|d r] eqn:E;
    [reflexivity|].
  simpl truthy. cbv iota. rewrite <- E. apply has_tag_strip.
  destruct (remove_leading_s_suffix (remove_tags (c :: text))) as [a Ha].
  apply (has_tag_app_r a). rewrite <- Ha. apply remove_tags_go_no_tag.
Qed.

End Cleaning.

(** ** The endpoints end to end *)

Module Service.

Import Registry Frames Loads Requests Refinement Pipeline.

Lemma load_model_returns_ready k cfg w s s1 :
  load_model k cfg w s = (Returns tt, s1) -> ready k s1 = true.
Proof.
  intros H. destruct (ready k s) eqn:Hr.
  - rewrite load_model_ready in H by assumption. inversion H; subst. exact Hr.
  - rewrite load_model_not_ready in H by assumption.
    unfold try_except, raise in H.
    destruct (seq_steps (ld_steps (loader_of k cfg w)) s) as [[[]|e] s'] eqn:E;
      [|discriminate].
    inversion H; subst. rewrite <- (ready_loader k cfg w).
    now destruct (body_loads_model k cfg w s s1 E).
Qed.

Lemma not_an_image_valid image t :
  content_type image = Some t -> startswith t (py "image/") = true ->
  not_an_image (content_type image) = false.
Proof.
  intros Hct Hst.
  destruct (not_an_image (content_type image)) eqn:E; [|reflexivity].
  apply not_an_image_spec in E as [E|[t' [E Ht']]]; congruence.
Qed.

(** When the refiner gives nothing of 8 words or more for the fixed
    caption, the fixed caption is the alt text. *)
Lemma generate_alt_for_fallback cfg w s :
  (forall s1 g s2,
     load_alt_refinement_model cfg w s = (Returns tt, s1) ->
     alt_generation cfg w fallback_caption s1 = (Returns g, s2) ->
     wc (extract_alt (prompt_of fallback_caption) g) < 8) ->
  exists s',
    generate_alt_from_caption cfg w fallback_caption s =
    (Returns fallback_caption, s').
Proof.
  intros Hshort.
  unfold generate_alt_from_caption, refine_alt_text, try_except, bind, ret.
  destruct (load_alt_refinement_model cfg w s) as [[[]|e] s1]; [|eauto].
  destruct (alt_generation cfg w fallback_caption s1) as [[g|e] s2] eqn:E;
    [|eauto].
  exists s2. f_equal. f_equal.
  specialize (Hshort s1 g s2 eq_refl E).
  unfold shape_alt_text, budget_words.
  fold (wc (extract_alt (prompt_of fallback_caption) g)).
  assert (H12 : (12 <? wc (extract_alt (prompt_of fallback_caption) g)) = false)
    by (apply Nat.ltb_ge; lia).
  apply Nat.ltb_lt in Hshort. rewrite H12, Hshort. reflexivity.
Qed.

(** X17.  Total failure of inference still gives an answer: for a valid
    request whose captioner is loaded, if captioning raises inside its
    [try] block and the refiner gives no text of 8 words or more for the
    fixed caption (it fails to load, raises, or answers short), [POST /alt]
    returns a response whose [alt] is [A beautiful image]. *)
Theorem alt_only_total_failure
    cfg w image raw debug include_caption s s1 t e s2 :
  content_type image = Some t -> startswith t (py "image/") = true ->
  file_data image <> [] ->
  load_blip_model cfg w s = (Returns tt, s1) ->
  blip_caption w (file_data image) s1 = (Raises e, s2) ->
  (forall s3 g s4,
     load_alt_refinement_model cfg w s2 = (Returns tt, s3) ->
     alt_generation cfg w fallback_caption s3 = (Returns g, s4) ->
     wc (extract_alt (prompt_of fallback_caption) g) < 8) ->
  exists r s',
    alt_only cfg w image raw debug include_caption s = (Returns r, s') /\
    lookup "alt" r = Some (py "A beautiful image").
Proof.
  intros Hct Hst Hd Hload Hcap Hshort.
  destruct (generate_alt_for_fallback cfg w s2 Hshort) as [s' Halt].
  unfold alt_only. rewrite (not_an_image_valid image t Hct Hst).
  destruct (file_data image) as [|b data] eqn:Hdata; [congruence|].
  unfold bind, infer_caption_from_data, bind, try_except.
  rewrite Hload, Hcap. unfold ret at 1. rewrite Halt.
  destruct (raw || debug); [|destruct include_caption];
    eexists; eexists; (split; [reflexivity|reflexivity]).
Qed.

Lemma alt_only_total_failure_witness :
  exists r s',
    alt_only default_config Doubles.bad_image
      (Doubles.upload (Some (py "image/png")) Doubles.png) false false false
      initial_state = (Returns r, s') /\
    lookup "alt" r = Some (py "A beautiful image").
Proof.
  apply (alt_only_total_failure default_config Doubles.bad_image
           (Doubles.upload (Some (py "image/png")) Doubles.png)
           false false false initial_state
           (after (load_blip_model default_config Doubles.bad_image)
              initial_state)
           (py "image/png")
           (LibraryError (py "cannot identify image file"))
           (after (infer_caption_from_data default_config Doubles.bad_image
                     Doubles.png None None) initial_state)).
  - reflexivity.
  - reflexivity.
  - discriminate.
  - vm_compute. reflexivity.
  - vm_compute. reflexivity.
  - intros s3 g s4 Hl Hg. vm_compute in Hl. inversion Hl; subst.
    vm_compute in Hg. inversion Hg; subst. vm_compute. lia.
Defined.

Import Legacy.

Lemma read_opened u :
  read (opened u) =
  (file_data u, {| upload := u; position := List.length (file_data u) |}).
Proof. reflexivity. Qed.

Lemma read_again u :
  fst (read {| upload := u; position := List.length (file_data u) |}) = [].
Proof. unfold read. simpl. apply skipn_all. Qed.

(** X18.  [POST /caption] rejects nothing: whatever the upload (any content
    type, any body) and the flag, the only exception it can raise is the
    [RuntimeError] of the captioner load that begins it. *)
Theorem caption_raises_only_load_failure cfg w img include_caption s e s' :
  caption cfg w img include_caption s = (Raises e, s') ->
  load_blip_model cfg w s = (Raises e, s') /\
  exists exc, e = RuntimeError (py "BLIP model load failed: " ++ exn_str exc).
Proof.
  intros H.
  assert (Hload : load_blip_model cfg w s = (Raises e, s')).
  { unfold caption, generate_alt, infer_caption, bind in H.
    destruct (read img) as [data img1] eqn:Hread.
    unfold bind in H.
    destruct (infer_caption_from_data cfg w data (filename (upload img))
                (content_type (upload img)) s) as [[c|e1] s1] eqn:E1.
    - exfalso. unfold ret at 1 in H. cbn [fst snd] in H.
      destruct (generate_alt_from_caption_returns cfg w c s1)
        as [alt [s2 E2]].
      rewrite E2 in H. unfold ret at 1 in H. cbn [fst snd] in H.
      destruct include_caption; [|discriminate].
      destruct (read img1) as [data2 img2].
      assert (R1 : ready Captioner s1 = true).
      { unfold infer_caption_from_data, bind in E1.
        destruct (load_blip_model cfg w s) as [[[]|e0] s0] eqn:E0;
          [|discriminate].
        pose proof (load_model_returns_ready Captioner cfg w s s0 E0) as R0.
        pose proof (leaves_try Captioner _ _
                      (leaves_blip_caption Captioner w data)
                      (fun _ => leaves_ret Captioner fallback_caption)
                      _ _ _ E1) as U.
        now rewrite (untouched_ready _ _ _ U). }
      pose proof (keeps_generate_alt_from_caption Captioner cfg w c
                    s1 _ _ R1 E2) as U2.
      assert (R2 : ready Captioner s2 = true)
        by now rewrite (untouched_ready _ _ _ U2).
      destruct (infer_caption_from_data_returns cfg w data2
                  (filename (upload img1)) (content_type (upload img1))
                  s2 s2 (load_model_ready Captioner cfg w s2 R2))
        as [c2 [s3 E3]].
      unfold bind in H. rewrite E3 in H. discriminate.
    - inversion H; subst.
      now apply infer_caption_from_data_raises in E1. }
  split; [exact Hload|].
  destruct (load_raises_body Captioner cfg w s e s' Hload) as [_ [exc [_ ->]]].
  now exists exc.
Qed.

Lemma caption_raises_only_load_failure_witness :
  fst (caption default_config Doubles.offline
         (opened (Doubles.upload (Some (py "text/plain")) []))
         true initial_state) =
  Raises (RuntimeError (py "BLIP model load failed: connection refused")).
Proof.
  destruct (caption default_config Doubles.offline
              (opened (Doubles.upload (Some (py "text/plain")) []))
              true initial_state) as [[r|e] s'] eqn:E;
    [vm_compute in E; discriminate|].
  destruct (caption_raises_only_load_failure _ _ _ _ _ _ _ E) as [Hload _].
  vm_compute in Hload. inversion Hload. reflexivity.
Defined.

(** X19.  With [include_caption] set, [POST /caption] reads the upload a
    second time after it has been read to the end: the [caption] field is
    the caption of the empty byte string, not of the image, and with a
    decoder that rejects an empty body it is [A beautiful image].  The
    [words] field is the number of words of [alt]. *)
Theorem caption_reads_twice cfg w u s s1 :
  load_blip_model cfg w s = (Returns tt, s1) ->
  exists caption1 s2 alt_text s3 caption2 s4,
    infer_caption_from_data cfg w (file_data u) (filename u)
      (content_type u) s = (Returns caption1, s2) /\
    generate_alt_from_caption cfg w caption1 s2 = (Returns alt_text, s3) /\
    infer_caption_from_data cfg w [] (filename u) (content_type u) s3 =
    (Returns caption2, s4) /\
    caption cfg w (opened u) false s =
    (Returns [("alt"%string, JStr alt_text);
              ("words"%string, JInt (wc alt_text))], s3) /\
    caption cfg w (opened u) true s =
    (Returns [("alt"%string, JStr alt_text);
              ("words"%string, JInt (wc alt_text));
              ("caption"%string, JStr caption2)], s4) /\
    ((forall h, exists e, Image_open_convert w [] h = Raises e) ->
     caption2 = py "A beautiful image").
Proof.
  intros Hload.
  destruct (infer_caption_from_data_returns cfg w (file_data u) (filename u)
              (content_type u) s s1 Hload) as [c1 [s2 E1]].
  destruct (generate_alt_from_caption_returns cfg w c1 s2) as [alt [s3 E2]].
  assert (R2 : ready Captioner s2 = true).
  { pose proof (load_model_returns_ready Captioner cfg w s s1 Hload) as R1.
    unfold infer_caption_from_data, bind in E1. rewrite Hload in E1.
    pose proof (leaves_try Captioner _ _
                  (leaves_blip_caption Captioner w (file_data u))
                  (fun _ => leaves_ret Captioner fallback_caption)
                  _ _ _ E1) as U.
    now rewrite (untouched_ready _ _ _ U). }
  pose proof (keeps_generate_alt_from_caption Captioner cfg w c1
                s2 _ _ R2 E2) as U2.
  assert (R3 : ready Captioner s3 = true)
    by now rewrite (untouched_ready _ _ _ U2).
  pose proof (load_model_ready Captioner cfg w s3 R3) as L3. simpl in L3.
  destruct (infer_caption_from_data_returns cfg w [] (filename u)
              (content_type u) s3 s3 L3) as [c2 [s4 E3]].
  exists c1, s2, alt, s3, c2, s4.
  split; [exact E1|]. split; [exact E2|]. split; [exact E3|].
  assert (Hgen : generate_alt cfg w (opened u) s =
                 (Returns (alt,
                           {| upload := u;
                              position := List.length (file_data u) |}), s3)).
  { unfold generate_alt, infer_caption. rewrite read_opened.
    unfold bind. cbn [upload opened]. rewrite E1. unfold ret at 1.
    cbn [fst snd]. rewrite E2. reflexivity. }
  split; [|split].
  - unfold caption, bind. rewrite Hgen. reflexivity.
  - unfold caption, bind. rewrite Hgen. cbn [fst snd].
    unfold infer_caption.
    destruct (read {| upload := u; position := List.length (file_data u) |})
      as [data2 img2] eqn:Hread.
    assert (Hdata : data2 = [])
      by (rewrite <- (read_again u), Hread; reflexivity).
    subst data2. unfold bind. cbn [upload]. rewrite E3. reflexivity.
  - intros Hreject.
    unfold infer_caption_from_data, bind, try_except in E3.
    rewrite L3 in E3. unfold blip_caption, bind, call in E3.
    destruct (Hreject (events s3)) as [e He]. rewrite He in E3.
    inversion E3. reflexivity.
Qed.

Lemma caption_reads_twice_witness :
  fst (caption default_config
         (Faults.picky_decoder Doubles.cat_caption Doubles.cat_caption)
         (opened (Doubles.upload (Some (py "image/png")) Doubles.png))
         true initial_state) =
  Returns [("alt"%string, JStr Doubles.cat_caption);
           ("words"%string, JInt 8);
           ("caption"%string, JStr (py "A beautiful image"))].
Proof.
  destruct (caption_reads_twice default_config
              (Faults.picky_decoder Doubles.cat_caption Doubles.cat_caption)
              (Doubles.upload (Some (py "image/png")) Doubles.png)
              initial_state
              (after (load_blip_model default_config
                        (Faults.picky_decoder Doubles.cat_caption
                           Doubles.cat_caption)) initial_state))
    as (c1 & s2 & alt & s3 & c2 & s4 & E1 & E2 & _ & _ & Hrun & Hfallback).
  - vm_compute. reflexivity.
  - rewrite Hrun. simpl fst.
    rewrite Hfallback by (intros h; eexists; reflexivity).
    vm_compute in E1. inversion E1; subst.
    vm_compute in E2. inversion E2; subst. reflexivity.
Defined.

(** *** The alt text of a response *)

Lemma generate_alt_result_not_empty cfg w caption_text s alt_text s' :
  generate_alt_from_caption cfg w caption_text s = (Returns alt_text, s') ->
  caption_text <> [] -> alt_text <> [].
Proof.
  unfold generate_alt_from_caption, try_except, ret. intros H Hc.
  destruct (refine_alt_text cfg w caption_text s) as [[out|e] s1] eqn:E;
    inversion H; subst; [|exact Hc].
  destruct (Texts.refine_alt_text_result _ _ _ _ _ _ E) as [[t ->]| ->].
  - now apply Texts.shape_alt_text_not_empty.
  - now apply Texts.refinement_fallback_not_empty.
Qed.

(** X20.  For a valid request whose captioner is loaded, the [alt] of the
    response of [POST /alt] is empty only if the caption that the
    captioning stage returned is empty. *)
Theorem alt_only_alt_not_empty
    cfg w image raw debug include_caption s s1 t :
  content_type image = Some t -> startswith t (py "image/") = true ->
  file_data image <> [] ->
  load_blip_model cfg w s = (Returns tt, s1) ->
  exists caption_text s2 alt_text r s3,
    infer_caption_from_data cfg w (file_data image) (filename image)
      (content_type image) s = (Returns caption_text, s2) /\
    alt_only cfg w image raw debug include_caption s = (Returns r, s3) /\
    lookup "alt" r = Some alt_text /\
    (caption_text <> [] -> alt_text <> []).
Proof.
  intros Hct Hst Hd Hload.
  destruct (alt_only_valid cfg w image raw debug include_caption s s1 t
              Hct Hst Hd Hload)
    as [c [alt [s2 [s3 [Hcap [Halt Hrun]]]]]].
  exists c, s2, alt. eexists. exists s3.
  split; [exact Hcap|]. split; [exact Hrun|]. split.
  - destruct (raw || debug); [|destruct include_caption]; reflexivity.
  - now apply (generate_alt_result_not_empty cfg w c s2 alt s3).
Qed.

Lemma alt_only_alt_not_empty_witness :
  exists alt_text r s3,
    alt_only default_config
      (Doubles.working Doubles.cat_caption
         (Doubles.answer Doubles.cat_caption (py " ' ' ")))
      (Doubles.upload (Some (py "image/png")) Doubles.png) true false false
      initial_state = (Returns r, s3) /\
    lookup "alt" r = Some alt_text /\ alt_text <> [].
Proof.
  destruct (alt_only_alt_not_empty default_config
              (Doubles.working Doubles.cat_caption
                 (Doubles.answer Doubles.cat_caption (py " ' ' ")))
              (Doubles.upload (Some (py "image/png")) Doubles.png)
              true false false initial_state
              (after (load_blip_model default_config
                        (Doubles.working Doubles.cat_caption
                           (Doubles.answer Doubles.cat_caption (py " ' ' "))))
                 initial_state)
              (py "image/png"))
    as (c & s2 & alt & r & s3 & Hcap & Hrun & Halt & Hne).
  - reflexivity.
  - reflexivity.
  - discriminate.
  - vm_compute. reflexivity.
  - exists alt, r, s3. split; [exact Hrun|]. split; [exact Halt|].
    apply Hne. vm_compute in Hcap. inversion Hcap. discriminate.
Defined.

End Service.

(** ** Two callers and the lock *)

Module Concurrent.

Import Threads Registry.

(** X21.  In every configuration that two callers of a load operation can
    reach, the lock is held by exactly the caller that is inside the [with]
    block, the two are never inside together, and there is no deadlock: if
    no caller can move, both have finished. *)
Theorem lock_discipline k cfg w s m :
  steps (loader_of k cfg w) (start s) m ->
  (forall t, lock m = Some t <-> in_critical (phase_of t m) = true) /\
  in_critical (ph1 m) && in_critical (ph2 m) = false /\
  (stuck (loader_of k cfg w) m ->
   finished (ph1 m) = true /\ finished (ph2 m) = true).
Proof.
  intros Hsteps.
  pose proof (lock_ok_steps _ _ _ Hsteps (lock_ok_start s)) as Hok.
  split; [|split].
  - intros t. symmetry. apply Hok.
  - destruct (in_critical (ph1 m)) eqn:E1, (in_critical (ph2 m)) eqn:E2;
      try reflexivity.
    apply (Hok T1) in E1. apply (Hok T2) in E2. congruence.
  - now apply no_deadlock.
Qed.

Lemma lock_discipline_witness :
  lock (run (loader_of Refiner default_config Doubles.offline)
          [T1; T2; T1; T2; T1] (start initial_state)) = Some T1 /\
  in_critical
    (ph2 (run (loader_of Refiner default_config Doubles.offline)
            [T1; T2; T1; T2; T1] (start initial_state))) = false.
Proof.
  destruct (lock_discipline Refiner default_config Doubles.offline
              initial_state
              (run (loader_of Refiner default_config Doubles.offline)
                 [T1; T2; T1; T2; T1] (start initial_state))
              (run_steps _ _ _)) as (Hlock & Hexcl & _).
  split.
  - apply Hlock. vm_compute. reflexivity.
  - assert (H1 : in_critical
                   (ph1 (run (loader_of Refiner default_config Doubles.offline)
                           [T1; T2; T1; T2; T1] (start initial_state)))
                 = true) by (vm_compute; reflexivity).
    rewrite H1 in Hexcl. exact Hexcl.
Defined.

(** X22.  With a runtime in which loading does not fail, two callers of a
    load operation are always both served: from every configuration they
    can reach some schedule brings both to return, and whenever no caller
    can move both have returned, the handles are set and each
    [from_pretrained] of the model has been called once. *)
Theorem two_callers_served k cfg w s m :
  reliable w -> ready k s = false ->
  steps (loader_of k cfg w) (start s) m ->
  (exists schedule,
     ph1 (run (loader_of k cfg w) schedule m) = Returned /\
     ph2 (run (loader_of k cfg w) schedule m) = Returned) /\
  (stuck (loader_of k cfg w) m ->
   ph1 m = Returned /\ ph2 m = Returned /\
   ready k (shared m) = true /\
   model_loads k (shared m) = S (model_loads k s) /\
   helper_loads k (shared m) = S (helper_loads k s)).
Proof.
  intros Hrel Hr Hsteps.
  pose proof (lock_ok_steps _ _ _ Hsteps (lock_ok_start s)) as Hok.
  split.
  - destruct (callers_finish (loader_of k cfg w) m Hok) as [schedule [F1 F2]].
    exists schedule.
    assert (Hall : steps (loader_of k cfg w) (start s)
                     (run (loader_of k cfg w) schedule m))
      by (eapply steps_trans; [exact Hsteps|apply run_steps]).
    destruct (calm_steps _ (body_total k cfg w Hrel) _ _ Hall
                (lock_ok_start s) (calm_start s)) as (R1 & R2 & _).
    destruct (ph1 (run (loader_of k cfg w) schedule m)),
             (ph2 (run (loader_of k cfg w) schedule m));
      try discriminate. now split.
  - intros Hstuck.
    destruct (callers_return _ (body_total k cfg w Hrel) s m Hsteps Hstuck)
      as [H1 H2].
    rewrite <- (ready_loader k cfg w) in Hr.
    destruct (callers_agree _ _ (body_loads_model k cfg w) s m Hr Hsteps H1 H2)
      as [Hready Hmodel].
    destruct (callers_agree _ _ (body_loads_helper k cfg w) s m Hr Hsteps H1 H2)
      as [_ Hhelper].
    rewrite <- ready_loader with (cfg := cfg) (w := w). auto.
Qed.

Lemma two_callers_served_witness :
  exists schedule,
    ph1 (run (loader_of Captioner default_config
                (Doubles.working Doubles.cat_caption Doubles.cat_caption))
           schedule
           (run (loader_of Captioner default_config
                   (Doubles.working Doubles.cat_caption Doubles.cat_caption))
              [T2; T1; T2] (start initial_state))) = Returned /\
    ph2 (run (loader_of Captioner default_config
                (Doubles.working Doubles.cat_caption Doubles.cat_caption))
           schedule
           (run (loader_of Captioner default_config
                   (Doubles.working Doubles.cat_caption Doubles.cat_caption))
              [T2; T1; T2] (start initial_state))) = Returned.
Proof.
  apply (two_callers_served Captioner default_config
           (Doubles.working Doubles.cat_caption Doubles.cat_caption)
           initial_state
           (run (loader_of Captioner default_config
                   (Doubles.working Doubles.cat_caption Doubles.cat_caption))
              [T2; T1; T2] (start initial_state))).
  - apply Loads.working_reliable.
  - reflexivity.
  - apply run_steps.
Defined.

End Concurrent.
